(** * osmdata-sc: flattening OSM nodes, ways and relations into SC tables

    A shallow embedding of [src/osmdata-sc.cpp] and the properties of its
    three flatteners ([get_osm_relations], [get_osm_ways], [get_osm_nodes]),
    of the edge identifier generator [random_id] and of the entry point
    [rcpp_osmdata_sc].

    The C++ functions become computations in a monad that threads the
    caller's by-reference data frames and a record of what the call did to
    the R host (interrupt polls, uniform draws, stores into matrices), and
    that can end early with a failure.  What lies outside the translation
    unit is a parameter: the host's answers to the polls and its random
    source ([host]), the relation tracer ([trace_relation]) and the parser
    ([parse]). *)

From Stdlib Require Import ZArith Lia Bool String Ascii List SpecFloat DecimalString.
From stdpp Require Import list.

Local Open Scope Z_scope.

(** ** C++ [double]: IEEE-754 binary64 *)

Module Double.

Definition prec : Z := 53.
Definition emax : Z := 1024.

Abbreviation double := spec_float.

(** A value a C++ [double] can hold. *)
Definition valid (x : double) : Prop := valid_binary prec emax x = true.

(** Conversion of an integer ([size_t -> double]), round to nearest even. *)
Definition of_Z (z : Z) : double := binary_normalize prec emax z 0 false.

Definition zero : double := S754_zero false.
Definition one : double := of_Z 1.

Definition mul : double -> double -> double := SFmul prec emax.
Definition ltb : double -> double -> bool := SFltb.
Definition leb : double -> double -> bool := SFleb.

(** [floor] of <cmath>: the largest integral value not above [x], as a
    double; zeros, infinities and NaN are returned unchanged. *)
Definition floor (x : double) : double :=
  match x with
  | S754_finite s m e =>
      if 0 <=? e then x
      else
        let d := 2 ^ (- e) in
        let q := if s then - ((Z.pos m + d - 1) / d) else Z.pos m / d in
        if q =? 0 then S754_zero s else of_Z q
  | _ => x
  end.

(** [static_cast <size_t>]: truncation towards zero; the conversion is
    undefined ([None]) when the truncated value is not a 64-bit unsigned
    integer. *)
Definition to_size_t (x : double) : option Z :=
  match x with
  | S754_zero _ => Some 0
  | S754_finite s m e =>
      let t := if 0 <=? e then Z.pos m * 2 ^ e else Z.pos m / 2 ^ (- e) in
      if s then (if t =? 0 then Some 0 else None)
      else if t <? 2 ^ 64 then Some t else None
  | _ => None
  end.

End Double.

(** ** The R host and the Rcpp objects the translation unit uses *)

Local Open Scope nat_scope.

Import Double.

(** Conditions that end a call early: the interrupt raised by
    [Rcpp::checkUserInterrupt], R errors raised by allocation and by
    [DataFrame::create], and the two undefined operations the code can reach
    (a store past the end of a vector, a cast of an unrepresentable double). *)
Inductive failure : Type :=
  | Interrupted
  | NegativeExtent
  | DifferingRows
  | OutOfBounds
  | UndefinedCast.

(** What the call does to its environment, in program order. *)
Inductive event : Type :=
  | EvPoll
  | EvDraw
  | EvStore (obj : string) (i j : nat).

(** The host: its answer to the k-th interrupt poll and the k-th value of
    its uniform random source. *)
Record host : Type := {
  pending : nat -> bool;
  unif_rand : nat -> double
}.

Record world : Type := {
  polls : nat;
  draws : nat;
  trace : list event
}.

Definition log (ev : event) (w : world) : world :=
  {| polls := polls w; draws := draws w; trace := trace w ++ [ev] |}.

(** Computations over the caller's variables passed by reference ([R]) and
    the world.  A failure keeps the state reached when it was raised. *)
Definition M (R A : Type) : Type :=
  host -> R * world -> (failure + A) * (R * world).

Section Monad.
Context {R : Type}.

Definition ret {A} (a : A) : M R A := fun _ st => (inr a, st).

Definition bind {A B} (m : M R A) (f : A -> M R B) : M R B :=
  fun h st =>
    match m h st with
    | (inr a, st') => f a h st'
    | (inl e, st') => (inl e, st')
    end.

Definition throw {A} (e : failure) : M R A := fun _ st => (inl e, st).

(** Assignment to the caller's variables. *)
Definition assign (f : R -> R) : M R unit :=
  fun _ st => (inr tt, (f (fst st), snd st)).

(** [Rcpp::checkUserInterrupt ()] *)
Definition checkUserInterrupt : M R unit :=
  fun h st =>
    let w := snd st in
    let w' := {| polls := S (polls w); draws := draws w;
                 trace := trace w ++ [EvPoll] |} in
    (if pending h (polls w) then inl Interrupted else inr tt, (fst st, w')).

(** [Rcpp::runif (1) [0]] *)
Definition runif1 : M R double :=
  fun h st =>
    let w := snd st in
    let w' := {| polls := polls w; draws := S (draws w);
                 trace := trace w ++ [EvDraw] |} in
    (inr (unif_rand h (draws w)), (fst st, w')).

Definition emit (ev : event) : M R unit :=
  fun _ st => (inr tt, (fst st, log ev (snd st))).
End Monad.

Notation "'let*' x ':=' m 'in' k" := (bind m (fun x => k))
  (at level 10, x pattern, m at level 100, k at level 200).

(** A range-based [for] loop threading the loop's local variables. *)
Fixpoint for_each {R X L : Type} (l : list X) (body : X -> L -> M R L) (st : L)
  : M R L :=
  match l with
  | [] => ret st
  | x :: rest => let* st' := body x st in for_each rest body st'
  end.

(** *** Machine integers *)

Definition INT_MAX : Z := (2 ^ 31 - 1)%Z.

(** Conversion to [int]: the value modulo 2^32, in [-2^31, 2^31). *)
Definition wrap_int (z : Z) : Z := ((z + 2 ^ 31) mod 2 ^ 32 - 2 ^ 31)%Z.

(** *** Vectors and matrices *)

(** An R vector with a [dim] attribute: [nrow * ncol] cells stored column
    after column. A plain vector has one column. *)
Record Matrix (A : Type) : Type := {
  label : string;
  nrow : nat;
  ncol : nat;
  cells : list A
}.
Arguments label {A}. Arguments nrow {A}. Arguments ncol {A}. Arguments cells {A}.

Abbreviation CharacterMatrix := (Matrix string).
Abbreviation NumericMatrix := (Matrix double).
Abbreviation CharacterVector := (Matrix string).

(** [Rcpp::Dimension (n1, n2)] keeps its extents as [int]. *)
Definition Dimension (n1 n2 : Z) : Z * Z := (wrap_int n1, wrap_int n2).

(** Allocation, every cell holding the type's default value; R refuses
    negative extents. *)
Definition new_Matrix {R A} (dflt : A) (lbl : string) (d : Z * Z) : M R (Matrix A) :=
  if ((fst d <? 0) || (snd d <? 0))%Z then throw NegativeExtent
  else ret {| label := lbl; nrow := Z.to_nat (fst d); ncol := Z.to_nat (snd d);
              cells := replicate (Z.to_nat (fst d) * Z.to_nat (snd d)) dflt |}.

Definition new_CharacterMatrix {R} := @new_Matrix R string EmptyString.
Definition new_NumericMatrix {R} := @new_Matrix R double zero.
Definition new_CharacterVector {R} (lbl : string) (n : nat) : M R CharacterVector :=
  ret {| label := lbl; nrow := n; ncol := 1; cells := replicate n EmptyString |}.

(** [m (i, j) = v]: the cell at offset [i + nrow * j] of the underlying
    vector is overwritten. *)
Definition store {R A} (m : Matrix A) (i j : nat) (v : A) : M R (Matrix A) :=
  let k := i + nrow m * j in
  if k <? length (cells m) then
    let* _ := emit (EvStore (label m) i j) in
    ret {| label := label m; nrow := nrow m; ncol := ncol m;
           cells := <[k := v]> (cells m) |}
  else throw OutOfBounds.

(** [m (Rcpp::_, j)] *)
Definition column {A} (m : Matrix A) (j : nat) : list A :=
  take (nrow m) (drop (nrow m * j) (cells m)).

(** *** Data frames and lists *)

Inductive Column : Type :=
  | NumericColumn (l : list double)
  | CharacterColumn (l : list string).

Definition column_length (c : Column) : nat :=
  match c with
  | NumericColumn l => length l
  | CharacterColumn l => length l
  end.

Record DataFrame : Type := { df_columns : list (string * Column) }.

(** R's [nrow]. *)
Definition df_nrow (df : DataFrame) : nat :=
  match df_columns df with
  | [] => 0
  | (_, c) :: _ => column_length c
  end.

Definition df_column (name : string) (df : DataFrame) : option Column :=
  snd <$> find (fun nc => String.eqb (fst nc) name) (df_columns df).

Definition Named (name : string) (c : Column) : string * Column := (name, c).

(** R's recycling of a column to [nr] rows: a column of [nr] cells is kept,
    a shorter one that is not empty and whose length divides [nr] is
    repeated, any other is refused. *)
Definition recycle {A} (nr : nat) (l : list A) : option (list A) :=
  let n := length l in
  if n =? nr then Some l
  else if (0 <? n) && (nr mod n =? 0) then Some (concat (replicate (nr / n) l))
  else None.

Definition recycle_column (nr : nat) (c : Column) : option Column :=
  match c with
  | NumericColumn l => NumericColumn <$> recycle nr l
  | CharacterColumn l => CharacterColumn <$> recycle nr l
  end.

Fixpoint recycle_columns (nr : nat) (cols : list (string * Column))
  : option (list (string * Column)) :=
  match cols with
  | [] => Some []
  | (name, c) :: rest =>
      match recycle_column nr c, recycle_columns nr rest with
      | Some c', Some rest' => Some ((name, c') :: rest')
      | _, _ => None
      end
  end.

(** [Rcpp::DataFrame::create (..., _["stringsAsFactors"] = false)]
    evaluates R's [as.data.frame] on the list of the named columns: the
    table has as many rows as its longest column, shorter columns are
    recycled, and R raises an error (arguments imply differing number of
    rows) when one cannot be. *)
Definition DataFrame_create {R} (cols : list (string * Column)) : M R DataFrame :=
  let nr := max_list (column_length ∘ snd <$> cols) in
  match recycle_columns nr cols with
  | Some cols' => ret {| df_columns := cols' |}
  | None => throw DifferingRows
  end.

(** [Rcpp::List] with its [names] attribute. *)
Record RList : Type := {
  elements : list DataFrame;
  names : list string
}.

(** [std::to_string] on a signed integer. *)
Definition to_string (z : Z) : string := NilZero.string_of_int (Z.to_int z).

(** ** The OSM model read by the flatteners

    The containers are given as the sequence their iterators traverse, from
    [begin ()] to [end ()]. *)

Abbreviation osmid_t := Z.

Abbreviation osm_str_vec := (list (osmid_t * string)).

Module Node.
Record t : Type := {
  lat : double;
  lon : double;
  key_val : list (string * string)
}.
End Node.

Module OneWay.
Record t : Type := {
  key_val : list (string * string);
  nodes : list osmid_t
}.
End OneWay.

Module Relation.
Record t : Type := {
  id : osmid_t;
  key_val : list (string * string);
  ways : osm_str_vec
}.
End Relation.

Abbreviation Nodes := (list (osmid_t * Node.t)).
Abbreviation Ways := (list (osmid_t * OneWay.t)).
Abbreviation Relations := (list Relation.t).

(** ** The flatteners

    The row counters of the fill loops ([i_rel_mat], [count_w], [keyj], ...)
    are natural numbers here: a store in the last column of a row past the
    last one fails, so a counter never passes the number of rows of its
    matrix, which is an [int]. *)

(** The three statements that fill one row of a key-value matrix, shared by
    the key-value loops of the three flatteners:
    [kv_mat (k, 0) = std::to_string (id); kv_mat (k, 1) = key;
     kv_mat (k++, 2) = value]. *)
Definition store_key_val {R} (obj : osmid_t) (kv : string * string)
    (st : CharacterMatrix * nat) : M R (CharacterMatrix * nat) :=
  let '(kv_mat, k) := st in
  let* kv_mat := store kv_mat k 0 (to_string obj) in
  let* kv_mat := store kv_mat k 1 (fst kv) in
  let* kv_mat := store kv_mat k 2 (snd kv) in
  ret (kv_mat, S k).

(** *** get_osm_relations *)

(** The caller's data frames, passed by reference. *)
Record rel_refs : Type := { rel_df : DataFrame; rel_kv_df : DataFrame }.

Section Relations.
(** The external tracer: for a relation, the (member id, role) pairs and
    the (key, value) pairs it puts into its two output vectors. *)
Variable trace_relation :
  Relation.t -> osm_str_vec * list (string * string).

(** First loop: the row counts, accumulated in [size_t]. *)
Definition relations_count (rels : Relations) : Z * Z :=
  fold_left (fun '(nrow_kv, nrow_memb) itr =>
               ((nrow_kv + Z.of_nat (length (Relation.key_val itr)))%Z,
                (nrow_memb + Z.of_nat (length (Relation.ways itr)))%Z))
            rels (0%Z, 0%Z).

Definition store_member (rel : osmid_t) (r : osmid_t * string)
    (st : CharacterMatrix * nat) : M rel_refs (CharacterMatrix * nat) :=
  let '(rel_mat, i_rel_mat) := st in
  let* rel_mat := store rel_mat i_rel_mat 0 (to_string rel) in
  let* rel_mat := store rel_mat i_rel_mat 1 (to_string (fst r)) in
  let* rel_mat := store rel_mat i_rel_mat 2 (snd r) in
  ret (rel_mat, S i_rel_mat).

(** Body of the second loop.  The local vector [ids] is written there and
    never read; it is left out. *)
Definition relations_body (itr : Relation.t)
    (st : (CharacterMatrix * nat) * (CharacterMatrix * nat))
  : M rel_refs ((CharacterMatrix * nat) * (CharacterMatrix * nat)) :=
  let '(rel_st, kv_st) := st in
  let* _ := checkUserInterrupt in
  let '(relation_ways, relation_kv) := trace_relation itr in
  let* rel_st := for_each relation_ways (store_member (Relation.id itr)) rel_st in
  let* kv_st := for_each (Relation.key_val itr) (store_key_val (Relation.id itr)) kv_st in
  ret (rel_st, kv_st).

Definition relations_fill (rels : Relations)
  : M rel_refs ((CharacterMatrix * nat) * (CharacterMatrix * nat)) :=
  let '(nrow_kv, nrow_memb) := relations_count rels in
  let* kv_mat := new_CharacterMatrix "kv_mat" (Dimension nrow_kv 3) in
  let* rel_mat := new_CharacterMatrix "rel_mat" (Dimension nrow_memb 3) in
  for_each rels relations_body ((rel_mat, 0), (kv_mat, 0)).

Definition get_osm_relations (rels : Relations) : M rel_refs unit :=
  let* ((rel_mat, _), (kv_mat, _)) := relations_fill rels in
  let* df := DataFrame_create
               [Named "object_" (CharacterColumn (column rel_mat 0));
                Named "ref" (CharacterColumn (column rel_mat 1));
                Named "role" (CharacterColumn (column rel_mat 2))] in
  let* _ := assign (fun r => {| rel_df := df; rel_kv_df := rel_kv_df r |}) in
  let* df := DataFrame_create
               [Named "object_" (CharacterColumn (column kv_mat 0));
                Named "key" (CharacterColumn (column kv_mat 1));
                Named "value" (CharacterColumn (column kv_mat 2))] in
  assign (fun r => {| rel_df := rel_df r; rel_kv_df := df |}).
End Relations.

(** *** random_id *)

(** [charset]: the 62 symbols and the terminating NUL of the array. *)
Definition charset : list ascii :=
  list_ascii_of_string
    "0123456789ABCDEFGHIJKLMNOPQRSTUVWXYZabcdefghijklmnopqrstuvwxyz"
  ++ [Ascii.zero].

(** [sizeof (charset) - 1] *)
Definition max_index : Z := (Z.of_nat (length charset) - 1)%Z.

Definition randchar {R} : M R ascii :=
  let* u := runif1 in
  match to_size_t (floor (mul u (of_Z max_index))) with
  | None => throw UndefinedCast
  | Some i =>
      match charset !! Z.to_nat i with
      | Some c => ret c
      | None => throw OutOfBounds
      end
  end.

(** [std::generate_n (str.begin (), len, gen)] *)
Fixpoint generate_n {R} (len : nat) (gen : M R ascii) : M R (list ascii) :=
  match len with
  | O => ret []
  | S n => let* c := gen in let* cs := generate_n n gen in ret (c :: cs)
  end.

Definition random_id {R} (len : nat) : M R string :=
  let* str := generate_n len randchar in
  ret (string_of_list_ascii str).

(** *** get_osm_ways

    [Rcpp::RNGScope scope] reads the state of R's generator on entry and
    writes it back on exit; the draws themselves are those of the host. *)

Record way_refs : Type := {
  edge : DataFrame;
  object_link_edge : DataFrame;
  way_kv_df : DataFrame
}.

Definition length_ids : nat := 10.

(** First loop: the row counts, accumulated in [int]. *)
Definition ways_count (ways : Ways) : Z * Z :=
  fold_left (fun '(nedges, nkv) wi =>
               let n := Z.of_nat (length (OneWay.nodes (snd wi))) in
               ((if (0 <? n)%Z then wrap_int (nedges + (n - 1)) else nedges),
                wrap_int (nkv + Z.of_nat (length (OneWay.key_val (snd wi))))))
            ways (0%Z, 0%Z).

(** One edge of a way, from the node at [wj] to the node at [std::next (wj)]. *)
Definition store_edge (way : osmid_t) (wj wj_next : osmid_t)
    (st : CharacterMatrix * CharacterMatrix * nat)
  : M way_refs (CharacterMatrix * CharacterMatrix * nat) :=
  let '(edge_mat, object_link_edge_mat, count_w) := st in
  let* edge_mat := store edge_mat count_w 0 (to_string wj) in
  let* edge_mat := store edge_mat count_w 1 (to_string wj_next) in
  let* idj := random_id length_ids in
  let* edge_mat := store edge_mat count_w 2 idj in
  let* object_link_edge_mat := store object_link_edge_mat count_w 0 idj in
  let* object_link_edge_mat := store object_link_edge_mat count_w 1 (to_string way) in
  ret (edge_mat, object_link_edge_mat, S count_w).

(** The loop from [first] to [last], the last node of the way (or [end ()]
    for a way without nodes). *)
Fixpoint way_edges (way : osmid_t) (nodes : list osmid_t)
    (st : CharacterMatrix * CharacterMatrix * nat)
  : M way_refs (CharacterMatrix * CharacterMatrix * nat) :=
  match nodes with
  | wj :: ((wj_next :: _) as rest) =>
      let* st := store_edge way wj wj_next st in
      way_edges way rest st
  | _ => ret st
  end.

Definition ways_body (wi : osmid_t * OneWay.t)
    (st : (CharacterMatrix * CharacterMatrix * nat) * (CharacterMatrix * nat))
  : M way_refs ((CharacterMatrix * CharacterMatrix * nat) * (CharacterMatrix * nat)) :=
  let '(edge_st, kv_st) := st in
  let* _ := checkUserInterrupt in
  let* edge_st := way_edges (fst wi) (OneWay.nodes (snd wi)) edge_st in
  let* kv_st := for_each (OneWay.key_val (snd wi)) (store_key_val (fst wi)) kv_st in
  ret (edge_st, kv_st).

Definition ways_fill (ways : Ways)
  : M way_refs ((CharacterMatrix * CharacterMatrix * nat) * (CharacterMatrix * nat)) :=
  let '(nedges, nkv) := ways_count ways in
  let* edge_mat := new_CharacterMatrix "edge_mat" (Dimension nedges 3) in
  let* object_link_edge_mat :=
    new_CharacterMatrix "object_link_edge_mat" (Dimension nedges 2) in
  let* kv_mat := new_CharacterMatrix "kv_mat" (Dimension nkv 3) in
  for_each ways ways_body ((edge_mat, object_link_edge_mat, 0), (kv_mat, 0)).

Definition get_osm_ways (ways : Ways) : M way_refs unit :=
  let* ((edge_mat, object_link_edge_mat, _), (kv_mat, _)) := ways_fill ways in
  let* df := DataFrame_create
               [Named ".vx0" (CharacterColumn (column edge_mat 0));
                Named ".vx1" (CharacterColumn (column edge_mat 1));
                Named "edge_" (CharacterColumn (column edge_mat 2))] in
  let* _ := assign (fun r => {| edge := df; object_link_edge := object_link_edge r;
                                way_kv_df := way_kv_df r |}) in
  let* df := DataFrame_create
               [Named "edge_" (CharacterColumn (column object_link_edge_mat 0));
                Named "object_" (CharacterColumn (column object_link_edge_mat 1))] in
  let* _ := assign (fun r => {| edge := edge r; object_link_edge := df;
                                way_kv_df := way_kv_df r |}) in
  let* df := DataFrame_create
               [Named "object_" (CharacterColumn (column kv_mat 0));
                Named "key" (CharacterColumn (column kv_mat 1));
                Named "value" (CharacterColumn (column kv_mat 2))] in
  assign (fun r => {| edge := edge r; object_link_edge := object_link_edge r;
                      way_kv_df := df |}).

(** *** get_osm_nodes *)

Record node_refs : Type := { node_df : DataFrame; node_kv_df : DataFrame }.

(** First loop: the number of key-value rows, accumulated in [int]. *)
Definition nodes_count (nodes : Nodes) : Z :=
  fold_left (fun nkeys ni =>
               wrap_int (nkeys + Z.of_nat (length (Node.key_val (snd ni)))))
            nodes 0%Z.

Definition nodes_body (ni : osmid_t * Node.t)
    (st : (CharacterVector * NumericMatrix * nat) * (CharacterMatrix * nat))
  : M node_refs ((CharacterVector * NumericMatrix * nat) * (CharacterMatrix * nat)) :=
  let '((node_ids, node_mat, i), kv_st) := st in
  let* _ := if i mod 1000 =? 0 then checkUserInterrupt else ret tt in
  let* node_ids := store node_ids i 0 (to_string (fst ni)) in
  let* node_mat := store node_mat i 0 (Node.lon (snd ni)) in
  let* node_mat := store node_mat i 1 (Node.lat (snd ni)) in
  let* kv_st := for_each (Node.key_val (snd ni)) (store_key_val (fst ni)) kv_st in
  ret ((node_ids, node_mat, S i), kv_st).

Definition nodes_fill (nodes : Nodes)
  : M node_refs ((CharacterVector * NumericMatrix * nat) * (CharacterMatrix * nat)) :=
  let nrow := length nodes in
  let* node_ids := new_CharacterVector "node_ids" nrow in
  let* node_mat := new_NumericMatrix "node_mat" (Dimension (Z.of_nat nrow) 2) in
  let nkeys := nodes_count nodes in
  let* kv_mat := new_CharacterMatrix "kv_mat" (Dimension nkeys 3) in
  for_each nodes nodes_body ((node_ids, node_mat, 0), (kv_mat, 0)).

Definition get_osm_nodes (nodes : Nodes) : M node_refs unit :=
  let* ((node_ids, node_mat, _), (kv_mat, _)) := nodes_fill nodes in
  let* df := DataFrame_create
               [Named "x_" (NumericColumn (column node_mat 0));
                Named "y_" (NumericColumn (column node_mat 1));
                Named "vertex_" (CharacterColumn (column node_ids 0))] in
  let* _ := assign (fun r => {| node_df := df; node_kv_df := node_kv_df r |}) in
  let* df := DataFrame_create
               [Named "object_" (CharacterColumn (column kv_mat 0));
                Named "key" (CharacterColumn (column kv_mat 1));
                Named "value" (CharacterColumn (column kv_mat 2))] in
  assign (fun r => {| node_df := node_df r; node_kv_df := df |}).

(** *** rcpp_osmdata_sc *)

(** The columns the parser object [XmlDataSC] hands out through its
    accessors. *)
Module XmlDataSC.
Record t : Type := {
  vx : list double;
  vy : list double;
  vert_id : list string;
  vx0 : list string;
  vx1 : list string;
  edge : list string;
  object : list string;
  node_id : list string;
  node_key : list string;
  node_val : list string;
  way_id : list string;
  way_key : list string;
  way_val : list string;
  rel_id : list string;
  rel_key : list string;
  rel_val : list string
}.
End XmlDataSC.

Section Assembler.
(** The constructor [XmlDataSC xml (st)] of the upstream parser.  The dump
    of the input under [DUMP_INPUT] is compiled out. *)
Variable parse : string -> XmlDataSC.t.

Definition rcpp_osmdata_sc (st : string) : M unit RList :=
  let xml := parse st in
  let* vertex := DataFrame_create
                   [Named "x" (NumericColumn (XmlDataSC.vx xml));
                    Named "y" (NumericColumn (XmlDataSC.vy xml));
                    Named "vertex_" (CharacterColumn (XmlDataSC.vert_id xml))] in
  let* edge := DataFrame_create
                 [Named ".vx0" (CharacterColumn (XmlDataSC.vx0 xml));
                  Named ".vx1" (CharacterColumn (XmlDataSC.vx1 xml));
                  Named "edge_" (CharacterColumn (XmlDataSC.edge xml))] in
  let* oXe := DataFrame_create
                [Named "edge_" (CharacterColumn (XmlDataSC.edge xml));
                 Named "object_" (CharacterColumn (XmlDataSC.object xml))] in
  let* obj_node := DataFrame_create
                     [Named "object_" (CharacterColumn (XmlDataSC.node_id xml));
                      Named "key" (CharacterColumn (XmlDataSC.node_key xml));
                      Named "val" (CharacterColumn (XmlDataSC.node_val xml))] in
  let* obj_way := DataFrame_create
                    [Named "object_" (CharacterColumn (XmlDataSC.way_id xml));
                     Named "key" (CharacterColumn (XmlDataSC.way_key xml));
                     Named "val" (CharacterColumn (XmlDataSC.way_val xml))] in
  let* obj_rel := DataFrame_create
                    [Named "object_" (CharacterColumn (XmlDataSC.rel_id xml));
                     Named "key" (CharacterColumn (XmlDataSC.rel_key xml));
                     Named "val" (CharacterColumn (XmlDataSC.rel_val xml))] in
  let ret0 := replicate 6 {| df_columns := [] |} in
  let ret0 := <[0 := vertex]> ret0 in
  let ret0 := <[1 := edge]> ret0 in
  let ret0 := <[2 := oXe]> ret0 in
  let ret0 := <[3 := obj_node]> ret0 in
  let ret0 := <[4 := obj_way]> ret0 in
  let ret0 := <[5 := obj_rel]> ret0 in
  let retnames := ["vertex"; "edge"; "object_link_edge";
                   "obj_node"; "obj_way"; "obj_rel"]%string in
  ret {| elements := ret0; names := retnames |}.
End Assembler.

(** * Specification vocabulary

    What the statements below are written with: the hosts that let a call
    complete, the rows the tables are expected to hold, the events a
    traversal is expected to leave in the trace, and the sample inputs the
    statements are tried on. *)

(** The world after [p] more polls, [d] more draws and the events [evs]. *)
Definition adv (p d : nat) (evs : list event) (w : world) : world :=
  {| polls := polls w + p; draws := draws w + d; trace := trace w ++ evs |}.

(** ** Hosts *)

(** No interrupt is ever pending. *)
Definition never_interrupts (h : host) : Prop := forall k, pending h k = false.

(** A draw of the uniform source: a double in [0, 1). *)
Definition unit_interval (u : double) : Prop :=
  valid u /\ leb zero u = true /\ ltb u one = true.

Definition uniform_source (h : host) : Prop :=
  forall k, unit_interval (unif_rand h k).

(** A row total that an [int] counter and an R matrix extent can hold. *)
Definition fits_int (n : nat) : Prop := (Z.of_nat n <= INT_MAX)%Z.

Definition failure_of {A} (r : failure + A) : option failure :=
  match r with
  | inl e => Some e
  | inr _ => None
  end.

(** A computation is [orderly] when it leaves the caller's variables alone,
    never takes back a poll, and ends with the interrupt condition right at
    the first poll the host answers with a pending interrupt: that poll is
    the last thing it does. *)
Definition orderly {R A} (m : M R A) : Prop :=
  forall h s w,
    let out := m h (s, w) in
    fst (snd out) = s /\
    polls w <= polls (snd (snd out)) /\
    forall k, polls w <= k < polls (snd (snd out)) -> pending h k = true ->
              failure_of (fst out) = Some Interrupted /\
              polls (snd (snd out)) = S k /\
              last (trace (snd (snd out))) = Some EvPoll.

(** A computation is [silent] when it polls nothing. *)
Definition silent {R A} (m : M R A) : Prop :=
  forall h s w, polls (snd (snd (m h (s, w)))) = polls w.

(** ** Matrices as columns under construction *)

(** A column of [n] cells whose first cells hold [f]. *)
Definition pad {A} (dflt : A) (n : nat) (f : list A) : list A :=
  f ++ replicate (n - length f) dflt.

(** The matrix of [n] rows whose columns are filled from the top with
    [fs]. *)
Definition pmat {A} (dflt : A) (lbl : string) (n : nat) (fs : list (list A))
  : Matrix A :=
  {| label := lbl; nrow := n; ncol := length fs;
     cells := concat (pad dflt n <$> fs) |}.

Definition same_shape {A} (m m' : Matrix A) : Prop :=
  label m' = label m /\ nrow m' = nrow m /\ ncol m' = ncol m /\
  length (cells m') = length (cells m).

(** The stores to the matrix labelled [lbl] recorded in [evs] hit each of
    its [nr * nc] cells, and no position outside of it. *)
Definition fills (evs : list event) (lbl : string) (nr nc : nat) : Prop :=
  forall i j, EvStore lbl i j ∈ evs <-> i < nr /\ j < nc.

(** The fill pass wrote [written] rows into [m], as many as the first loop
    [counted] and as [m] has, and its stores hit every cell of [m] and
    nothing else. *)
Definition exact_fill {A} (evs : list event) (m : Matrix A) (written : nat)
    (counted : Z) : Prop :=
  Z.of_nat written = counted /\ nrow m = written /\
  fills evs (label m) (nrow m) (ncol m).

(** The rows [o, o + 1, ..., o + n - 1] of a column. *)
Definition rows_of {A} (o n : nat) (col : list A) : list A := take n (drop o col).

Definition row_events (lbl : string) (i : nat) : list event :=
  [EvStore lbl i 0; EvStore lbl i 1; EvStore lbl i 2].

Definition rows_events (lbl : string) (k n : nat) : list event :=
  concat (row_events lbl <$> seq k n).

(** ** Key-value tables *)

Abbreviation tagged := (osmid_t * list (string * string))%type (only parsing).

(** The columns of a key-value table: for each tagged object in turn, one
    row (object id, key, value) per tag, in the order of its tags. *)
Definition kv_objects (t : list tagged) : list string :=
  concat ((fun x : tagged => (fun _ => to_string (fst x)) <$> snd x) <$> t).

Definition kv_keys (t : list tagged) : list string :=
  concat ((fun x : tagged => fst <$> snd x) <$> t).

Definition kv_values (t : list tagged) : list string :=
  concat ((fun x : tagged => snd <$> snd x) <$> t).

Definition kv_total (t : list tagged) : nat :=
  sum_list ((fun x : tagged => length (snd x)) <$> t).

(** ** Identifiers *)

(** The 62 symbols: digits, uppercase letters, lowercase letters. *)
Definition alphanumeric (c : ascii) : Prop :=
  let n := nat_of_ascii c in
  48 <= n <= 57 \/ 65 <= n <= 90 \/ 97 <= n <= 122.

Definition alphanumericb (c : ascii) : bool :=
  let n := nat_of_ascii c in
  ((48 <=? n) && (n <=? 57)) || ((65 <=? n) && (n <=? 90))
  || ((97 <=? n) && (n <=? 122)).

(** The character [randchar] returns for the draw [u]. *)
Definition char_of_draw (u : double) : ascii :=
  match to_size_t (floor (mul u (of_Z max_index))) with
  | Some i => default Ascii.zero (charset !! Z.to_nat i)
  | None => Ascii.zero
  end.

Definition chars_of_draws (h : host) (d len : nat) : list ascii :=
  (fun j => char_of_draw (unif_rand h (d + j))) <$> seq 0 len.

(** The identifier [random_id (length_ids)] builds from the draws
    [d, d + 1, ..., d + 9] of the host. *)
Definition id_of_draws (h : host) (d : nat) : string :=
  string_of_list_ascii (chars_of_draws h d length_ids).

(** The identifiers of [n] consecutive calls of [random_id], the first of
    them made when the host has served [d] draws: no draw is used twice. *)
Definition ids_from (h : host) (d n : nat) : list string :=
  (fun i => id_of_draws h (d + length_ids * i)) <$> seq 0 n.

(** ** Ways *)

(** The edges of a way with nodes [n0; n1; ...; n(k-1)], as the
    specification lists them: (n0, n1), (n1, n2), ..., (n(k-2), n(k-1)). *)
Fixpoint consecutive_pairs {A} (l : list A) : list (A * A) :=
  match l with
  | a :: (b :: _) as rest => (a, b) :: consecutive_pairs rest
  | _ => []
  end.

Definition way_tags (ways : Ways) : list tagged :=
  (fun wi : osmid_t * OneWay.t => (fst wi, OneWay.key_val (snd wi))) <$> ways.

(** The edges of all ways, way after way, and for each edge the id of the
    way it belongs to. *)
Definition edge_pairs (ways : Ways) : list (osmid_t * osmid_t) :=
  concat ((fun wi : osmid_t * OneWay.t =>
             consecutive_pairs (OneWay.nodes (snd wi))) <$> ways).

Definition edge_owners (ways : Ways) : list string :=
  concat ((fun wi : osmid_t * OneWay.t =>
             replicate (length (OneWay.nodes (snd wi)) - 1)
                       (to_string (fst wi))) <$> ways).

Definition edge_total (ways : Ways) : nat :=
  sum_list ((fun wi : osmid_t * OneWay.t =>
               length (OneWay.nodes (snd wi)) - 1) <$> ways).

Definition edge_events (le lo : string) (c : nat) : list event :=
  [EvStore le c 0; EvStore le c 1] ++ replicate length_ids EvDraw ++
  [EvStore le c 2; EvStore lo c 0; EvStore lo c 1].

Definition edges_events (le lo : string) (c n : nat) : list event :=
  concat (edge_events le lo <$> seq c n).

Fixpoint ways_events (le lo lk : string) (c k : nat) (ways : Ways) : list event :=
  match ways with
  | [] => []
  | wi :: rest =>
      let ne := length (OneWay.nodes (snd wi)) - 1 in
      let nk := length (OneWay.key_val (snd wi)) in
      [EvPoll] ++ edges_events le lo c ne ++ rows_events lk k nk ++
      ways_events le lo lk (c + ne) (k + nk) rest
  end.

(** The three tables of the way flattener, when the host has served [d]
    draws before the call. *)
Definition ways_tables (h : host) (ways : Ways) (d : nat) : way_refs :=
  {| edge :=
       {| df_columns :=
            [(".vx0"%string, CharacterColumn (to_string ∘ fst <$> edge_pairs ways));
             (".vx1"%string, CharacterColumn (to_string ∘ snd <$> edge_pairs ways));
             ("edge_"%string, CharacterColumn (ids_from h d (edge_total ways)))] |};
     object_link_edge :=
       {| df_columns :=
            [("edge_"%string, CharacterColumn (ids_from h d (edge_total ways)));
             ("object_"%string, CharacterColumn (edge_owners ways))] |};
     way_kv_df :=
       {| df_columns :=
            [("object_"%string, CharacterColumn (kv_objects (way_tags ways)));
             ("key"%string, CharacterColumn (kv_keys (way_tags ways)));
             ("value"%string, CharacterColumn (kv_values (way_tags ways)))] |} |}.

(** ** Nodes *)

Definition node_tags (nodes : Nodes) : list tagged :=
  (fun ni : osmid_t * Node.t => (fst ni, Node.key_val (snd ni))) <$> nodes.

(** The interrupt poll made before node [i], if any. *)
Definition poll_before (i : nat) : list event :=
  if i mod 1000 =? 0 then [EvPoll] else [].

(** The stores made for node [i] when [k] key-value rows are filled. *)
Definition node_stores (li lm lk : string) (i k : nat) (ni : osmid_t * Node.t)
  : list event :=
  [EvStore li i 0; EvStore lm i 0; EvStore lm i 1] ++
  rows_events lk k (length (Node.key_val (snd ni))).

(** The events of the traversal from node index [i] on. *)
Fixpoint nodes_events (li lm lk : string) (i k : nat) (nodes : Nodes) : list event :=
  match nodes with
  | [] => []
  | ni :: rest =>
      poll_before i ++ node_stores li lm lk i k ni ++
      nodes_events li lm lk (S i) (k + length (Node.key_val (snd ni))) rest
  end.

(** The number of polls made before the nodes [i, i + 1, ..., i + n - 1]. *)
Fixpoint polls_from (i n : nat) : nat :=
  match n with
  | O => 0
  | S n' => length (poll_before i) + polls_from (S i) n'
  end.

(** The two tables of the node flattener. *)
Definition nodes_tables (nodes : Nodes) : node_refs :=
  {| node_df :=
       {| df_columns :=
            [("x_"%string, NumericColumn (Node.lon ∘ snd <$> nodes));
             ("y_"%string, NumericColumn (Node.lat ∘ snd <$> nodes));
             ("vertex_"%string, CharacterColumn (to_string ∘ fst <$> nodes))] |};
     node_kv_df :=
       {| df_columns :=
            [("object_"%string, CharacterColumn (kv_objects (node_tags nodes)));
             ("key"%string, CharacterColumn (kv_keys (node_tags nodes)));
             ("value"%string, CharacterColumn (kv_values (node_tags nodes)))] |} |}.

(** ** Relations *)

(** A member row is filled like a key-value row, with the member id printed
    in the place of the key and the role in the place of the value. *)
Definition member_row (r : osmid_t * string) : string * string :=
  (to_string (fst r), snd r).

Definition rel_tags (rels : Relations) : list tagged :=
  (fun r => (Relation.id r, Relation.key_val r)) <$> rels.

(** The member rows the tracer [tr] resolves, relation after relation. *)
Definition rel_members (tr : Relation.t -> osm_str_vec * list (string * string))
    (rels : Relations) : list tagged :=
  (fun r => (Relation.id r, member_row <$> fst (tr r))) <$> rels.

(** The total length of the pair lists the tracer returns. *)
Definition traced_total (tr : Relation.t -> osm_str_vec * list (string * string))
    (rels : Relations) : nat :=
  sum_list ((fun r => length (fst (tr r))) <$> rels).

(** The number of rows the first loop counts for the member matrix. *)
Definition ways_total (rels : Relations) : nat :=
  sum_list ((fun r => length (Relation.ways r)) <$> rels).

Fixpoint relations_events (tr : Relation.t -> osm_str_vec * list (string * string))
    (lr lk : string) (i k : nat) (rels : Relations) : list event :=
  match rels with
  | [] => []
  | r :: rest =>
      let nm := length (fst (tr r)) in
      let nk := length (Relation.key_val r) in
      [EvPoll] ++ rows_events lr i nm ++ rows_events lk k nk ++
      relations_events tr lr lk (i + nm) (k + nk) rest
  end.

(** The two tables of the relation flattener. *)
Definition relations_tables
    (tr : Relation.t -> osm_str_vec * list (string * string))
    (rels : Relations) : rel_refs :=
  {| rel_df :=
       {| df_columns :=
            [("object_"%string, CharacterColumn (kv_objects (rel_members tr rels)));
             ("ref"%string, CharacterColumn (kv_keys (rel_members tr rels)));
             ("role"%string, CharacterColumn (kv_values (rel_members tr rels)))] |};
     rel_kv_df :=
       {| df_columns :=
            [("object_"%string, CharacterColumn (kv_objects (rel_tags rels)));
             ("key"%string, CharacterColumn (kv_keys (rel_tags rels)));
             ("value"%string, CharacterColumn (kv_values (rel_tags rels)))] |} |}.

(** ** The parser's columns *)

(** The accessors of one table hand out columns of one length. *)
Definition xml_consistent (xml : XmlDataSC.t) : Prop :=
  (length (XmlDataSC.vy xml) = length (XmlDataSC.vx xml) /\
   length (XmlDataSC.vert_id xml) = length (XmlDataSC.vx xml)) /\
  (length (XmlDataSC.vx1 xml) = length (XmlDataSC.vx0 xml) /\
   length (XmlDataSC.edge xml) = length (XmlDataSC.vx0 xml)) /\
  length (XmlDataSC.object xml) = length (XmlDataSC.edge xml) /\
  (length (XmlDataSC.node_key xml) = length (XmlDataSC.node_id xml) /\
   length (XmlDataSC.node_val xml) = length (XmlDataSC.node_id xml)) /\
  (length (XmlDataSC.way_key xml) = length (XmlDataSC.way_id xml) /\
   length (XmlDataSC.way_val xml) = length (XmlDataSC.way_id xml)) /\
  (length (XmlDataSC.rel_key xml) = length (XmlDataSC.rel_id xml) /\
   length (XmlDataSC.rel_val xml) = length (XmlDataSC.rel_id xml)).

Definition table_names : list string :=
  ["vertex"; "edge"; "object_link_edge"; "obj_node"; "obj_way"; "obj_rel"]%string.

(** ** Rounding *)

(** Twice the value of a shifted mantissa, round bit included. *)
Definition weight (x : shr_record) : Z :=
  (2 * shr_m x + Z.b2z (shr_r x))%Z.

(** ** Sample inputs *)

Definition no_table : DataFrame := {| df_columns := [] |}.
Definition fresh_world : world := {| polls := 0; draws := 0; trace := [] |}.

(** The caller's data frames before the call. *)
Definition no_way_tables : way_refs :=
  {| edge := no_table; object_link_edge := no_table; way_kv_df := no_table |}.
Definition no_node_tables : node_refs :=
  {| node_df := no_table; node_kv_df := no_table |}.
Definition no_rel_tables : rel_refs :=
  {| rel_df := no_table; rel_kv_df := no_table |}.

(** Four doubles of [0.5, 1), served in turn. *)
Definition sample_draw (k : nat) : double :=
  match k mod 4 with
  | 0 => S754_finite false 4503599627370496 (-53)
  | 1 => S754_finite false 5629499534213120 (-53)
  | 2 => S754_finite false 6755399441055744 (-53)
  | _ => S754_finite false 9007199254740991 (-53)
  end.

Definition quiet_host : host :=
  {| pending := fun _ => false; unif_rand := sample_draw |}.

(** The host signals an interrupt at its second poll. *)
Definition cancelling_host : host :=
  {| pending := fun k => k =? 1; unif_rand := sample_draw |}.

(** A way with nodes [1; 2; 3] and one tag, a way of one node, a way
    without nodes. *)
Definition sample_ways : Ways :=
  [(7%Z, {| OneWay.key_val := [("highway", "residential")]%string;
            OneWay.nodes := [1; 2; 3]%Z |});
   (8%Z, {| OneWay.key_val := []; OneWay.nodes := [4]%Z |});
   (9%Z, {| OneWay.key_val := []; OneWay.nodes := [] |})].

(** The node [{id: 5, lon: 1.0, lat: 2.0, tags: {}}] and a tagged one. *)
Definition sample_nodes : Nodes :=
  [(5%Z, {| Node.lat := of_Z 2; Node.lon := of_Z 1; Node.key_val := [] |});
   (6%Z, {| Node.lat := of_Z 4; Node.lon := of_Z 3;
            Node.key_val := [("amenity", "cafe")]%string |})].

Definition sample_relations : Relations :=
  [{| Relation.id := 3%Z; Relation.key_val := [("type", "route")]%string;
      Relation.ways := [(7%Z, "outer"%string)] |}].

(** A tracer that hands back the relation's own ways and tags. *)
Definition tracer_copy (r : Relation.t) : osm_str_vec * list (string * string) :=
  (Relation.ways r, Relation.key_val r).

(** The same members with other tags. *)
Definition tracer_retagged (r : Relation.t) : osm_str_vec * list (string * string) :=
  (Relation.ways r, [("traced", "yes")]%string).

(** A tracer that resolves no member. *)
Definition tracer_none (r : Relation.t) : osm_str_vec * list (string * string) :=
  ([], []).

(** A tracer that resolves two members whatever the relation lists. *)
Definition tracer_two (r : Relation.t) : osm_str_vec * list (string * string) :=
  ([(1%Z, "inner"%string); (2%Z, "outer"%string)], []).

Definition sample_xml : XmlDataSC.t :=
  {| XmlDataSC.vx := [of_Z 1; of_Z 3]; XmlDataSC.vy := [of_Z 2; of_Z 4];
     XmlDataSC.vert_id := ["5"; "6"]%string;
     XmlDataSC.vx0 := ["5"]%string; XmlDataSC.vx1 := ["6"]%string;
     XmlDataSC.edge := ["a1B2c3D4e5"]%string;
     XmlDataSC.object := ["7"]%string;
     XmlDataSC.node_id := ["6"]%string; XmlDataSC.node_key := ["amenity"]%string;
     XmlDataSC.node_val := ["cafe"]%string;
     XmlDataSC.way_id := ["7"]%string; XmlDataSC.way_key := ["highway"]%string;
     XmlDataSC.way_val := ["residential"]%string;
     XmlDataSC.rel_id := []; XmlDataSC.rel_key := []; XmlDataSC.rel_val := [] |}.

(** A parser that hands out these columns whatever the input. *)
Definition sample_parse (st : string) : XmlDataSC.t := sample_xml.

(** ** Vocabulary of the further properties *)

(** The host [h] with every interrupt withdrawn. *)
Definition quieted (h : host) : host :=
  {| pending := fun _ => false; unif_rand := unif_rand h |}.

(** A computation is [poll_local] when it never takes back a poll and asks
    the host about pending interrupts at the polls it makes, and nowhere
    else: a host that answers these polls alike gives the same run. *)
Definition poll_local {R A} (m : M R A) : Prop :=
  forall h1 h2 s w,
    unif_rand h1 = unif_rand h2 ->
    let out := m h1 (s, w) in
    polls w <= polls (snd (snd out)) /\
    ((forall k, polls w <= k < polls (snd (snd out)) ->
                pending h2 k = pending h1 k) ->
     m h2 (s, w) = out).

(** A computation is [drawless] when it leaves the random source where it
    was, whatever the outcome. *)
Definition drawless {R A} (m : M R A) : Prop :=
  forall h s w, draws (snd (snd (m h (s, w)))) = draws w.

(** A computation is [source_blind] when its run depends on the host
    through the answers to the polls only, not through the random source. *)
Definition source_blind {R A} (m : M R A) : Prop :=
  forall h1 h2 σ, (forall k, pending h1 k = pending h2 k) -> m h1 σ = m h2 σ.

(** With the host [h], a computation that fails fails with [e0]. *)
Definition fails_only_with {R A} (e0 : failure) (h : host) (m : M R A) : Prop :=
  forall σ e σ', m h σ = (inl e, σ') -> e = e0.

(** The identifier made of ten times one character. *)
Definition repeated_id (c : ascii) : string :=
  string_of_list_ascii (replicate length_ids c).

(** A double of the [i]-th of 62 equal parts of [0, 1): about
    (i + 1/2) / 62. *)
Definition draw_for (i : nat) : double :=
  binary_normalize prec emax (Z.of_nat (2 * i + 1) * 2 ^ 60 / 124) (-60) false.

(** A host without interrupts whose random source serves [u] at every
    draw. *)
Definition constant_host (u : double) : host :=
  {| pending := fun _ => false; unif_rand := fun _ => u |}.

(** A single way of [2^31 + 1] nodes, that is of [2^31] edges. *)
Definition long_way : Ways :=
  [(1%Z, {| OneWay.key_val := [];
            OneWay.nodes := replicate (Z.to_nat (2 ^ 31 + 1)) 0%Z |})].

(** A thousand untagged nodes. *)
Definition thousand_nodes : Nodes :=
  replicate 1000 (5%Z, {| Node.lat := of_Z 2; Node.lon := of_Z 1;
                          Node.key_val := [] |}).

(** * Facts *)

Module DoubleFacts.
Import Double.
Local Open Scope Z_scope.

Lemma shr_1_weight x :
  0 <= shr_m x -> 0 <= shr_m (shr_1 x) /\ 2 * weight (shr_1 x) <= weight x.
Proof.
  destruct x as [m r s]; unfold weight; simpl; intros Hm.
  destruct m as [|p|p]; [| destruct p | lia]; simpl; destruct r; simpl; lia.
Qed.

Lemma iter_shr_1_weight p : forall x,
  0 <= shr_m x ->
  0 <= shr_m (SpecFloat.iter_pos shr_1 p x) /\
  weight (SpecFloat.iter_pos shr_1 p x) * 2 ^ Z.pos p <= weight x.
Proof.
  induction p as [p IH|p IH|]; intros x Hx; simpl SpecFloat.iter_pos.
  - destruct (shr_1_weight x Hx) as [H0 H1].
    destruct (IH _ H0) as [H2 H3]. destruct (IH _ H2) as [H4 H5].
    split; [done|].
    replace (Z.pos p~1) with (Z.pos p + Z.pos p + 1) by lia.
    rewrite !Z.pow_add_r by lia. change (2 ^ 1) with 2.
    assert (0 < 2 ^ Z.pos p) by (apply Z.pow_pos_nonneg; lia). nia.
  - destruct (IH _ Hx) as [H2 H3]. destruct (IH _ H2) as [H4 H5].
    split; [done|].
    replace (Z.pos p~0) with (Z.pos p + Z.pos p) by lia.
    rewrite !Z.pow_add_r by lia.
    assert (0 < 2 ^ Z.pos p) by (apply Z.pow_pos_nonneg; lia). nia.
  - destruct (shr_1_weight x Hx) as [H0 H1]. split; [done|].
    change (2 ^ 1) with 2. lia.
Qed.

(** [shr] by [n] places: the exponent grows by [max n 0] and the weight
    shrinks accordingly. *)
Lemma shr_weight x e n :
  0 <= shr_m x ->
  let '(y, e') := shr x e n in
  0 <= shr_m y /\ e' = e + Z.max n 0 /\ weight y * 2 ^ (e' - e) <= weight x.
Proof.
  intros Hx. destruct n as [|p|p]; simpl.
  - split; [done|]. split; [lia|]. rewrite Z.sub_diag. simpl. lia.
  - destruct (iter_shr_1_weight p x Hx) as [H0 H1].
    split; [done|]. split; [lia|].
    replace (e + Z.pos p - e) with (Z.pos p) by lia. done.
  - split; [done|]. split; [lia|]. rewrite Z.sub_diag. simpl. lia.
Qed.

Lemma round_nearest_even_le x :
  0 <= shr_m x ->
  0 <= round_nearest_even (shr_m x) (loc_of_shr_record x) <= shr_m x + Z.b2z (shr_r x).
Proof.
  destruct x as [m [] []]; simpl; intros; try destruct (Z.even m); lia.
Qed.

Lemma digits2_pos_size p : digits2_pos p = Pos.size p.
Proof. induction p; simpl; congruence. Qed.

Lemma digits2_bounds p :
  2 ^ (Z.pos (digits2_pos p) - 1) <= Z.pos p < 2 ^ Z.pos (digits2_pos p).
Proof.
  rewrite digits2_pos_size. split.
  - pose proof (Pos.size_le p) as H.
    assert (Z.pos (2 ^ Pos.size p) <= Z.pos p~0) as H' by lia.
    rewrite Pos2Z.inj_pow in H'.
    replace (Z.pos (Pos.size p)) with (Z.pos (Pos.size p) - 1 + 1) in H' by lia.
    rewrite Z.pow_add_r in H' by lia. lia.
  - pose proof (Pos.size_gt p) as H.
    assert (Z.pos p < Z.pos (2 ^ Pos.size p)) as H' by lia.
    by rewrite Pos2Z.inj_pow in H'.
Qed.

Lemma digits2_le p k : 0 <= k -> Z.pos p < 2 ^ k -> Z.pos (digits2_pos p) <= k.
Proof.
  intros Hk Hp. destruct (digits2_bounds p) as [Hlo _].
  destruct (Z_le_gt_dec (Z.pos (digits2_pos p)) k) as [|Hgt]; [done|].
  assert (2 ^ k <= 2 ^ (Z.pos (digits2_pos p) - 1)) by (apply Z.pow_le_mono_r; lia).
  lia.
Qed.

(** Rounding a positive exact product [mx * 2^ex] to the format: the
    result is [m2 * 2^(ex+a+b)], which exceeds the exact value by at most
    half a unit of the first shift. *)
Lemma binary_round_aux_exact_bound mx ex :
  exists m2 a b,
    0 <= m2 /\ 0 <= b /\
    a = Z.max (fexp prec emax (Z.pos (digits2_pos mx) + ex) - ex) 0 /\
    2 * m2 * 2 ^ (a + b) <= 2 * Z.pos mx + (if a =? 0 then 0 else 2 ^ a) /\
    ex + a + b <=
      Z.max (ex + a) (Z.max (Z.pos (digits2_pos mx) + 1 + (ex + a) - prec) (emin prec emax)) /\
    binary_round_aux prec emax false (Z.pos mx) ex loc_Exact =
      match m2 with
      | Z0 => S754_zero false
      | Z.pos m =>
          if ex + a + b <=? emax - prec then S754_finite false m (ex + a + b)
          else S754_infinity false
      | Z.neg _ => S754_nan
      end.
Proof.
  unfold binary_round_aux, shr_fexp at 1. simpl Zdigits2.
  set (n := fexp prec emax (Z.pos (digits2_pos mx) + ex) - ex).
  set (x0 := shr_record_of_loc (Z.pos mx) loc_Exact).
  assert (0 <= shr_m x0) as Hx0 by (simpl; lia).
  pose proof (shr_weight x0 ex n Hx0) as H1.
  destruct (shr x0 ex n) as [x1 e1] eqn:E1.
  destruct H1 as (Hx1 & He1 & Hw1).
  set (m1 := round_nearest_even (shr_m x1) (loc_of_shr_record x1)).
  pose proof (round_nearest_even_le x1 Hx1) as Hm1. fold m1 in Hm1.
  unfold shr_fexp.
  set (n2 := fexp prec emax (Zdigits2 m1 + e1) - e1).
  set (y0 := shr_record_of_loc m1 loc_Exact).
  assert (0 <= shr_m y0) as Hy0 by (simpl; lia).
  pose proof (shr_weight y0 e1 n2 Hy0) as H2.
  destruct (shr y0 e1 n2) as [x2 e2] eqn:E2.
  destruct H2 as (Hx2 & He2 & Hw2).
  exists (shr_m x2), (Z.max n 0), (Z.max n2 0).
  assert (e1 - ex = Z.max n 0) as Ha by lia.
  assert (e2 - e1 = Z.max n2 0) as Hb by lia.
  rewrite Ha in Hw1. rewrite Hb in Hw2.
  assert (0 < 2 ^ Z.max n 0) as Hpa by (apply Z.pow_pos_nonneg; lia).
  assert (0 < 2 ^ Z.max n2 0) as Hpb by (apply Z.pow_pos_nonneg; lia).
  assert (weight x0 = 2 * Z.pos mx) as Hwx0 by reflexivity.
  assert (weight y0 = 2 * m1) as Hwy0 by (unfold weight; simpl; lia).
  rewrite Hwx0 in Hw1. rewrite Hwy0 in Hw2. unfold weight in Hw1, Hw2.
  assert (0 <= Z.b2z (shr_r x1) <= 1) as Hr1 by (destruct (shr_r x1); simpl; lia).
  assert (0 <= Z.b2z (shr_r x2) <= 1) as Hr2 by (destruct (shr_r x2); simpl; lia).
  split; [done|]. split; [lia|]. split; [done|]. split; [|split].
  - rewrite Z.pow_add_r by lia.
    assert (2 * shr_m x2 * 2 ^ Z.max n2 0 <= 2 * m1) as Hs2 by nia.
    destruct (Z.eqb_spec (Z.max n 0) 0) as [Hz|Hz].
    + (* no first shift: the product is kept exactly *)
      assert (x1 = x0) as ->.
      { destruct n; simpl in E1; try congruence. lia. }
      assert (m1 = Z.pos mx) as Hm1' by reflexivity.
      rewrite Hz in *. change (2 ^ 0) with 1 in *. nia.
    + assert (2 * m1 * 2 ^ Z.max n 0 <= 2 * Z.pos mx + 2 ^ Z.max n 0) by nia.
      nia.
  - (* growth of the exponent in the second shift *)
    assert (m1 <= Z.pos mx + 1) as Hm1P by nia.
    assert (Zdigits2 m1 <= Z.pos (digits2_pos mx) + 1) as Hd.
    { destruct m1 as [|p|p] eqn:Em1; simpl; [lia| |lia].
      apply digits2_le; [lia|].
      destruct (digits2_bounds mx) as [_ Hhi].
      rewrite Z.pow_add_r by lia. change (2 ^ 1) with 2. lia. }
    replace (ex + Z.max n 0) with e1 by lia.
    replace (e1 + Z.max n2 0) with e2 by lia.
    subst n2. unfold fexp in *. lia.
  - replace (ex + Z.max n 0 + Z.max n2 0) with e2 by lia.
    reflexivity.
Qed.

Lemma to_size_t_of_small_Z q : 1 <= q <= 61 -> to_size_t (of_Z q) = Some q.
Proof.
  intros Hq.
  assert (forallb (fun k => match to_size_t (of_Z (Z.of_nat k)) with
                            | Some t => t =? Z.of_nat k
                            | None => false
                            end) (seq 1 61) = true) as Hall by (vm_compute; reflexivity).
  rewrite forallb_forall in Hall.
  assert (In (Z.to_nat q) (seq 1 61)) as Hin by (apply in_seq; lia).
  specialize (Hall _ Hin). rewrite Z2Nat.id in Hall by lia.
  destruct (to_size_t (of_Z q)) as [t|]; [|discriminate].
  f_equal. by apply Z.eqb_eq.
Qed.

(** A valid double in [0, 1) is a zero or [m * 2^e] with [m < 2^(-e)]. *)
Lemma one_eq : one = S754_finite false 4503599627370496 (-52).
Proof. vm_compute. reflexivity. Qed.

Lemma sixty_two_eq : of_Z 62 = S754_finite false 8725724278030336 (-47).
Proof. vm_compute. reflexivity. Qed.

Lemma unit_interval_inv u :
  valid u -> leb zero u = true -> ltb u one = true ->
  (exists s, u = S754_zero s) \/
  (exists m e, u = S754_finite false m e /\ e < 0 /\ -1074 <= e /\
               Z.pos m < 2 ^ 53 /\ Z.pos m < 2 ^ (- e)).
Proof.
  unfold valid, leb, ltb, SFleb, SFltb. rewrite one_eq. intros Hv H0 H1.
  destruct u as [s|s| |s m e].
  - left. by exists s.
  - destruct s; discriminate.
  - discriminate.
  - destruct s; [discriminate|]. right. exists m, e. split; [done|].
    clear H0. cbv [valid_binary bounded canonical_mantissa fexp emin prec emax] in Hv.
    apply andb_prop in Hv as [Hc _]. apply Z.eqb_eq in Hc.
    assert (Z.pos (digits2_pos m) <= 53) as Hd by lia.
    assert (-1074 <= e) as Hmin by lia.
    destruct (digits2_bounds m) as [_ Hhi].
    assert (Z.pos m < 2 ^ 53) as Hm53.
    { eapply Z.lt_le_trans; [exact Hhi|]. apply Z.pow_le_mono_r; lia. }
    cbv [SFcompare] in H1.
    destruct (Z.compare_spec e (-52)) as [He|He|He]; try discriminate.
    + (* same exponent as 1.0: the mantissa is below 2^52 *)
      subst e.
      destruct (Pos.compare_cont Eq m 4503599627370496) eqn:Ec; try discriminate.
      apply Pos2Z.pos_lt_pos in Ec.
      split; [lia|]. split; [done|]. split; [done|]. exact Ec.
    + split; [lia|]. split; [done|]. split; [done|].
      eapply Z.lt_le_trans; [exact Hm53|]. apply Z.pow_le_mono_r; lia.
Qed.

(** The index computed by [randchar] from a uniform draw in [0, 1). *)
Lemma unif_index_in_bounds u :
  valid u -> leb zero u = true -> ltb u one = true ->
  exists i, to_size_t (floor (mul u (of_Z 62))) = Some i /\ 0 <= i < 62.
Proof.
  intros Hv H0 H1.
  destruct (unit_interval_inv u Hv H0 H1) as [[s ->]|(m & e & -> & He & Hmin & Hm53 & Hm)].
  { exists 0. rewrite sixty_two_eq. split; [reflexivity|lia]. }
  rewrite sixty_two_eq.
  unfold mul, SFmul. simpl xorb.
  set (M := 8725724278030336%positive).
  destruct (binary_round_aux_exact_bound (m * M) (e + -47))
    as (m2 & a & b & Hm2 & Hb & Ha & Hval & Hexp & ->).
  assert (Z.pos (m * M) = Z.pos m * 8725724278030336) as HP by (subst M; lia).
  assert (0 < 2 ^ (- e)) as Hpe by (apply Z.pow_pos_nonneg; lia).
  (* size of the product *)
  assert (Z.pos (digits2_pos (m * M)) <= 106) as Hd106.
  { apply digits2_le; [lia|]. rewrite HP.
    change (2 ^ 106) with (2 ^ 53 * 2 ^ 53). change (2 ^ 53) with 9007199254740992 in *.
    nia. }
  assert (Z.pos (digits2_pos (m * M)) <= 53 - e) as Hdsmall.
  { apply digits2_le; [lia|]. rewrite HP.
    replace (53 - e) with (- e + 53) by lia. rewrite Z.pow_add_r by lia.
    change (2 ^ 53) with 9007199254740992. nia. }
  unfold fexp, emin, prec, emax in *.
  assert (0 <= a <= 53) as Ha53 by lia.
  assert (e + -47 + a <= -47) as He1 by lia.
  assert (e + -47 + a + b <= 7) as He2 by lia.
  (* the rounded value stays below 62 *)
  assert (0 < 2 ^ (a + b)) as Hpab by (apply Z.pow_pos_nonneg; lia).
  assert (m2 * 2 ^ (a + b) < 8725724278030336 * 2 ^ (- e)) as Hlt.
  { assert ((if a =? 0 then 0 else 2 ^ a) <= 2 ^ 53) as Hhalf.
    { destruct (a =? 0); [by compute|]. apply Z.pow_le_mono_r; lia. }
    change (2 ^ 53) with 9007199254740992 in Hhalf. nia. }
  destruct m2 as [|p|p]; [|clear Hm2|lia].
  { exists 0. split; [reflexivity|lia]. }
  replace (e + -47 + a + b <=? 1024 - 53) with true by (symmetry; apply Z.leb_le; lia).
  set (c := a + b) in *. set (e2 := e + -47 + a + b).
  assert (e2 = e - 47 + c) as He2c by (subst e2 c; lia).
  assert (2 ^ (47 - e) = 2 ^ 47 * 2 ^ (- e)) as Hsplit.
  { rewrite <- Z.pow_add_r by lia. f_equal; lia. }
  change (2 ^ 47) with 140737488355328 in Hsplit.
  unfold floor.
  destruct (Z.leb_spec 0 e2) as [Hpos|Hneg].
  - (* integral result: the cast returns it *)
    unfold to_size_t.
    replace (0 <=? e2) with true by (symmetry; apply Z.leb_le; lia).
    assert (2 ^ c = 2 ^ e2 * 2 ^ (47 - e)) as Hc.
    { rewrite <- Z.pow_add_r by lia. f_equal; lia. }
    assert (0 < 2 ^ e2) by (apply Z.pow_pos_nonneg; lia).
    assert (Z.pos p * 2 ^ e2 < 62) as H62 by nia.
    replace (Z.pos p * 2 ^ e2 <? 2 ^ 64) with true
      by (symmetry; apply Z.ltb_lt; change (2 ^ 64) with 18446744073709551616; lia).
    eexists; split; [reflexivity|]. nia.
  - assert (0 < 2 ^ (- e2)) as Hpd by (apply Z.pow_pos_nonneg; lia).
    assert (2 ^ (47 - e) = 2 ^ (- e2) * 2 ^ c) as Hc.
    { rewrite <- Z.pow_add_r by lia. f_equal; lia. }
    assert (Z.pos p < 62 * 2 ^ (- e2)) as Hp62 by nia.
    assert (0 <= Z.pos p / 2 ^ (- e2) < 62) as Hq.
    { split; [apply Z.div_pos; lia|]. apply Z.div_lt_upper_bound; lia. }
    destruct (Z.eqb_spec (Z.pos p / 2 ^ (- e2)) 0) as [Hz|Hz].
    + exists 0. split; [reflexivity|lia].
    + exists (Z.pos p / 2 ^ (- e2)). split; [|lia].
      apply to_size_t_of_small_Z. lia.
Qed.
End DoubleFacts.

(** ** Worlds *)

Lemma adv_adv p1 d1 e1 p2 d2 e2 w :
  adv p2 d2 e2 (adv p1 d1 e1 w) = adv (p1 + p2) (d1 + d2) (e1 ++ e2) w.
Proof. unfold adv; simpl. f_equal; [lia|lia|by rewrite app_assoc]. Qed.

Lemma adv_nil w : adv 0 0 [] w = w.
Proof. destruct w; unfold adv; simpl. f_equal; [lia|lia|by rewrite app_nil_r]. Qed.

Lemma log_adv ev w : log ev w = adv 0 0 [ev] w.
Proof. unfold log, adv. f_equal; lia. Qed.

Lemma wrap_int_small z : (0 <= z <= INT_MAX)%Z -> wrap_int z = z.
Proof.
  unfold wrap_int, INT_MAX. intros Hz. rewrite Z.mod_small by lia. lia.
Qed.

(** ** Matrices as columns under construction *)

Section Columns.
Context {A : Type} (dflt : A).

Lemma length_pad n f : length f <= n -> length (pad dflt n f) = n.
Proof. intros. unfold pad. rewrite length_app, length_replicate. lia. Qed.

Lemma pad_full n f : length f = n -> pad dflt n f = f.
Proof. intros <-. unfold pad. by rewrite Nat.sub_diag, app_nil_r. Qed.

Lemma pad_snoc n f v :
  length f < n -> <[length f := v]> (pad dflt n f) = pad dflt n (f ++ [v]).
Proof.
  intros Hlt. unfold pad. rewrite length_app. simpl.
  replace (n - length f) with (S (n - (length f + 1))) by lia. simpl.
  rewrite insert_app_r_alt by lia. rewrite Nat.sub_diag. simpl.
  by rewrite <- app_assoc.
Qed.

Lemma length_concat_uniform n (ls : list (list A)) :
  Forall (fun l => length l = n) ls -> length (concat ls) = n * length ls.
Proof.
  induction 1 as [|l ls Hl _ IH]; simpl; [lia|].
  rewrite length_app, IH, Hl. lia.
Qed.

Lemma insert_concat_uniform n (ls : list (list A)) i j l v :
  Forall (fun l => length l = n) ls -> ls !! j = Some l -> i < n ->
  <[i + n * j := v]> (concat ls) = concat (<[j := <[i := v]> l]> ls).
Proof.
  intros Hall; revert j. induction Hall as [|l0 ls Hl0 _ IH]; intros j Hj Hi.
  - done.
  - destruct j as [|j]; simpl in *.
    + injection Hj as ->. rewrite Nat.mul_0_r, Nat.add_0_r.
      by rewrite insert_app_l by lia.
    + rewrite insert_app_r_alt by lia.
      replace (i + n * S j - length l0) with (i + n * j) by lia.
      by rewrite IH.
Qed.

Lemma column_concat_uniform n (ls : list (list A)) j l :
  Forall (fun l => length l = n) ls -> ls !! j = Some l ->
  take n (drop (n * j) (concat ls)) = l.
Proof.
  intros Hall; revert j. induction Hall as [|l0 ls Hl0 _ IH]; intros j Hj.
  - done.
  - destruct j as [|j]; simpl in *.
    + injection Hj as ->. rewrite Nat.mul_0_r. simpl.
      rewrite drop_0. by rewrite take_app_length' by done.
    + rewrite drop_app_ge by lia.
      replace (n * S j - length l0) with (n * j) by lia. by apply IH.
Qed.

Lemma Forall_pad n fs :
  Forall (fun f => length f <= n) fs ->
  Forall (fun l => length l = n) (pad dflt n <$> fs).
Proof. induction 1; constructor; auto using length_pad. Qed.

Lemma concat_replicate_replicate k n (x : A) :
  concat (replicate k (replicate n x)) = replicate (n * k) x.
Proof.
  induction k as [|k IH]; simpl.
  - by rewrite Nat.mul_0_r.
  - rewrite IH, <- replicate_add. f_equal. lia.
Qed.

Context {R : Type}.

Lemma new_Matrix_run lbl (nr nc : Z) h (st : R * world) :
  (0 <= nr <= INT_MAX)%Z -> (0 <= nc <= INT_MAX)%Z ->
  new_Matrix dflt lbl (Dimension nr nc) h st =
    (inr (pmat dflt lbl (Z.to_nat nr) (replicate (Z.to_nat nc) [])), st).
Proof.
  intros Hr Hc. unfold new_Matrix, Dimension.
  rewrite !wrap_int_small by done. cbn [fst snd].
  replace (nr <? 0)%Z with false by (symmetry; apply Z.ltb_ge; lia).
  replace (nc <? 0)%Z with false by (symmetry; apply Z.ltb_ge; lia).
  simpl. unfold ret, pmat. do 2 f_equal. rewrite length_replicate. f_equal.
  rewrite fmap_replicate. unfold pad. simpl. rewrite Nat.sub_0_r.
  by rewrite concat_replicate_replicate.
Qed.

Lemma store_run lbl n fs i j f v h (s : R) w :
  fs !! j = Some f -> length f = i -> i < n ->
  Forall (fun f => length f <= n) fs ->
  store (pmat dflt lbl n fs) i j v h (s, w) =
    (inr (pmat dflt lbl n (<[j := f ++ [v]]> fs)),
     (s, adv 0 0 [EvStore lbl i j] w)).
Proof.
  intros Hj <- Hlt Hall. unfold store. simpl.
  pose proof (Forall_pad n fs Hall) as Hpad.
  rewrite (length_concat_uniform n) by done. rewrite length_fmap.
  apply lookup_lt_Some in Hj as Hjlt.
  destruct (Nat.ltb_spec (length f + n * j) (n * length fs)) as [_|Hge]; [|nia].
  unfold bind, emit, ret. simpl. rewrite log_adv. do 2 f_equal.
  unfold pmat. rewrite length_insert. f_equal.
  rewrite (insert_concat_uniform n _ _ _ (pad dflt n f)); [|done| |done].
  - by rewrite pad_snoc, list_fmap_insert.
  - by rewrite list_lookup_fmap, Hj.
Qed.

Lemma column_pmat lbl n fs j f :
  Forall (fun f => length f <= n) fs -> fs !! j = Some f -> length f = n ->
  column (pmat dflt lbl n fs) j = f.
Proof.
  intros Hall Hj Hn. unfold column. simpl.
  rewrite (column_concat_uniform n _ _ (pad dflt n f)).
  - by apply pad_full.
  - by apply Forall_pad.
  - by rewrite list_lookup_fmap, Hj.
Qed.

Lemma column3_0 lbl n f0 f1 f2 :
  length f0 = n -> length f1 <= n -> length f2 <= n ->
  column (pmat dflt lbl n [f0; f1; f2]) 0 = f0.
Proof. intros. apply column_pmat; [repeat constructor; lia|done|done]. Qed.

Lemma column3_1 lbl n f0 f1 f2 :
  length f0 <= n -> length f1 = n -> length f2 <= n ->
  column (pmat dflt lbl n [f0; f1; f2]) 1 = f1.
Proof. intros. apply column_pmat; [repeat constructor; lia|done|done]. Qed.

Lemma column3_2 lbl n f0 f1 f2 :
  length f0 <= n -> length f1 <= n -> length f2 = n ->
  column (pmat dflt lbl n [f0; f1; f2]) 2 = f2.
Proof. intros. apply column_pmat; [repeat constructor; lia|done|done]. Qed.

Lemma column2_0 lbl n f0 f1 :
  length f0 = n -> length f1 <= n -> column (pmat dflt lbl n [f0; f1]) 0 = f0.
Proof. intros. apply column_pmat; [repeat constructor; lia|done|done]. Qed.

Lemma column2_1 lbl n f0 f1 :
  length f0 <= n -> length f1 = n -> column (pmat dflt lbl n [f0; f1]) 1 = f1.
Proof. intros. apply column_pmat; [repeat constructor; lia|done|done]. Qed.

Lemma column1_0 lbl n f0 :
  length f0 = n -> column (pmat dflt lbl n [f0]) 0 = f0.
Proof. intros. apply column_pmat; [repeat constructor; lia|done|done]. Qed.
End Columns.

Lemma bind_inr {R A B} (m : M R A) (f : A -> M R B) h st a st' :
  m h st = (inr a, st') -> bind m f h st = f a h st'.
Proof. unfold bind. by intros ->. Qed.

Lemma bind_inl {R A B} (m : M R A) (f : A -> M R B) h st e st' :
  m h st = (inl e, st') -> bind m f h st = (inl e, st').
Proof. unfold bind. by intros ->. Qed.

(** Discharge the side conditions of [store_run] on explicit columns. *)
Ltac columns_ok :=
  first [ reflexivity | lia
        | repeat constructor; rewrite ?length_app; simpl; lia ].

Ltac run_store :=
  erewrite bind_inr; [| eapply store_run; columns_ok]; cbn [list_insert insert].

(** ** Filling a key-value matrix *)

Lemma rows_events_S lbl k n :
  rows_events lbl k (S n) = row_events lbl k ++ rows_events lbl (S k) n.
Proof. reflexivity. Qed.

Lemma store_key_val_run {R} lbl n obj kv f0 f1 f2 h (s : R) w :
  length f1 = length f0 -> length f2 = length f0 -> length f0 < n ->
  store_key_val obj kv (pmat EmptyString lbl n [f0; f1; f2], length f0) h (s, w) =
    (inr (pmat EmptyString lbl n
            [f0 ++ [to_string obj]; f1 ++ [fst kv]; f2 ++ [snd kv]],
          S (length f0)),
     (s, adv 0 0 (row_events lbl (length f0)) w)).
Proof.
  intros H1 H2 Hn. unfold store_key_val. do 3 run_store.
  unfold ret. by rewrite !adv_adv.
Qed.

Lemma store_key_vals_run {R} lbl n obj kvs : forall f0 f1 f2 h (s : R) w,
  length f1 = length f0 -> length f2 = length f0 ->
  length f0 + length kvs <= n ->
  for_each kvs (store_key_val obj) (pmat EmptyString lbl n [f0; f1; f2], length f0) h (s, w) =
    (inr (pmat EmptyString lbl n
            [f0 ++ ((fun _ => to_string obj) <$> kvs);
             f1 ++ (fst <$> kvs); f2 ++ (snd <$> kvs)],
          length f0 + length kvs),
     (s, adv 0 0 (rows_events lbl (length f0) (length kvs)) w)).
Proof.
  induction kvs as [|kv kvs IH]; intros f0 f1 f2 h s w H1 H2 Hn; simpl in *.
  - unfold ret. rewrite !app_nil_r, Nat.add_0_r, adv_nil. done.
  - erewrite bind_inr by (apply store_key_val_run; lia).
    replace (S (length f0)) with (length (f0 ++ [to_string obj]))
      by (rewrite length_app; simpl; lia).
    rewrite IH by (rewrite ?length_app in *; simpl; lia).
    rewrite adv_adv, <- !app_assoc, length_app. simpl.
    do 3 f_equal; [lia|]. by rewrite rows_events_S, Nat.add_1_r.
Qed.

(** ** random_id *)

Lemma alphanumericb_true c : alphanumericb c = true -> alphanumeric c.
Proof.
  unfold alphanumericb, alphanumeric. cbv zeta.
  rewrite !orb_true_iff, !andb_true_iff, !Nat.leb_le. tauto.
Qed.

Lemma max_index_eq : max_index = 62%Z.
Proof. reflexivity. Qed.

Lemma charset_alphanumeric i :
  i < 62 -> exists c, charset !! i = Some c /\ alphanumeric c.
Proof.
  intros Hi.
  assert (Forall alphanumeric (take 62 charset)) as Hall.
  { apply Forall_forall. intros c Hc. apply alphanumericb_true.
    assert (forallb alphanumericb (take 62 charset) = true) as Hb by reflexivity.
    rewrite forallb_forall in Hb. by apply Hb, list_elem_of_In. }
  destruct (lookup_lt_is_Some_2 (take 62 charset) i) as [c Hc]; [simpl; lia|].
  exists c. split.
  - by rewrite lookup_take_lt in Hc by done.
  - eapply Forall_lookup_1; eauto.
Qed.

Lemma char_of_draw_spec u :
  unit_interval u ->
  exists i, to_size_t (floor (mul u (of_Z max_index))) = Some i /\
            (0 <= i < 62)%Z /\
            charset !! Z.to_nat i = Some (char_of_draw u) /\
            alphanumeric (char_of_draw u).
Proof.
  intros (Hv & H0 & H1). rewrite max_index_eq.
  destruct (DoubleFacts.unif_index_in_bounds u Hv H0 H1) as (i & Hi & Hr).
  destruct (charset_alphanumeric (Z.to_nat i)) as (c & Hc & Ha); [lia|].
  exists i. unfold char_of_draw. rewrite max_index_eq, Hi, Hc. simpl. auto.
Qed.

Section RandomId.
Context {R : Type} (h : host) (Hunif : uniform_source h).

Lemma randchar_run (s : R) w :
  randchar h (s, w) =
    (inr (char_of_draw (unif_rand h (draws w))), (s, adv 0 1 [EvDraw] w)).
Proof.
  destruct (char_of_draw_spec _ (Hunif (draws w))) as (i & Hi & _ & Hc & _).
  unfold randchar, bind, runif1. cbn [fst snd]. rewrite Hi, Hc.
  unfold ret, adv. do 3 f_equal; lia.
Qed.

Lemma chars_of_draws_S d len :
  chars_of_draws h d (S len) =
    char_of_draw (unif_rand h d) :: chars_of_draws h (d + 1) len.
Proof.
  unfold chars_of_draws. simpl. rewrite Nat.add_0_r. f_equal.
  rewrite <- fmap_S_seq, <- list_fmap_compose.
  apply list_fmap_ext. intros _ j _. simpl. do 2 f_equal. lia.
Qed.

Lemma generate_n_run len : forall (s : R) w,
  generate_n len randchar h (s, w) =
    (inr (chars_of_draws h (draws w) len),
     (s, adv 0 len (replicate len EvDraw) w)).
Proof.
  induction len as [|len IH]; intros s w; simpl generate_n.
  - unfold ret. by rewrite adv_nil.
  - erewrite bind_inr by apply randchar_run.
    erewrite bind_inr by apply IH.
    unfold ret. rewrite adv_adv, chars_of_draws_S. reflexivity.
Qed.

Lemma random_id_run len (s : R) w :
  random_id len h (s, w) =
    (inr (string_of_list_ascii (chars_of_draws h (draws w) len)),
     (s, adv 0 len (replicate len EvDraw) w)).
Proof.
  unfold random_id. erewrite bind_inr by apply generate_n_run. reflexivity.
Qed.

Lemma chars_of_draws_alphanumeric d len :
  length (chars_of_draws h d len) = len /\
  Forall alphanumeric (chars_of_draws h d len).
Proof.
  unfold chars_of_draws. rewrite length_fmap, length_seq. split; [done|].
  apply Forall_fmap, Forall_forall. intros j _. simpl.
  by destruct (char_of_draw_spec _ (Hunif (d + j))) as (i & _ & _ & _ & Ha).
Qed.
End RandomId.

(** ** The way flattener *)

Lemma length_consecutive_pairs {A} (l : list A) :
  length (consecutive_pairs l) = length l - 1.
Proof.
  induction l as [|a [|b l] IH]; simpl in *; [done|done|]. rewrite IH. lia.
Qed.

Lemma ids_from_S h d n :
  ids_from h d (S n) = id_of_draws h d :: ids_from h (d + length_ids) n.
Proof.
  unfold ids_from. simpl. rewrite Nat.add_0_r. f_equal.
  rewrite <- fmap_S_seq, <- list_fmap_compose.
  apply list_fmap_ext. intros _ i _. simpl. f_equal. unfold length_ids. lia.
Qed.

Lemma ids_from_add h d n m :
  ids_from h d (n + m) = ids_from h d n ++ ids_from h (d + length_ids * n) m.
Proof.
  revert d. induction n as [|n IH]; intros d.
  - simpl. rewrite ?Nat.mul_0_r, ?Nat.add_0_r. done.
  - simpl Nat.add. rewrite !ids_from_S, IH. simpl. do 3 f_equal.
    unfold length_ids. lia.
Qed.

Lemma length_ids_from h d n : length (ids_from h d n) = n.
Proof. unfold ids_from. by rewrite length_fmap, length_seq. Qed.

Section WayEdges.
Context (h : host) (Hunif : uniform_source h).
Context (le lo : string) (n : nat) (way : osmid_t).

Lemma store_edge_run wj wj_next e0 e1 e2 o0 o1 s w :
  length e1 = length e0 -> length e2 = length e0 ->
  length o0 = length e0 -> length o1 = length e0 -> length e0 < n ->
  store_edge way wj wj_next
    (pmat EmptyString le n [e0; e1; e2], pmat EmptyString lo n [o0; o1], length e0)
    h (s, w) =
  (inr (pmat EmptyString le n
          [e0 ++ [to_string wj]; e1 ++ [to_string wj_next];
           e2 ++ [id_of_draws h (draws w)]],
        pmat EmptyString lo n
          [o0 ++ [id_of_draws h (draws w)]; o1 ++ [to_string way]],
        S (length e0)),
   (s, adv 0 length_ids (edge_events le lo (length e0)) w)).
Proof.
  intros H1 H2 H3 H4 Hn. unfold store_edge. do 2 run_store.
  erewrite bind_inr by (by apply random_id_run).
  do 3 run_store. unfold ret, id_of_draws, edge_events.
  rewrite !adv_adv. cbn [draws adv Nat.add]. rewrite !Nat.add_0_r.
  reflexivity.
Qed.

Lemma way_edges_run nodes : forall e0 e1 e2 o0 o1 s w,
  length e1 = length e0 -> length e2 = length e0 ->
  length o0 = length e0 -> length o1 = length e0 ->
  length e0 + (length nodes - 1) <= n ->
  let P := consecutive_pairs nodes in
  way_edges way nodes
    (pmat EmptyString le n [e0; e1; e2], pmat EmptyString lo n [o0; o1], length e0)
    h (s, w) =
  (inr (pmat EmptyString le n
          [e0 ++ (to_string ∘ fst <$> P); e1 ++ (to_string ∘ snd <$> P);
           e2 ++ ids_from h (draws w) (length P)],
        pmat EmptyString lo n
          [o0 ++ ids_from h (draws w) (length P);
           o1 ++ replicate (length P) (to_string way)],
        length e0 + length P),
   (s, adv 0 (length_ids * length P) (edges_events le lo (length e0) (length P)) w)).
Proof.
  induction nodes as [|a [|b rest] IH]; intros e0 e1 e2 o0 o1 s w H1 H2 H3 H4 Hn.
  - simpl. unfold ret. by rewrite !app_nil_r, Nat.add_0_r, adv_nil.
  - simpl. unfold ret. by rewrite !app_nil_r, Nat.add_0_r, adv_nil.
  - specialize (IH (e0 ++ [to_string a]) (e1 ++ [to_string b])
                   (e2 ++ [id_of_draws h (draws w)])
                   (o0 ++ [id_of_draws h (draws w)]) (o1 ++ [to_string way])).
    cbn zeta in *. change (consecutive_pairs (a :: b :: rest))
      with ((a, b) :: consecutive_pairs (b :: rest)).
    set (P := consecutive_pairs (b :: rest)) in *.
    change (way_edges way (a :: b :: rest)) with
      (fun st => bind (store_edge way a b st) (way_edges way (b :: rest))).
    cbv beta. simpl length in Hn.
    erewrite bind_inr by (apply store_edge_run; lia).
    replace (S (length e0)) with (length (e0 ++ [to_string a]))
      by (rewrite length_app; simpl; lia).
    rewrite IH by (rewrite ?length_app; simpl; lia).
    rewrite adv_adv, length_app. cbn [length fmap list_fmap].
    rewrite ids_from_S, <- !app_assoc. cbn [app replicate].
    replace (draws (adv 0 length_ids (edge_events le lo (length e0)) w))
      with (draws w + length_ids) by reflexivity.
    f_equal; [do 2 f_equal; lia|]. f_equal.
    unfold adv, edges_events. cbn [fmap list_fmap seq concat].
    rewrite Nat.add_1_r. f_equal. unfold length_ids. lia.
Qed.
End WayEdges.

Lemma length_concat_fmap {A B} (f : A -> list B) (g : A -> nat) (l : list A) :
  (forall x, length (f x) = g x) ->
  length (concat (f <$> l)) = sum_list (g <$> l).
Proof.
  intros Hfg. induction l as [|x l IH]; [done|].
  cbn [fmap list_fmap concat sum_list]. change (list_fmap A (list B) f l) with (f <$> l).
  change (list_fmap A nat g l) with (g <$> l).
  by rewrite length_app, Hfg, IH.
Qed.

Lemma length_kv_objects t : length (kv_objects t) = kv_total t.
Proof. apply length_concat_fmap. intros x. by rewrite length_fmap. Qed.
Lemma length_kv_keys t : length (kv_keys t) = kv_total t.
Proof. apply length_concat_fmap. intros x. by rewrite length_fmap. Qed.
Lemma length_kv_values t : length (kv_values t) = kv_total t.
Proof. apply length_concat_fmap. intros x. by rewrite length_fmap. Qed.

Lemma length_edge_pairs ways : length (edge_pairs ways) = edge_total ways.
Proof. apply length_concat_fmap. intros x. apply length_consecutive_pairs. Qed.
Lemma length_edge_owners ways : length (edge_owners ways) = edge_total ways.
Proof. apply length_concat_fmap. intros x. apply length_replicate. Qed.

Lemma kv_total_cons x t : kv_total (x :: t) = length (snd x) + kv_total t.
Proof. reflexivity. Qed.
Lemma kv_objects_cons x t :
  kv_objects (x :: t) = ((fun _ => to_string (fst x)) <$> snd x) ++ kv_objects t.
Proof. reflexivity. Qed.
Lemma kv_keys_cons x t : kv_keys (x :: t) = (fst <$> snd x) ++ kv_keys t.
Proof. reflexivity. Qed.
Lemma kv_values_cons x t : kv_values (x :: t) = (snd <$> snd x) ++ kv_values t.
Proof. reflexivity. Qed.
Lemma way_tags_cons wi ways :
  way_tags (wi :: ways) = (fst wi, OneWay.key_val (snd wi)) :: way_tags ways.
Proof. reflexivity. Qed.
Lemma edge_total_cons wi ways :
  edge_total (wi :: ways) = length (OneWay.nodes (snd wi)) - 1 + edge_total ways.
Proof. reflexivity. Qed.
Lemma edge_pairs_cons wi ways :
  edge_pairs (wi :: ways) =
    consecutive_pairs (OneWay.nodes (snd wi)) ++ edge_pairs ways.
Proof. reflexivity. Qed.
Lemma edge_owners_cons wi ways :
  edge_owners (wi :: ways) =
    replicate (length (OneWay.nodes (snd wi)) - 1) (to_string (fst wi)) ++
    edge_owners ways.
Proof. reflexivity. Qed.

Lemma checkUserInterrupt_run {R} h (s : R) w :
  pending h (polls w) = false ->
  checkUserInterrupt h (s, w) = (inr tt, (s, adv 1 0 [EvPoll] w)).
Proof.
  intros Hp. unfold checkUserInterrupt. cbn [fst snd]. rewrite Hp.
  unfold adv. do 3 f_equal; lia.
Qed.

Section WaysLoop.
Context (h : host) (Hquiet : never_interrupts h) (Hunif : uniform_source h).
Context (le lo lk : string) (n m : nat).

Lemma ways_body_run wi e0 e1 e2 o0 o1 k0 k1 k2 s w :
  length e1 = length e0 -> length e2 = length e0 ->
  length o0 = length e0 -> length o1 = length e0 ->
  length k1 = length k0 -> length k2 = length k0 ->
  let P := consecutive_pairs (OneWay.nodes (snd wi)) in
  let kvs := OneWay.key_val (snd wi) in
  length e0 + length P <= n -> length k0 + length kvs <= m ->
  ways_body wi
    ((pmat EmptyString le n [e0; e1; e2], pmat EmptyString lo n [o0; o1], length e0),
     (pmat EmptyString lk m [k0; k1; k2], length k0)) h (s, w) =
  (inr ((pmat EmptyString le n
           [e0 ++ (to_string ∘ fst <$> P); e1 ++ (to_string ∘ snd <$> P);
            e2 ++ ids_from h (draws w) (length P)],
         pmat EmptyString lo n
           [o0 ++ ids_from h (draws w) (length P);
            o1 ++ replicate (length P) (to_string (fst wi))],
         length e0 + length P),
        (pmat EmptyString lk m
           [k0 ++ ((fun _ => to_string (fst wi)) <$> kvs);
            k1 ++ (fst <$> kvs); k2 ++ (snd <$> kvs)],
         length k0 + length kvs)),
   (s, adv 1 (length_ids * length P)
         ([EvPoll] ++ edges_events le lo (length e0) (length P) ++
          rows_events lk (length k0) (length kvs)) w)).
Proof.
  intros H1 H2 H3 H4 H5 H6 P kvs Hn Hm. unfold ways_body.
  erewrite bind_inr by (apply checkUserInterrupt_run, Hquiet).
  subst P. rewrite length_consecutive_pairs in Hn.
  erewrite bind_inr by (by apply way_edges_run).
  erewrite bind_inr by (by apply store_key_vals_run).
  unfold ret. rewrite !adv_adv. cbn [draws adv Nat.add].
  rewrite !Nat.add_0_r. reflexivity.
Qed.

Lemma ways_loop_run ways : forall e0 e1 e2 o0 o1 k0 k1 k2 s w,
  length e1 = length e0 -> length e2 = length e0 ->
  length o0 = length e0 -> length o1 = length e0 ->
  length k1 = length k0 -> length k2 = length k0 ->
  length e0 + edge_total ways <= n ->
  length k0 + kv_total (way_tags ways) <= m ->
  for_each ways ways_body
    ((pmat EmptyString le n [e0; e1; e2], pmat EmptyString lo n [o0; o1], length e0),
     (pmat EmptyString lk m [k0; k1; k2], length k0)) h (s, w) =
  (inr ((pmat EmptyString le n
           [e0 ++ (to_string ∘ fst <$> edge_pairs ways);
            e1 ++ (to_string ∘ snd <$> edge_pairs ways);
            e2 ++ ids_from h (draws w) (edge_total ways)],
         pmat EmptyString lo n
           [o0 ++ ids_from h (draws w) (edge_total ways);
            o1 ++ edge_owners ways],
         length e0 + edge_total ways),
        (pmat EmptyString lk m
           [k0 ++ kv_objects (way_tags ways); k1 ++ kv_keys (way_tags ways);
            k2 ++ kv_values (way_tags ways)],
         length k0 + kv_total (way_tags ways))),
   (s, adv (length ways) (length_ids * edge_total ways)
         (ways_events le lo lk (length e0) (length k0) ways) w)).
Proof.
  induction ways as [|wi ways IH];
    intros e0 e1 e2 o0 o1 k0 k1 k2 s w H1 H2 H3 H4 H5 H6 Hn Hm.
  - simpl. unfold ret. by rewrite !app_nil_r, !Nat.add_0_r, adv_nil.
  - rewrite edge_total_cons in Hn. rewrite way_tags_cons, kv_total_cons in Hm.
    cbn [fst snd] in Hm. cbn [for_each].
    erewrite bind_inr
      by (apply ways_body_run; rewrite ?length_consecutive_pairs; lia).
    set (P := consecutive_pairs (OneWay.nodes (snd wi))).
    set (kvs := OneWay.key_val (snd wi)) in *.
    assert (length P = length (OneWay.nodes (snd wi)) - 1) as HP
      by apply length_consecutive_pairs.
    rewrite <- HP in Hn.
    replace (length e0 + length P)
      with (length (e0 ++ (to_string ∘ fst <$> P)))
      by (by rewrite length_app, length_fmap).
    replace (length k0 + length kvs)
      with (length (k0 ++ ((fun _ => to_string (fst wi)) <$> kvs)))
      by (by rewrite length_app, length_fmap).
    rewrite IH;
      rewrite ?length_app, ?length_fmap, ?length_ids_from, ?length_replicate.
    all: try lia.
    rewrite adv_adv, <- !app_assoc. cbn [draws adv].
    rewrite edge_total_cons, way_tags_cons, kv_total_cons, <- HP.
    rewrite edge_pairs_cons, edge_owners_cons, <- HP.
    rewrite kv_objects_cons, kv_keys_cons, kv_values_cons.
    cbn [fst snd ways_events length]. fold P kvs.
    rewrite ids_from_add, !fmap_app, <- ?HP, <- ?app_assoc.
    rewrite <- !Nat.add_assoc, <- Nat.mul_add_distr_l. reflexivity.
Qed.
End WaysLoop.

Lemma recycle_columns_same nr cols :
  Forall (fun nc => column_length (snd nc) = nr) cols ->
  recycle_columns nr cols = Some cols.
Proof.
  induction 1 as [|[name c] rest Hc _ IH]; [done|].
  cbn [recycle_columns]. rewrite IH. cbn [snd] in Hc.
  destruct c as [l|l]; cbn [recycle_column column_length] in *;
    unfold recycle; by rewrite Hc, Nat.eqb_refl.
Qed.

Lemma max_list_same (n : nat) (l : list nat) :
  Forall (fun x => x = n) l -> max_list (n :: l) = n.
Proof.
  induction 1 as [|x l -> _ IH]; simpl in *; lia.
Qed.

(** Recycling at work: a column of one cell beside a column of two is
    repeated; a column of two beside a column of three is refused. *)
Lemma DataFrame_create_recycles {R} (a b c : string) h (st : R * world) :
  DataFrame_create [("p", CharacterColumn [a; b]); ("q", CharacterColumn [c])]%string
    h st =
    (inr {| df_columns := [("p", CharacterColumn [a; b]);
                           ("q", CharacterColumn [c; c])]%string |}, st) /\
  DataFrame_create [("p", CharacterColumn [a; b; c]); ("q", CharacterColumn [a; b])]%string
    h st = (inl DifferingRows, st).
Proof. by split. Qed.

Lemma DataFrame_create_run {R} name c rest h (st : R * world) :
  Forall (fun nc => column_length (snd nc) = column_length c) rest ->
  DataFrame_create ((name, c) :: rest) h st =
    (inr {| df_columns := (name, c) :: rest |}, st).
Proof.
  intros Hall. unfold DataFrame_create. cbn [fmap list_fmap compose snd].
  rewrite max_list_same by (by apply Forall_fmap).
  rewrite recycle_columns_same; [done|]. by constructor.
Qed.

Lemma ways_count_from ways : forall a b : Z,
  (0 <= a)%Z -> (0 <= b)%Z ->
  (a + Z.of_nat (edge_total ways) <= INT_MAX)%Z ->
  (b + Z.of_nat (kv_total (way_tags ways)) <= INT_MAX)%Z ->
  fold_left (fun '(nedges, nkv) (wi : osmid_t * OneWay.t) =>
               let n := Z.of_nat (length (OneWay.nodes (snd wi))) in
               ((if (0 <? n)%Z then wrap_int (nedges + (n - 1)) else nedges),
                wrap_int (nkv + Z.of_nat (length (OneWay.key_val (snd wi))))))
            ways (a, b) =
    ((a + Z.of_nat (edge_total ways))%Z,
     (b + Z.of_nat (kv_total (way_tags ways)))%Z).
Proof.
  induction ways as [|wi ways IH]; intros a b Ha Hb HE HK.
  - unfold edge_total, kv_total, way_tags. simpl. f_equal; lia.
  - rewrite edge_total_cons in *. rewrite way_tags_cons, kv_total_cons in *.
    cbn [fst snd] in *. cbn [fold_left].
    set (n := length (OneWay.nodes (snd wi))) in *.
    set (k := length (OneWay.key_val (snd wi))) in *. clearbody n k.
    assert ((if (0 <? Z.of_nat n)%Z then wrap_int (a + (Z.of_nat n - 1)) else a)
            = (a + Z.of_nat (n - 1))%Z) as ->.
    { destruct (Z.ltb_spec 0 (Z.of_nat n)).
      - rewrite wrap_int_small by lia. lia.
      - lia. }
    rewrite (wrap_int_small (b + Z.of_nat k)) by lia.
    rewrite IH by lia. f_equal; lia.
Qed.

Lemma ways_count_small ways :
  (Z.of_nat (edge_total ways) <= INT_MAX)%Z ->
  (Z.of_nat (kv_total (way_tags ways)) <= INT_MAX)%Z ->
  ways_count ways =
    (Z.of_nat (edge_total ways), Z.of_nat (kv_total (way_tags ways))).
Proof. intros. unfold ways_count. by rewrite ways_count_from by lia. Qed.

Section WaysRun.
Context (h : host) (Hquiet : never_interrupts h) (Hunif : uniform_source h).
Context (ways : Ways).
Context (HE : (Z.of_nat (edge_total ways) <= INT_MAX)%Z).
Context (HK : (Z.of_nat (kv_total (way_tags ways)) <= INT_MAX)%Z).

Lemma ways_fill_run s w :
  ways_fill ways h (s, w) =
  (inr ((pmat EmptyString "edge_mat" (edge_total ways)
           [to_string ∘ fst <$> edge_pairs ways;
            to_string ∘ snd <$> edge_pairs ways;
            ids_from h (draws w) (edge_total ways)],
         pmat EmptyString "object_link_edge_mat" (edge_total ways)
           [ids_from h (draws w) (edge_total ways); edge_owners ways],
         (edge_total ways)),
        (pmat EmptyString "kv_mat" (kv_total (way_tags ways))
           [kv_objects (way_tags ways); kv_keys (way_tags ways);
            kv_values (way_tags ways)],
         (kv_total (way_tags ways)))),
   (s, adv (length ways) (length_ids * (edge_total ways))
         (ways_events "edge_mat" "object_link_edge_mat" "kv_mat" 0 0 ways) w)).
Proof.
  unfold ways_fill. rewrite ways_count_small by done.
  unfold new_CharacterMatrix.
  erewrite bind_inr by (apply new_Matrix_run; unfold INT_MAX in *; lia).
  erewrite bind_inr by (apply new_Matrix_run; unfold INT_MAX in *; lia).
  erewrite bind_inr by (apply new_Matrix_run; unfold INT_MAX in *; lia).
  rewrite !Nat2Z.id.
  change (replicate (Z.to_nat 3) []) with [@nil string; []; []].
  change (replicate (Z.to_nat 2) []) with [@nil string; []].
  exact (ways_loop_run h Hquiet Hunif _ _ _ (edge_total ways) (kv_total (way_tags ways)) ways [] [] [] [] [] [] [] []
           s w eq_refl eq_refl eq_refl eq_refl eq_refl eq_refl
           (Nat.le_refl _) (Nat.le_refl _)).
Qed.

Lemma get_osm_ways_run s w :
  get_osm_ways ways h (s, w) =
  (inr tt,
   (ways_tables h ways (draws w),
    adv (length ways) (length_ids * (edge_total ways))
      (ways_events "edge_mat" "object_link_edge_mat" "kv_mat" 0 0 ways) w)).
Proof.
  unfold get_osm_ways. erewrite bind_inr by apply ways_fill_run.
  cbv beta iota.
  assert (length (to_string ∘ fst <$> edge_pairs ways) = (edge_total ways)) as L0
    by (by rewrite length_fmap, length_edge_pairs).
  assert (length (to_string ∘ snd <$> edge_pairs ways) = (edge_total ways)) as L1
    by (by rewrite length_fmap, length_edge_pairs).
  pose proof (length_ids_from h (draws w) (edge_total ways)) as L2.
  pose proof (length_edge_owners ways) as L3.
  pose proof (length_kv_objects (way_tags ways)) as L4.
  pose proof (length_kv_keys (way_tags ways)) as L5.
  pose proof (length_kv_values (way_tags ways)) as L6.
  rewrite !column3_0, !column3_1, !column3_2, !column2_0, !column2_1 by lia.
  unfold Named.
  erewrite bind_inr
    by (apply DataFrame_create_run; repeat constructor; simpl; lia).
  unfold assign at 1. unfold bind at 1. cbn [fst snd].
  erewrite bind_inr
    by (apply DataFrame_create_run; repeat constructor; simpl; lia).
  unfold assign at 1. unfold bind at 1. cbn [fst snd].
  erewrite bind_inr
    by (apply DataFrame_create_run; repeat constructor; simpl; lia).
  reflexivity.
Qed.
End WaysRun.

(** ** The node flattener *)

Lemma node_tags_cons ni nodes :
  node_tags (ni :: nodes) = (fst ni, Node.key_val (snd ni)) :: node_tags nodes.
Proof. reflexivity. Qed.

Section NodesLoop.
Context (h : host) (Hquiet : never_interrupts h).
Context (li lm lk : string) (n m : nat).

Lemma nodes_body_run ni v x y k0 k1 k2 s w :
  length x = length v -> length y = length v ->
  length k1 = length k0 -> length k2 = length k0 ->
  let kvs := Node.key_val (snd ni) in
  length v < n -> length k0 + length kvs <= m ->
  nodes_body ni
    ((pmat EmptyString li n [v], pmat zero lm n [x; y], length v),
     (pmat EmptyString lk m [k0; k1; k2], length k0)) h (s, w) =
  (inr ((pmat EmptyString li n [v ++ [to_string (fst ni)]],
         pmat zero lm n [x ++ [Node.lon (snd ni)]; y ++ [Node.lat (snd ni)]],
         S (length v)),
        (pmat EmptyString lk m
           [k0 ++ ((fun _ => to_string (fst ni)) <$> kvs);
            k1 ++ (fst <$> kvs); k2 ++ (snd <$> kvs)],
         length k0 + length kvs)),
   (s, adv (length (poll_before (length v))) 0
         (poll_before (length v) ++
          node_stores li lm lk (length v) (length k0) ni) w)).
Proof.
  intros H1 H2 H3 H4 kvs Hn Hm. unfold nodes_body, poll_before, node_stores.
  erewrite (bind_inr _ _ _ _ tt
              (s, adv (length (poll_before (length v))) 0 (poll_before (length v)) w)).
  2:{ unfold poll_before. destruct (length v mod 1000 =? 0).
      - apply checkUserInterrupt_run, Hquiet.
      - unfold ret. by rewrite adv_nil. }
  do 3 run_store.
  erewrite bind_inr by (by apply store_key_vals_run).
  unfold ret. rewrite !adv_adv. unfold poll_before.
  rewrite ?Nat.add_0_r, <- ?app_assoc. reflexivity.
Qed.

Lemma nodes_loop_run nodes : forall v x y k0 k1 k2 s w,
  length x = length v -> length y = length v ->
  length k1 = length k0 -> length k2 = length k0 ->
  length v + length nodes <= n ->
  length k0 + kv_total (node_tags nodes) <= m ->
  for_each nodes nodes_body
    ((pmat EmptyString li n [v], pmat zero lm n [x; y], length v),
     (pmat EmptyString lk m [k0; k1; k2], length k0)) h (s, w) =
  (inr ((pmat EmptyString li n [v ++ (to_string ∘ fst <$> nodes)],
         pmat zero lm n [x ++ (Node.lon ∘ snd <$> nodes);
                         y ++ (Node.lat ∘ snd <$> nodes)],
         length v + length nodes),
        (pmat EmptyString lk m
           [k0 ++ kv_objects (node_tags nodes); k1 ++ kv_keys (node_tags nodes);
            k2 ++ kv_values (node_tags nodes)],
         length k0 + kv_total (node_tags nodes))),
   (s, adv (polls_from (length v) (length nodes)) 0
         (nodes_events li lm lk (length v) (length k0) nodes) w)).
Proof.
  induction nodes as [|ni nodes IH]; intros v x y k0 k1 k2 s w H1 H2 H3 H4 Hn Hm.
  - simpl. unfold ret. by rewrite !app_nil_r, !Nat.add_0_r, adv_nil.
  - rewrite node_tags_cons, kv_total_cons in Hm. cbn [fst snd length] in Hm, Hn.
    cbn [for_each].
    erewrite bind_inr by (apply nodes_body_run; lia).
    set (kvs := Node.key_val (snd ni)) in *.
    replace (S (length v)) with (length (v ++ [to_string (fst ni)]))
      by (rewrite length_app; simpl; lia).
    replace (length k0 + length kvs)
      with (length (k0 ++ ((fun _ => to_string (fst ni)) <$> kvs)))
      by (by rewrite length_app, length_fmap).
    rewrite IH; rewrite ?length_app, ?length_fmap; cbn [length]; try lia.
    rewrite adv_adv, <- ?app_assoc.
    rewrite node_tags_cons, kv_total_cons, kv_objects_cons, kv_keys_cons,
      kv_values_cons.
    cbn [fst snd nodes_events polls_from length fmap list_fmap app].
    fold kvs. rewrite <- ?app_assoc, !Nat.add_1_r.
    replace (length v + S (length nodes)) with (S (length v) + length nodes) by lia.
    rewrite <- !Nat.add_assoc. reflexivity.
Qed.
End NodesLoop.

Lemma nodes_count_from nodes : forall a : Z,
  (0 <= a)%Z -> (a + Z.of_nat (kv_total (node_tags nodes)) <= INT_MAX)%Z ->
  fold_left (fun nkeys (ni : osmid_t * Node.t) =>
               wrap_int (nkeys + Z.of_nat (length (Node.key_val (snd ni)))))
            nodes a = (a + Z.of_nat (kv_total (node_tags nodes)))%Z.
Proof.
  induction nodes as [|ni nodes IH]; intros a Ha HK.
  - unfold kv_total, node_tags. simpl. lia.
  - rewrite node_tags_cons, kv_total_cons in *. cbn [fst snd] in *.
    cbn [fold_left]. rewrite wrap_int_small by lia. rewrite IH by lia. lia.
Qed.

Lemma new_CharacterVector_run {R} lbl n h (st : R * world) :
  new_CharacterVector lbl n h st = (inr (pmat EmptyString lbl n [[]]), st).
Proof.
  unfold new_CharacterVector, ret, pmat, pad. simpl.
  by rewrite app_nil_r, Nat.sub_0_r.
Qed.

Section NodesRun.
Context (h : host) (Hquiet : never_interrupts h) (nodes : Nodes).
Context (HN : (Z.of_nat (length nodes) <= INT_MAX)%Z).
Context (HK : (Z.of_nat (kv_total (node_tags nodes)) <= INT_MAX)%Z).

Lemma nodes_fill_run s w :
  nodes_fill nodes h (s, w) =
  (inr ((pmat EmptyString "node_ids" (length nodes) [to_string ∘ fst <$> nodes],
         pmat zero "node_mat" (length nodes)
           [Node.lon ∘ snd <$> nodes; Node.lat ∘ snd <$> nodes],
         length nodes),
        (pmat EmptyString "kv_mat" (kv_total (node_tags nodes))
           [kv_objects (node_tags nodes); kv_keys (node_tags nodes);
            kv_values (node_tags nodes)],
         (kv_total (node_tags nodes)))),
   (s, adv (polls_from 0 (length nodes)) 0
         (nodes_events "node_ids" "node_mat" "kv_mat" 0 0 nodes) w)).
Proof.
  unfold nodes_fill, nodes_count. rewrite nodes_count_from by lia.
  erewrite bind_inr by apply new_CharacterVector_run.
  unfold new_NumericMatrix, new_CharacterMatrix.
  erewrite bind_inr by (apply new_Matrix_run; unfold INT_MAX in *; lia).
  erewrite bind_inr by (apply new_Matrix_run; unfold INT_MAX in *; lia).
  rewrite Z.add_0_l, !Nat2Z.id.
  change (replicate (Z.to_nat 3) []) with [@nil string; []; []].
  change (replicate (Z.to_nat 2) []) with [@nil double; []].
  exact (nodes_loop_run h Hquiet _ _ _ (length nodes) (kv_total (node_tags nodes)) nodes [] [] [] [] [] []
           s w eq_refl eq_refl eq_refl eq_refl (Nat.le_refl _) (Nat.le_refl _)).
Qed.

Lemma get_osm_nodes_run s w :
  get_osm_nodes nodes h (s, w) =
  (inr tt,
   (nodes_tables nodes,
    adv (polls_from 0 (length nodes)) 0
      (nodes_events "node_ids" "node_mat" "kv_mat" 0 0 nodes) w)).
Proof.
  unfold get_osm_nodes. erewrite bind_inr by apply nodes_fill_run.
  cbv beta iota.
  pose proof (length_kv_objects (node_tags nodes)) as L4.
  pose proof (length_kv_keys (node_tags nodes)) as L5.
  pose proof (length_kv_values (node_tags nodes)) as L6.
  rewrite !column3_0, !column3_1, !column3_2, !column2_0, !column2_1,
    !column1_0 by (rewrite ?length_fmap; lia).
  unfold Named.
  erewrite bind_inr
    by (apply DataFrame_create_run; repeat constructor; simpl;
        rewrite ?length_fmap; lia).
  unfold assign at 1. unfold bind at 1. cbn [fst snd].
  erewrite bind_inr
    by (apply DataFrame_create_run; repeat constructor; simpl; lia).
  reflexivity.
Qed.
End NodesRun.

(** ** The relation flattener *)

Lemma for_each_fmap {R X Y L} (f : X -> Y) (body : Y -> L -> M R L) (l : list X) :
  forall st h σ, for_each (f <$> l) body st h σ = for_each l (fun x => body (f x)) st h σ.
Proof.
  induction l as [|x l IH]; intros st h σ; [done|].
  cbn [fmap list_fmap for_each]. unfold bind.
  destruct (body (f x) st h σ) as [[e|st'] σ']; [done|]. apply IH.
Qed.

Lemma for_each_ext {R X L} (body1 body2 : X -> L -> M R L) (l : list X) :
  (forall x st h σ, body1 x st h σ = body2 x st h σ) ->
  forall st h σ, for_each l body1 st h σ = for_each l body2 st h σ.
Proof.
  intros Hext. induction l as [|x l IH]; intros st h σ; [done|].
  cbn [for_each]. unfold bind. rewrite Hext.
  destruct (body2 x st h σ) as [[e|st'] σ']; [done|]. apply IH.
Qed.

Lemma store_member_key_val rel r st h σ :
  store_member rel r st h σ = store_key_val rel (member_row r) st h σ.
Proof. by destruct st. Qed.

Lemma rel_tags_cons r rels :
  rel_tags (r :: rels) = (Relation.id r, Relation.key_val r) :: rel_tags rels.
Proof. reflexivity. Qed.
Lemma rel_members_cons tr r rels :
  rel_members tr (r :: rels) =
    (Relation.id r, member_row <$> fst (tr r)) :: rel_members tr rels.
Proof. reflexivity. Qed.
Lemma ways_total_cons r rels :
  ways_total (r :: rels) = length (Relation.ways r) + ways_total rels.
Proof. reflexivity. Qed.

Section RelationsLoop.
Context (tr : Relation.t -> osm_str_vec * list (string * string)).
Context (h : host) (Hquiet : never_interrupts h).
Context (lr lk : string) (n m : nat).

Lemma relations_body_run r r0 r1 r2 k0 k1 k2 s w :
  length r1 = length r0 -> length r2 = length r0 ->
  length k1 = length k0 -> length k2 = length k0 ->
  let mem := member_row <$> fst (tr r) in
  let kvs := Relation.key_val r in
  length r0 + length mem <= n -> length k0 + length kvs <= m ->
  relations_body tr r
    ((pmat EmptyString lr n [r0; r1; r2], length r0),
     (pmat EmptyString lk m [k0; k1; k2], length k0)) h (s, w) =
  (inr ((pmat EmptyString lr n
           [r0 ++ ((fun _ => to_string (Relation.id r)) <$> mem);
            r1 ++ (fst <$> mem); r2 ++ (snd <$> mem)],
         length r0 + length mem),
        (pmat EmptyString lk m
           [k0 ++ ((fun _ => to_string (Relation.id r)) <$> kvs);
            k1 ++ (fst <$> kvs); k2 ++ (snd <$> kvs)],
         length k0 + length kvs)),
   (s, adv 1 0 ([EvPoll] ++ rows_events lr (length r0) (length mem) ++
                rows_events lk (length k0) (length kvs)) w)).
Proof.
  intros H1 H2 H3 H4 mem kvs Hn Hm. unfold relations_body.
  erewrite bind_inr by (apply checkUserInterrupt_run, Hquiet).
  subst mem. destruct (tr r) as [relation_ways relation_kv]. cbn [fst] in *.
  erewrite bind_inr.
  2:{ rewrite (for_each_ext _ (fun x => store_key_val (Relation.id r) (member_row x)))
        by (intros; apply store_member_key_val).
      rewrite <- for_each_fmap. by apply store_key_vals_run. }
  erewrite bind_inr by (by apply store_key_vals_run).
  unfold ret. rewrite !adv_adv, <- ?app_assoc. reflexivity.
Qed.

Lemma relations_loop_run rels : forall r0 r1 r2 k0 k1 k2 s w,
  length r1 = length r0 -> length r2 = length r0 ->
  length k1 = length k0 -> length k2 = length k0 ->
  length r0 + kv_total (rel_members tr rels) <= n ->
  length k0 + kv_total (rel_tags rels) <= m ->
  for_each rels (relations_body tr)
    ((pmat EmptyString lr n [r0; r1; r2], length r0),
     (pmat EmptyString lk m [k0; k1; k2], length k0)) h (s, w) =
  (inr ((pmat EmptyString lr n
           [r0 ++ kv_objects (rel_members tr rels);
            r1 ++ kv_keys (rel_members tr rels);
            r2 ++ kv_values (rel_members tr rels)],
         length r0 + kv_total (rel_members tr rels)),
        (pmat EmptyString lk m
           [k0 ++ kv_objects (rel_tags rels); k1 ++ kv_keys (rel_tags rels);
            k2 ++ kv_values (rel_tags rels)],
         length k0 + kv_total (rel_tags rels))),
   (s, adv (length rels) 0
         (relations_events tr lr lk (length r0) (length k0) rels) w)).
Proof.
  induction rels as [|r rels IH]; intros r0 r1 r2 k0 k1 k2 s w H1 H2 H3 H4 Hn Hm.
  - simpl. unfold ret. by rewrite !app_nil_r, !Nat.add_0_r, adv_nil.
  - rewrite rel_members_cons, kv_total_cons in Hn.
    rewrite rel_tags_cons, kv_total_cons in Hm. cbn [fst snd] in Hn, Hm.
    cbn [for_each].
    erewrite bind_inr by (apply relations_body_run; lia).
    set (mem := member_row <$> fst (tr r)) in *.
    set (kvs := Relation.key_val r) in *.
    replace (length r0 + length mem)
      with (length (r0 ++ ((fun _ => to_string (Relation.id r)) <$> mem)))
      by (by rewrite length_app, length_fmap).
    replace (length k0 + length kvs)
      with (length (k0 ++ ((fun _ => to_string (Relation.id r)) <$> kvs)))
      by (by rewrite length_app, length_fmap).
    rewrite IH; rewrite ?length_app, ?length_fmap; try lia.
    rewrite adv_adv, <- ?app_assoc.
    rewrite rel_members_cons, rel_tags_cons, !kv_total_cons, !kv_objects_cons,
      !kv_keys_cons, !kv_values_cons.
    cbn [fst snd relations_events length]. fold mem kvs.
    replace (length (fst (tr r))) with (length mem)
      by (subst mem; by rewrite length_fmap).
    rewrite <- ?app_assoc, <- !Nat.add_assoc. reflexivity.
Qed.
End RelationsLoop.

Lemma relations_count_from rels : forall a b : Z,
  fold_left (fun '(nrow_kv, nrow_memb) itr =>
               ((nrow_kv + Z.of_nat (length (Relation.key_val itr)))%Z,
                (nrow_memb + Z.of_nat (length (Relation.ways itr)))%Z))
            rels (a, b) =
    ((a + Z.of_nat (kv_total (rel_tags rels)))%Z,
     (b + Z.of_nat (ways_total rels))%Z).
Proof.
  induction rels as [|r rels IH]; intros a b.
  - unfold kv_total, ways_total, rel_tags. simpl. f_equal; lia.
  - rewrite rel_tags_cons, kv_total_cons, ways_total_cons. cbn [fst snd fold_left].
    rewrite IH. f_equal; lia.
Qed.

Lemma relations_count_eq rels :
  relations_count rels =
    (Z.of_nat (kv_total (rel_tags rels)), Z.of_nat (ways_total rels)).
Proof. unfold relations_count. by rewrite relations_count_from. Qed.

(** ** Interrupts *)

Lemma failure_of_Some {A} (r : failure + A) e : failure_of r = Some e -> r = inl e.
Proof. destruct r; simpl; congruence. Qed.

Section Orderly.
Context {R : Type}.

Lemma orderly_ret {A} (a : A) : orderly (ret (R := R) a).
Proof. intros h s w. simpl. split; [done|]. split; [done|]. intros; lia. Qed.

Lemma orderly_throw {A} e : orderly (throw (R := R) (A := A) e).
Proof. intros h s w. simpl. split; [done|]. split; [done|]. intros; lia. Qed.

Lemma orderly_bind {A B} (m : M R A) (f : A -> M R B) :
  orderly m -> (forall a, orderly (f a)) -> orderly (bind m f).
Proof.
  intros Hm Hf h s w. specialize (Hm h s w). unfold bind. cbv zeta in *.
  destruct (m h (s, w)) as [[e|a] [s1 w1]]; cbn [fst snd failure_of] in *;
    [exact Hm|].
  destruct Hm as (-> & Hle & Hm). specialize (Hf a h s w1). cbv zeta in Hf.
  destruct (f a h (s, w1)) as [r2 [s2 w2]]; cbn [fst snd] in *.
  destruct Hf as (-> & Hle2 & Hf). split; [done|]. split; [lia|].
  intros k Hk Hp. destruct (Nat.lt_ge_cases k (polls w1)) as [Hlt|Hge].
  - by destruct (Hm k (conj (proj1 Hk) Hlt) Hp).
  - apply Hf; [lia|done].
Qed.

Lemma orderly_checkUserInterrupt : orderly (checkUserInterrupt (R := R)).
Proof.
  intros h s w. unfold checkUserInterrupt. cbn [fst snd polls].
  split; [done|]. split; [lia|]. intros k Hk Hp.
  assert (k = polls w) as -> by lia. rewrite Hp.
  split; [done|]. split; [done|]. apply last_snoc.
Qed.

Lemma orderly_runif1 : orderly (runif1 (R := R)).
Proof.
  intros h s w. unfold runif1. cbn [fst snd polls].
  split; [done|]. split; [lia|]. intros; lia.
Qed.

Lemma orderly_emit ev : orderly (emit (R := R) ev).
Proof.
  intros h s w. unfold emit, log. cbn [fst snd polls].
  split; [done|]. split; [lia|]. intros; lia.
Qed.

Lemma orderly_for_each {X L} (body : X -> L -> M R L) (l : list X) :
  (forall x st, orderly (body x st)) -> forall st, orderly (for_each l body st).
Proof.
  intros Hbody. induction l as [|x l IH]; intros st; cbn [for_each].
  - apply orderly_ret.
  - apply orderly_bind; auto.
Qed.

Lemma orderly_new_Matrix {A} (dflt : A) lbl d : orderly (new_Matrix (R := R) dflt lbl d).
Proof.
  unfold new_Matrix. destruct (_ || _); [apply orderly_throw|apply orderly_ret].
Qed.

Lemma orderly_store {A} (m : Matrix A) i j v : orderly (store (R := R) m i j v).
Proof.
  unfold store. destruct (_ <? _); [|apply orderly_throw].
  apply orderly_bind; [apply orderly_emit|intros; apply orderly_ret].
Qed.

Lemma orderly_store_key_val obj kv st : orderly (store_key_val (R := R) obj kv st).
Proof.
  destruct st as [kv_mat k]. unfold store_key_val.
  repeat (apply orderly_bind; [apply orderly_store|intros]). apply orderly_ret.
Qed.

Lemma silent_ret {A} (a : A) : silent (ret (R := R) a).
Proof. by intros h s w. Qed.

Lemma silent_assign f : silent (assign (R := R) f).
Proof. by intros h s w. Qed.

Lemma silent_DataFrame_create cols : silent (DataFrame_create (R := R) cols).
Proof.
  intros h s w. unfold DataFrame_create. by destruct (recycle_columns _ cols).
Qed.

Lemma silent_bind {A B} (m : M R A) (f : A -> M R B) :
  silent m -> (forall a, silent (f a)) -> silent (bind m f).
Proof.
  intros Hm Hf h s w. specialize (Hm h s w). unfold bind.
  destruct (m h (s, w)) as [[e|a] [s1 w1]]; cbn [fst snd] in *; [done|].
  by rewrite Hf.
Qed.

(** A traversal followed by the construction of the caller's tables: a
    pending interrupt seen by any poll aborts the call with the caller's
    variables as they were. *)
Lemma interrupted_before_assignment {A B} (m : M R A) (f : A -> M R B) h s w :
  orderly m -> (forall a, silent (f a)) ->
  let out := bind m f h (s, w) in
  forall k, polls w <= k < polls (snd (snd out)) -> pending h k = true ->
    fst out = inl Interrupted /\ fst (snd out) = s /\
    polls (snd (snd out)) = S k /\
    last (trace (snd (snd out))) = Some EvPoll.
Proof.
  intros Hm Hf out k Hk Hp. subst out. unfold bind in *.
  specialize (Hm h s w). cbv zeta in Hm.
  destruct (m h (s, w)) as [[e|a] [s1 w1]]; cbn [fst snd failure_of] in *.
  - destruct Hm as (-> & _ & Hm). destruct (Hm k Hk Hp) as (He & Hpolls & Hlast).
    injection He as ->. by rewrite Hpolls, Hlast.
  - destruct Hm as (-> & _ & Hm). specialize (Hf a h s w1).
    destruct (f a h (s, w1)) as [r2 [s2 w2]]; cbn [fst snd] in *.
    rewrite Hf in Hk. by destruct (Hm k Hk Hp).
Qed.
End Orderly.

Lemma orderly_relations_fill tr rels : orderly (relations_fill tr rels).
Proof.
  unfold relations_fill. destruct (relations_count rels) as [nrow_kv nrow_memb].
  do 2 (apply orderly_bind; [apply orderly_new_Matrix|intros]).
  apply orderly_for_each. intros itr [rel_st kv_st]. unfold relations_body.
  apply orderly_bind; [apply orderly_checkUserInterrupt|intros _].
  destruct (tr itr) as [relation_ways relation_kv].
  apply orderly_bind.
  { apply orderly_for_each. intros r [rel_mat i]. unfold store_member.
    repeat (apply orderly_bind; [apply orderly_store|intros]). apply orderly_ret. }
  intros. apply orderly_bind; [|intros; apply orderly_ret].
  apply orderly_for_each. intros. apply orderly_store_key_val.
Qed.

Lemma orderly_random_id len : orderly (random_id (R := way_refs) len).
Proof.
  unfold random_id. apply orderly_bind; [|intros; apply orderly_ret].
  induction len as [|len IH]; cbn [generate_n]; [apply orderly_ret|].
  apply orderly_bind; [|intros; apply orderly_bind; [done|intros; apply orderly_ret]].
  unfold randchar. apply orderly_bind; [apply orderly_runif1|intros u].
  destruct (to_size_t _) as [i|]; [|apply orderly_throw].
  destruct (charset !! _); [apply orderly_ret|apply orderly_throw].
Qed.

Lemma orderly_way_edges way nodes : forall st, orderly (way_edges way nodes st).
Proof.
  induction nodes as [|a [|b rest] IH]; intros st; try apply orderly_ret.
  change (way_edges way (a :: b :: rest) st)
    with (bind (store_edge way a b st) (way_edges way (b :: rest))).
  apply orderly_bind; [|done]. destruct st as [[edge_mat ole_mat] count_w].
  unfold store_edge.
  do 2 (apply orderly_bind; [apply orderly_store|intros]).
  apply orderly_bind; [apply orderly_random_id|intros].
  repeat (apply orderly_bind; [apply orderly_store|intros]). apply orderly_ret.
Qed.

Lemma orderly_ways_fill ways : orderly (ways_fill ways).
Proof.
  unfold ways_fill. destruct (ways_count ways) as [nedges nkv].
  do 3 (apply orderly_bind; [apply orderly_new_Matrix|intros]).
  apply orderly_for_each. intros wi [edge_st kv_st]. unfold ways_body.
  apply orderly_bind; [apply orderly_checkUserInterrupt|intros _].
  apply orderly_bind; [apply orderly_way_edges|intros].
  apply orderly_bind; [|intros; apply orderly_ret].
  apply orderly_for_each. intros. apply orderly_store_key_val.
Qed.

Lemma orderly_nodes_fill nodes : orderly (nodes_fill nodes).
Proof.
  unfold nodes_fill.
  apply orderly_bind; [apply orderly_ret|intros].
  do 2 (apply orderly_bind; [apply orderly_new_Matrix|intros]).
  apply orderly_for_each. intros ni [[[node_ids node_mat] i] kv_st].
  unfold nodes_body. apply orderly_bind.
  { destruct (_ =? _); [apply orderly_checkUserInterrupt|apply orderly_ret]. }
  intros _. do 3 (apply orderly_bind; [apply orderly_store|intros]).
  apply orderly_bind; [|intros; apply orderly_ret].
  apply orderly_for_each. intros. apply orderly_store_key_val.
Qed.

Ltac silent_tables :=
  repeat first
    [ apply silent_bind; [|intros]
    | apply silent_DataFrame_create
    | apply silent_assign
    | apply silent_ret ].

(** ** What a returning call of the relation flattener has built, whatever
    the tracer *)

Lemma same_shape_refl {A} (m : Matrix A) : same_shape m m.
Proof. by repeat split. Qed.

Lemma same_shape_trans {A} (m1 m2 m3 : Matrix A) :
  same_shape m1 m2 -> same_shape m2 m3 -> same_shape m1 m3.
Proof. unfold same_shape. intros (?&?&?&?) (?&?&?&?). repeat split; congruence. Qed.

Lemma bind_inr_inv {R A B} (m : M R A) (f : A -> M R B) h σ b σ' :
  bind m f h σ = (inr b, σ') ->
  exists a σ1, m h σ = (inr a, σ1) /\ f a h σ1 = (inr b, σ').
Proof.
  unfold bind. destruct (m h σ) as [[e|a] σ1]; [discriminate|]. eauto.
Qed.

Lemma store_shape {R A} (m : Matrix A) i j v h (σ : R * world) m' σ' :
  store m i j v h σ = (inr m', σ') -> same_shape m m'.
Proof.
  unfold store. destruct (_ <? _); [|discriminate].
  unfold bind, emit, ret. intros [= <- _]. unfold same_shape. simpl.
  by rewrite length_insert.
Qed.

Lemma for_each_invariant {R X L} (I : L -> Prop) (body : X -> L -> M R L) l :
  (forall x st h σ st' σ', I st -> body x st h σ = (inr st', σ') -> I st') ->
  forall st h σ st' σ', I st -> for_each l body st h σ = (inr st', σ') -> I st'.
Proof.
  intros Hbody. induction l as [|x l IH]; intros st h σ st' σ' HI Hrun.
  - by injection Hrun as <- _.
  - cbn [for_each] in Hrun. apply bind_inr_inv in Hrun as (st1 & σ1 & H1 & H2).
    eauto.
Qed.

Lemma store_member_shape rel r st h σ st' σ' :
  store_member rel r st h σ = (inr st', σ') -> same_shape (fst st) (fst st').
Proof.
  destruct st as [m i]. unfold store_member. intros Hrun.
  apply bind_inr_inv in Hrun as (m1 & σ1 & H1 & Hrun).
  apply bind_inr_inv in Hrun as (m2 & σ2 & H2 & Hrun).
  apply bind_inr_inv in Hrun as (m3 & σ3 & H3 & Hrun).
  injection Hrun as <- _. cbn [fst].
  apply store_shape in H1, H2, H3. eauto using same_shape_trans.
Qed.

Section RelationsPartial.
Context (tr : Relation.t -> osm_str_vec * list (string * string)).
Context (h : host) (lk : string) (m : nat).

Lemma relations_loop_partial rels : forall rel_mat i k0 k1 k2 σ rel_mat' i' kv_st' σ',
  length k1 = length k0 -> length k2 = length k0 ->
  length k0 + kv_total (rel_tags rels) <= m ->
  for_each rels (relations_body tr)
    ((rel_mat, i), (pmat EmptyString lk m [k0; k1; k2], length k0)) h σ =
    (inr ((rel_mat', i'), kv_st'), σ') ->
  same_shape rel_mat rel_mat' /\
  kv_st' = (pmat EmptyString lk m
              [k0 ++ kv_objects (rel_tags rels); k1 ++ kv_keys (rel_tags rels);
               k2 ++ kv_values (rel_tags rels)],
            length k0 + kv_total (rel_tags rels)).
Proof.
  induction rels as [|r rels IH];
    intros rel_mat i k0 k1 k2 σ rel_mat' i' kv_st' σ' H1 H2 Hm Hrun.
  - injection Hrun as <- _ <- _. split; [apply same_shape_refl|].
    unfold kv_objects, kv_keys, kv_values, kv_total, rel_tags. simpl.
    by rewrite !app_nil_r, Nat.add_0_r.
  - rewrite rel_tags_cons, kv_total_cons in Hm. cbn [fst snd] in Hm.
    cbn [for_each] in Hrun.
    apply bind_inr_inv in Hrun as ([[rel_mat1 i1] kv_st1] & σ1 & Hbody & Hrun).
    unfold relations_body in Hbody.
    apply bind_inr_inv in Hbody as ([] & σ0 & _ & Hbody).
    destruct (tr r) as [relation_ways relation_kv].
    apply bind_inr_inv in Hbody as ([rel_mat2 i2] & [s2 w2] & Hmem & Hbody).
    apply (for_each_invariant (fun st => same_shape rel_mat (fst st))) in Hmem;
      [|intros x st ? ? st' ? HI Hst; apply store_member_shape in Hst;
        eauto using same_shape_trans|apply same_shape_refl].
    cbn [fst] in Hmem.
    erewrite bind_inr in Hbody by (apply store_key_vals_run; lia).
    injection Hbody as <- <- <- <-.
    set (kvs := Relation.key_val r) in *.
    replace (length k0 + length kvs)
      with (length (k0 ++ ((fun _ => to_string (Relation.id r)) <$> kvs))) in Hrun
      by (by rewrite length_app, length_fmap).
    apply IH in Hrun as [Hshape ->];
      rewrite ?length_app, ?length_fmap; try lia.
    split; [eauto using same_shape_trans|].
    rewrite rel_tags_cons, kv_total_cons, kv_objects_cons, kv_keys_cons,
      kv_values_cons. cbn [fst snd]. fold kvs.
    by rewrite <- !app_assoc, Nat.add_assoc.
Qed.
End RelationsPartial.

Lemma length_column {A} (m : Matrix A) j :
  nrow m * S j <= length (cells m) -> length (column m j) = nrow m.
Proof.
  intros Hlen. unfold column. rewrite length_take, length_drop. nia.
Qed.

Section RelationsReturn.
Context (tr : Relation.t -> osm_str_vec * list (string * string)).
Context (h : host) (rels : Relations).
Context (HN : (Z.of_nat (ways_total rels) <= INT_MAX)%Z).
Context (HK : (Z.of_nat (kv_total (rel_tags rels)) <= INT_MAX)%Z).

(** Whenever the call returns: the member table has the rows counted by
    the first loop, and the key-value table is built from the relations'
    own tags. *)
Lemma get_osm_relations_returns σ s' w' :
  get_osm_relations tr rels h σ = (inr tt, (s', w')) ->
  df_nrow (rel_df s') = ways_total rels /\
  rel_kv_df s' = rel_kv_df (relations_tables tr rels).
Proof.
  unfold get_osm_relations. intros Hrun.
  apply bind_inr_inv in Hrun as ([[rel_mat i] [kv_mat k]] & σ1 & Hfill & Hrun).
  unfold relations_fill in Hfill. rewrite relations_count_eq in Hfill.
  unfold new_CharacterMatrix in Hfill.
  erewrite bind_inr in Hfill by (apply new_Matrix_run; unfold INT_MAX in *; lia).
  erewrite bind_inr in Hfill by (apply new_Matrix_run; unfold INT_MAX in *; lia).
  rewrite !Nat2Z.id in Hfill.
  change (replicate (Z.to_nat 3) []) with [@nil string; []; []] in Hfill.
  apply (relations_loop_partial tr h "kv_mat" _ rels _ _ [] [] []) in Hfill
    as [(_ & Hnrow & _ & Hcells) Hkv]; [|done|done|simpl; lia].
  injection Hkv as -> ->. cbn [nrow cells pmat length app] in Hnrow, Hcells.
  rewrite (length_concat_uniform (ways_total rels)) in Hcells
    by (apply Forall_pad; repeat constructor; simpl; lia).
  rewrite length_fmap in Hcells. cbn [length] in Hcells.
  pose proof (length_kv_objects (rel_tags rels)) as L4.
  pose proof (length_kv_keys (rel_tags rels)) as L5.
  pose proof (length_kv_values (rel_tags rels)) as L6.
  rewrite !column3_0, !column3_1, !column3_2 in Hrun by lia.
  assert (length (column rel_mat 0) = ways_total rels) as C0
    by (rewrite length_column; lia).
  assert (length (column rel_mat 1) = ways_total rels) as C1
    by (rewrite length_column; lia).
  assert (length (column rel_mat 2) = ways_total rels) as C2
    by (rewrite length_column; lia).
  unfold Named in Hrun.
  erewrite bind_inr in Hrun
    by (apply DataFrame_create_run; repeat constructor; simpl; lia).
  unfold assign at 1 in Hrun. unfold bind at 1 in Hrun. cbn [fst snd] in Hrun.
  erewrite bind_inr in Hrun
    by (apply DataFrame_create_run; repeat constructor; simpl; lia).
  unfold assign in Hrun. injection Hrun as <- _. cbn [rel_df rel_kv_df].
  split; [exact C0|reflexivity].
Qed.
End RelationsReturn.

(** Two tracers that resolve the same members build the same tables. *)
Lemma get_osm_relations_tracer_agree tr1 tr2 rels h σ :
  (forall r, fst (tr1 r) = fst (tr2 r)) ->
  get_osm_relations tr1 rels h σ = get_osm_relations tr2 rels h σ.
Proof.
  intros Hagree. unfold get_osm_relations, relations_fill.
  destruct (relations_count rels) as [nrow_kv nrow_memb].
  assert (forall st h σ, for_each rels (relations_body tr1) st h σ =
                         for_each rels (relations_body tr2) st h σ) as Hloop.
  { apply for_each_ext. intros r [rel_st kv_st] h' σ'. unfold relations_body.
    specialize (Hagree r). destruct (tr1 r) as [m1 t1], (tr2 r) as [m2 t2].
    cbn [fst] in Hagree. by subst. }
  unfold bind. destruct (new_CharacterMatrix _ _ h σ) as [[e|kv_mat] σ1]; [done|].
  destruct (new_CharacterMatrix _ _ h σ1) as [[e|rel_mat] σ2]; [done|].
  by rewrite Hloop.
Qed.

(** ** Which cells a fill pass stores *)

Lemma elem_row_events l i j lbl k :
  EvStore l i j ∈ row_events lbl k <-> l = lbl /\ i = k /\ j < 3.
Proof.
  unfold row_events. rewrite !elem_of_cons, elem_of_nil. split.
  - intros [H|[H|[H|[]]]]; injection H as -> -> ->; repeat split; lia.
  - intros (-> & -> & Hj).
    destruct j as [|[|[|j]]]; [by left|by right; left|by right; right; left|lia].
Qed.

Lemma elem_rows_events l i j lbl k n :
  EvStore l i j ∈ rows_events lbl k n <-> l = lbl /\ k <= i < k + n /\ j < 3.
Proof.
  revert k. induction n as [|n IH]; intros k.
  - unfold rows_events. simpl. rewrite elem_of_nil. split; [done|lia].
  - rewrite rows_events_S, elem_of_app, elem_row_events, IH. split.
    + intros [(-> & -> & Hj)|(-> & Hi & Hj)]; repeat split; lia.
    + intros (-> & Hi & Hj). destruct (decide (i = k)) as [->|Hne].
      * by left.
      * right. repeat split; lia.
Qed.

Lemma poll_not_in_rows_events lbl k n : EvPoll ∉ rows_events lbl k n.
Proof.
  revert k. induction n as [|n IH]; intros k.
  - unfold rows_events. simpl. apply not_elem_of_nil.
  - rewrite rows_events_S, elem_of_app. intros [H|H]; [|by apply IH in H].
    unfold row_events in H. rewrite !elem_of_cons, elem_of_nil in H.
    by destruct H as [H|[H|[H|[]]]].
Qed.

Lemma elem_edge_events l i j le lo c :
  EvStore l i j ∈ edge_events le lo c <->
  i = c /\ ((l = le /\ j < 3) \/ (l = lo /\ j < 2)).
Proof.
  unfold edge_events, length_ids. cbn [replicate app].
  rewrite !elem_of_cons, elem_of_nil. split.
  - intros H. repeat (destruct H as [H|H]; [try discriminate; injection H as -> -> -> |]);
      try (split; [done|]; first [left; split; [done|lia] | right; split; [done|lia]]).
  - intros (-> & [(-> & Hj)|(-> & Hj)]).
    + destruct j as [|[|[|j]]]; [| | |lia]; naive_solver.
    + destruct j as [|[|j]]; [| |lia]; naive_solver.
Qed.

Lemma elem_edges_events l i j le lo c n :
  EvStore l i j ∈ edges_events le lo c n <->
  c <= i < c + n /\ ((l = le /\ j < 3) \/ (l = lo /\ j < 2)).
Proof.
  revert c. induction n as [|n IH]; intros c.
  - unfold edges_events. simpl. rewrite elem_of_nil. split; [done|lia].
  - change (edges_events le lo c (S n))
      with (edge_events le lo c ++ edges_events le lo (S c) n).
    rewrite elem_of_app, elem_edge_events, IH. split.
    + intros [(-> & H)|(Hi & H)]; (split; [lia|done]).
    + intros (Hi & H). destruct (decide (i = c)) as [->|Hne]; [by left|].
      right. split; [lia|done].
Qed.

Lemma elem_ways_events l i j le lo lk ways : forall c k,
  EvStore l i j ∈ ways_events le lo lk c k ways <->
  (c <= i < c + edge_total ways /\ ((l = le /\ j < 3) \/ (l = lo /\ j < 2))) \/
  (l = lk /\ k <= i < k + kv_total (way_tags ways) /\ j < 3).
Proof.
  induction ways as [|wi ways IH]; intros c k.
  - simpl. rewrite elem_of_nil. unfold edge_total, kv_total, way_tags. simpl.
    split; [done|]. intros [[? _]|(_ & ? & _)]; lia.
  - cbn [ways_events]. rewrite edge_total_cons, way_tags_cons, kv_total_cons.
    cbn [fst snd].
    rewrite !elem_of_app, list_elem_of_singleton, elem_edges_events,
      elem_rows_events, IH.
    set (ne := length (OneWay.nodes (snd wi)) - 1).
    set (nk := length (OneWay.key_val (snd wi))). clearbody ne nk.
    split.
    + intros [H|[(Hi & H)|[(-> & Hi & Hj)|[(Hi & H)|(-> & Hi & Hj)]]]];
        [discriminate| | | |].
      * left. split; [lia|done].
      * right. repeat split; lia.
      * left. split; [lia|done].
      * right. repeat split; lia.
    + intros [(Hi & H)|(-> & Hi & Hj)].
      * destruct (decide (i < c + ne)).
        -- right; left. split; [lia|done].
        -- right; right; right; left. split; [lia|done].
      * destruct (decide (i < k + nk)).
        -- right; right; left. repeat split; lia.
        -- right; right; right; right. repeat split; lia.
Qed.

Lemma elem_nodes_events l i j li lm lk nodes : forall i0 k,
  EvStore l i j ∈ nodes_events li lm lk i0 k nodes <->
  (i0 <= i < i0 + length nodes /\ ((l = li /\ j < 1) \/ (l = lm /\ j < 2))) \/
  (l = lk /\ k <= i < k + kv_total (node_tags nodes) /\ j < 3).
Proof.
  induction nodes as [|ni nodes IH]; intros i0 k.
  - simpl. rewrite elem_of_nil. unfold kv_total, node_tags. simpl.
    split; [done|]. intros [[? _]|(_ & ? & _)]; lia.
  - cbn [nodes_events]. rewrite node_tags_cons, kv_total_cons. cbn [fst snd length].
    unfold node_stores.
    rewrite !elem_of_app, !elem_of_cons, elem_of_nil, elem_rows_events, IH.
    set (nk := length (Node.key_val (snd ni))). clearbody nk.
    assert (EvStore l i j ∈ poll_before i0 <-> False) as ->.
    { unfold poll_before. destruct (_ =? _); [|by rewrite elem_of_nil].
      rewrite list_elem_of_singleton. done. }
    split.
    + intros [[]|[[[H|[H|[H|[]]]]|(-> & Hi & Hj)]|[(Hi & H)|(-> & Hi & Hj)]]].
      * injection H as -> -> ->. left. split; [lia|]. left. split; [done|lia].
      * injection H as -> -> ->. left. split; [lia|]. right. split; [done|lia].
      * injection H as -> -> ->. left. split; [lia|]. right. split; [done|lia].
      * right. repeat split; lia.
      * left. split; [lia|done].
      * right. repeat split; lia.
    + intros [(Hi & H)|(-> & Hi & Hj)].
      * destruct (decide (i = i0)) as [->|Hne].
        -- right; left; left. destruct H as [(-> & Hj)|(-> & Hj)].
           ++ left. f_equal. lia.
           ++ destruct j as [|[|j]]; [right; left|right; right; left|lia]; done.
        -- right; right; left. split; [lia|done].
      * destruct (decide (i < k + nk)).
        -- right; left; right. repeat split; lia.
        -- right; right; right. repeat split; lia.
Qed.

Lemma elem_relations_events tr l i j lr lk rels : forall i0 k,
  EvStore l i j ∈ relations_events tr lr lk i0 k rels <->
  (l = lr /\ i0 <= i < i0 + kv_total (rel_members tr rels) /\ j < 3) \/
  (l = lk /\ k <= i < k + kv_total (rel_tags rels) /\ j < 3).
Proof.
  induction rels as [|r rels IH]; intros i0 k.
  - simpl. rewrite elem_of_nil. unfold kv_total, rel_members, rel_tags. simpl.
    split; [done|]. intros [(_ & ? & _)|(_ & ? & _)]; lia.
  - cbn [relations_events].
    rewrite rel_members_cons, rel_tags_cons, !kv_total_cons. cbn [fst snd].
    rewrite length_fmap.
    rewrite !elem_of_app, list_elem_of_singleton, !elem_rows_events, IH.
    set (nm := length (fst (tr r))). set (nk := length (Relation.key_val r)).
    clearbody nm nk. split.
    + intros [H|[(-> & Hi & Hj)|[(-> & Hi & Hj)|[(-> & Hi & Hj)|(-> & Hi & Hj)]]]];
        [discriminate| | | |].
      * left. repeat split; lia.
      * right. repeat split; lia.
      * left. repeat split; lia.
      * right. repeat split; lia.
    + intros [(-> & Hi & Hj)|(-> & Hi & Hj)].
      * destruct (decide (i < i0 + nm)).
        -- right; left. repeat split; lia.
        -- right; right; right; left. repeat split; lia.
      * destruct (decide (i < k + nk)).
        -- right; right; left. repeat split; lia.
        -- right; right; right; right. repeat split; lia.
Qed.

(** ** The poll schedule of the node flattener *)

Lemma length_poll_before i :
  length (poll_before i) + (i + 999) / 1000 = i / 1000 + 1.
Proof.
  unfold poll_before.
  pose proof (Nat.div_mod_eq i 1000) as Hi.
  assert (i mod 1000 < 1000) as Hr by (apply Nat.mod_upper_bound; lia).
  set (q := i / 1000) in *. set (r := i mod 1000) in *. clearbody q r. subst i.
  destruct (Nat.eqb_spec r 0) as [H|H]; cbn [length].
  - subst r. replace (1000 * q + 0 + 999) with (q * 1000 + 999) by lia.
    rewrite Nat.div_add_l, (Nat.div_small 999 1000) by lia. lia.
  - replace (1000 * q + r + 999) with ((q + 1) * 1000 + (r - 1)) by lia.
    rewrite Nat.div_add_l, Nat.div_small by lia. lia.
Qed.

Lemma polls_from_div i n :
  polls_from i n + (i + 999) / 1000 = (i + n + 999) / 1000.
Proof.
  revert i. induction n as [|n IH]; intros i; cbn [polls_from].
  - by rewrite Nat.add_0_r.
  - specialize (IH (S i)). pose proof (length_poll_before i) as Hi.
    replace (S i + 999) with (i + 1000) in IH by lia.
    replace (i + 1000) with (i + 1 * 1000) in IH by lia.
    rewrite Nat.div_add in IH by lia.
    replace (i + S n + 999) with (S i + n + 999) by lia. lia.
Qed.

(** One poll for every started block of 1000 nodes. *)
Lemma polls_from_0 n : polls_from 0 n = (n + 999) / 1000.
Proof.
  pose proof (polls_from_div 0 n) as H. cbn [Nat.add] in H.
  rewrite (Nat.div_small 999 1000) in H by lia. lia.
Qed.

Lemma poll_not_in_node_stores li lm lk i k ni :
  EvPoll ∉ node_stores li lm lk i k ni.
Proof.
  unfold node_stores. rewrite elem_of_app. intros [H|H].
  - rewrite !elem_of_cons, elem_of_nil in H. by destruct H as [H|[H|[H|[]]]].
  - by apply poll_not_in_rows_events in H.
Qed.

Lemma length_string_of_list_ascii l :
  String.length (string_of_list_ascii l) = length l.
Proof. induction l as [|c l IH]; simpl; congruence. Qed.


(** * Properties of the flatteners and of the entry point *)

(** ** Sample hosts *)

Lemma quiet_host_never_interrupts : never_interrupts quiet_host.
Proof. intros k. reflexivity. Qed.

Lemma sample_draw_unit k : unit_interval (sample_draw k).
Proof.
  unfold sample_draw, unit_interval, valid.
  destruct (k mod 4) as [|[|[|n]]]; repeat split; vm_compute; reflexivity.
Qed.

Lemma quiet_host_uniform : uniform_source quiet_host.
Proof. intros k. apply sample_draw_unit. Qed.

(** ** C4: synthetic edge identifiers *)

(** C4. For any uniform draw of [0, 1) the index [randchar] computes is
    inside the 62-symbol alphabet and selects a digit or a letter; so
    [random_id], called with length 10 as the way flattener does, returns a
    string of exactly 10 such characters, and every identifier in the
    [edge_] column of the way flattener is one. *)
Theorem random_id_alphanumeric h :
  uniform_source h ->
  (forall u, unit_interval u ->
     exists i c, to_size_t (floor (mul u (of_Z max_index))) = Some i /\
                 (0 <= i < 62)%Z /\ charset !! Z.to_nat i = Some c /\
                 alphanumeric c) /\
  (forall (s : way_refs) w,
     exists id w', random_id length_ids h (s, w) = (inr id, (s, w')) /\
                   String.length id = 10 /\
                   Forall alphanumeric (list_ascii_of_string id)) /\
  (forall d n id, id ∈ ids_from h d n ->
     String.length id = 10 /\ Forall alphanumeric (list_ascii_of_string id)).
Proof.
  intros Hunif. split; [|split].
  - intros u Hu. destruct (char_of_draw_spec u Hu) as (i & Hi & Hr & Hc & Ha).
    eauto 6.
  - intros s w. rewrite (random_id_run h Hunif).
    destruct (chars_of_draws_alphanumeric h Hunif (draws w) length_ids) as [Hl Ha].
    eexists _, _. split; [reflexivity|].
    by rewrite length_string_of_list_ascii, list_ascii_of_string_of_list_ascii.
  - intros d n id Hin. unfold ids_from in Hin.
    apply list_elem_of_fmap in Hin as (i & -> & _). unfold id_of_draws.
    destruct (chars_of_draws_alphanumeric h Hunif (d + length_ids * i) length_ids)
      as [Hl Ha].
    by rewrite length_string_of_list_ascii, list_ascii_of_string_of_list_ascii.
Qed.

Lemma random_id_alphanumeric_witness :
  uniform_source quiet_host /\
  exists id w',
    random_id length_ids quiet_host (no_way_tables, fresh_world) = (inr id, w') /\
    String.length id = 10 /\ Forall alphanumeric (list_ascii_of_string id).
Proof.
  split; [exact quiet_host_uniform|].
  destruct (random_id_alphanumeric quiet_host quiet_host_uniform) as (_ & Hid & _).
  destruct (Hid no_way_tables fresh_world) as (id & w' & H).
  exists id. eexists. exact H.
Defined.

(** ** Blocks of rows *)

Lemma rows_of_app {A} (a b c : list A) :
  rows_of (length a) (length b) (a ++ b ++ c) = b.
Proof.
  unfold rows_of. rewrite drop_app_length. by rewrite take_app_length.
Qed.

Lemma concat_fmap_block {A B} (f : A -> list B) (g : A -> nat) pre x post :
  (forall y, length (f y) = g y) ->
  rows_of (sum_list (g <$> pre)) (g x) (concat (f <$> (pre ++ x :: post))) = f x.
Proof.
  intros Hfg. rewrite fmap_app, concat_app, fmap_cons. cbn [concat].
  rewrite <- (length_concat_fmap f g pre Hfg), <- (Hfg x). apply rows_of_app.
Qed.

Lemma sum_list_append (a b : list nat) :
  sum_list (a ++ b) = sum_list a + sum_list b.
Proof. induction a as [|x a IH]; simpl; [done|]. rewrite IH. lia. Qed.

Lemma Z_length_consecutive_pairs {A} (l : list A) :
  Z.of_nat (length (consecutive_pairs l)) = Z.max (Z.of_nat (length l) - 1) 0.
Proof. rewrite length_consecutive_pairs. lia. Qed.

Lemma kv_block (pre : list tagged) (x : tagged) post :
  let n := length (snd x) in
  rows_of (kv_total pre) n (kv_objects (pre ++ x :: post)) =
    replicate n (to_string (fst x)) /\
  rows_of (kv_total pre) n (kv_keys (pre ++ x :: post)) = fst <$> snd x /\
  rows_of (kv_total pre) n (kv_values (pre ++ x :: post)) = snd <$> snd x.
Proof.
  cbv zeta. unfold kv_objects, kv_keys, kv_values, kv_total.
  set (g := fun x : tagged => length (snd x)).
  change (length (snd x)) with (g x).
  rewrite !(concat_fmap_block _ g pre x post) by (intros y; apply length_fmap).
  split; [|done]. by apply const_fmap.
Qed.

(** ** C1: the edges of the ways *)

(** C1. When no interrupt is pending, the draws are uniform and the row
    totals fit an [int], [get_osm_ways] returns with an edge table and a
    linkage table of the same number of rows, the sum over the ways of
    max (k - 1, 0) for a way of k nodes.  The rows of a way follow those of
    the ways before it and are, in order, its consecutive node pairs
    (n0, n1), (n1, n2), ..., each with an identifier generated from draws
    of its own; the linkage rows carry the same identifiers, in the same
    places, next to the id of the way.  A way of fewer than two nodes has
    no row in either table. *)
Theorem way_flattener_edges h (ways : Ways) s w :
  never_interrupts h -> uniform_source h ->
  fits_int (edge_total ways) -> fits_int (kv_total (way_tags ways)) ->
  exists s' w' vx0 vx1 ids owners,
    get_osm_ways ways h (s, w) = (inr tt, (s', w')) /\
    df_columns (edge s') =
      [(".vx0"%string, CharacterColumn vx0); (".vx1"%string, CharacterColumn vx1);
       ("edge_"%string, CharacterColumn ids)] /\
    df_columns (object_link_edge s') =
      [("edge_"%string, CharacterColumn ids);
       ("object_"%string, CharacterColumn owners)] /\
    df_nrow (edge s') = edge_total ways /\
    df_nrow (object_link_edge s') = edge_total ways /\
    length vx0 = edge_total ways /\ length vx1 = edge_total ways /\
    length owners = edge_total ways /\
    ids = ids_from h (draws w) (edge_total ways) /\
    draws w' = draws w + length_ids * edge_total ways /\
    forall pre (wi : osmid_t * OneWay.t) post, ways = pre ++ wi :: post ->
      let pairs := consecutive_pairs (OneWay.nodes (snd wi)) in
      let o := edge_total pre in
      let n := length (OneWay.nodes (snd wi)) - 1 in
      Z.of_nat n = Z.max (Z.of_nat (length (OneWay.nodes (snd wi))) - 1) 0 /\
      length pairs = n /\
      rows_of o n vx0 = to_string ∘ fst <$> pairs /\
      rows_of o n vx1 = to_string ∘ snd <$> pairs /\
      rows_of o n ids = ids_from h (draws w + length_ids * o) n /\
      rows_of o n owners = replicate n (to_string (fst wi)).
Proof.
  intros Hquiet Hunif HE HK. unfold fits_int in *.
  rewrite (get_osm_ways_run h Hquiet Hunif ways HE HK).
  eexists _, _, _, _, _, _. split; [reflexivity|]. cbn [ways_tables edge object_link_edge].
  split; [reflexivity|]. split; [reflexivity|].
  unfold df_nrow. cbn [df_columns column_length].
  rewrite !length_fmap, length_edge_pairs, length_ids_from, length_edge_owners.
  do 5 (split; [reflexivity|]). split; [reflexivity|].
  split; [cbn [draws adv]; reflexivity|].
  intros pre wi post ->. cbv zeta.
  pose proof (length_consecutive_pairs (OneWay.nodes (snd wi))) as HP.
  split; [lia|]. split; [done|].
  unfold edge_pairs, edge_owners, edge_total.
  set (f := fun wi : osmid_t * OneWay.t => consecutive_pairs (OneWay.nodes (snd wi))).
  set (g := fun wi : osmid_t * OneWay.t => length (OneWay.nodes (snd wi)) - 1).
  assert (forall y, length (f y) = g y) as Hfg
    by (intros y; apply length_consecutive_pairs).
  split; [|split; [|split]].
  - unfold rows_of. rewrite <- fmap_drop, <- fmap_take. f_equal.
    exact (concat_fmap_block f g pre wi post Hfg).
  - unfold rows_of. rewrite <- fmap_drop, <- fmap_take. f_equal.
    exact (concat_fmap_block f g pre wi post Hfg).
  - rewrite fmap_app, sum_list_append, fmap_cons. cbn [sum_list sum_list_with].
    fold (g wi). set (o := sum_list (g <$> pre)). set (r := sum_list (g <$> post)).
    rewrite Nat.add_assoc, !ids_from_add.
    rewrite <- (length_ids_from h (draws w) o) at 1.
    rewrite <- (length_ids_from h (draws w + length_ids * o) (g wi)) at 1.
    rewrite <- app_assoc. apply rows_of_app.
  - apply (concat_fmap_block
             (fun wi : osmid_t * OneWay.t =>
                replicate (length (OneWay.nodes (snd wi)) - 1) (to_string (fst wi)))
             g pre wi post).
    intros y. apply length_replicate.
Qed.

Lemma way_flattener_edges_witness :
  (never_interrupts quiet_host /\ uniform_source quiet_host /\
   fits_int (edge_total sample_ways) /\
   fits_int (kv_total (way_tags sample_ways))) /\
  exists s' w' ids,
    get_osm_ways sample_ways quiet_host (no_way_tables, fresh_world) =
      (inr tt, (s', w')) /\
    df_columns (edge s') =
      [(".vx0", CharacterColumn ["1"; "2"]); (".vx1", CharacterColumn ["2"; "3"]);
       ("edge_", CharacterColumn ids)]%string /\
    df_columns (object_link_edge s') =
      [("edge_", CharacterColumn ids); ("object_", CharacterColumn ["7"; "7"])]%string /\
    length ids = 2.
Proof.
  assert (fits_int (edge_total sample_ways)) as HE by (vm_compute; discriminate).
  assert (fits_int (kv_total (way_tags sample_ways))) as HK
    by (vm_compute; discriminate).
  split; [auto using quiet_host_never_interrupts, quiet_host_uniform|].
  destruct (way_flattener_edges quiet_host sample_ways no_way_tables fresh_world
              quiet_host_never_interrupts quiet_host_uniform HE HK)
    as (s' & w' & vx0 & vx1 & ids & owners & Hrun & He & Ho & _ & _ & _ & _ & _
        & Hids & _).
  exists s', w', ids. split; [exact Hrun|].
  vm_compute in Hrun. injection Hrun as <- <-.
  cbn [edge object_link_edge df_columns] in He, Ho.
  injection He as Hvx0 Hvx1 Hedge. injection Ho as _ Hown.
  rewrite Hedge. split; [reflexivity|]. split; [reflexivity|].
  by rewrite Hids, length_ids_from.
Defined.

(** ** C5: the rows of the nodes *)

Lemma nodes_events_app li lm lk pre (ni : osmid_t * Node.t) post : forall i k,
  nodes_events li lm lk i k (pre ++ ni :: post) =
    nodes_events li lm lk i k pre ++
    poll_before (i + length pre) ++
    node_stores li lm lk (i + length pre) (k + kv_total (node_tags pre)) ni ++
    nodes_events li lm lk (S (i + length pre))
      (k + kv_total (node_tags pre) + length (Node.key_val (snd ni))) post.
Proof.
  induction pre as [|x pre IH]; intros i k.
  - unfold kv_total, node_tags. simpl. by rewrite !Nat.add_0_r.
  - cbn [app nodes_events]. rewrite IH, node_tags_cons, kv_total_cons.
    cbn [fst snd length]. rewrite <- !app_assoc.
    replace (S i + length pre) with (i + S (length pre)) by lia.
    by rewrite !Nat.add_assoc.
Qed.

(** C5. When no interrupt is pending and the row totals fit an [int],
    [get_osm_nodes] returns with one vertex row per node, in the order of
    the mapping: [x_] is the node's longitude, [y_] its latitude and
    [vertex_] the decimal string of its id.  The key-value rows of a node
    follow those of the nodes before it; there are as many as the node has
    tags, each with the node's id and, in the order of the tags, a key and
    its value. *)
Theorem node_flattener_rows h (nodes : Nodes) s w :
  never_interrupts h ->
  fits_int (length nodes) -> fits_int (kv_total (node_tags nodes)) ->
  exists s' w' objects keys values,
    get_osm_nodes nodes h (s, w) = (inr tt, (s', w')) /\
    df_columns (node_df s') =
      [("x_"%string, NumericColumn (Node.lon ∘ snd <$> nodes));
       ("y_"%string, NumericColumn (Node.lat ∘ snd <$> nodes));
       ("vertex_"%string, CharacterColumn (to_string ∘ fst <$> nodes))] /\
    df_nrow (node_df s') = length nodes /\
    df_columns (node_kv_df s') =
      [("object_"%string, CharacterColumn objects);
       ("key"%string, CharacterColumn keys);
       ("value"%string, CharacterColumn values)] /\
    df_nrow (node_kv_df s') = kv_total (node_tags nodes) /\
    forall pre (ni : osmid_t * Node.t) post, nodes = pre ++ ni :: post ->
      let tags := Node.key_val (snd ni) in
      let o := kv_total (node_tags pre) in
      let n := length tags in
      rows_of o n objects = replicate n (to_string (fst ni)) /\
      rows_of o n keys = fst <$> tags /\
      rows_of o n values = snd <$> tags.
Proof.
  intros Hquiet HN HK. unfold fits_int in *.
  rewrite (get_osm_nodes_run h Hquiet nodes HN HK).
  eexists _, _, _, _, _. split; [reflexivity|]. cbn [nodes_tables node_df node_kv_df].
  split; [reflexivity|]. unfold df_nrow. cbn [df_columns column_length].
  rewrite length_fmap, length_kv_objects. split; [reflexivity|].
  split; [reflexivity|]. split; [reflexivity|].
  intros pre ni post ->. cbv zeta.
  unfold node_tags. rewrite fmap_app, fmap_cons.
  apply (kv_block _ (fst ni, Node.key_val (snd ni))).
Qed.

Lemma node_flattener_rows_witness :
  (never_interrupts quiet_host /\ fits_int (length sample_nodes) /\
   fits_int (kv_total (node_tags sample_nodes))) /\
  exists s' w',
    get_osm_nodes sample_nodes quiet_host (no_node_tables, fresh_world) =
      (inr tt, (s', w')) /\
    df_columns (node_df s') =
      [("x_", NumericColumn [of_Z 1; of_Z 3]); ("y_", NumericColumn [of_Z 2; of_Z 4]);
       ("vertex_", CharacterColumn ["5"; "6"])]%string /\
    df_columns (node_kv_df s') =
      [("object_", CharacterColumn ["6"]); ("key", CharacterColumn ["amenity"]);
       ("value", CharacterColumn ["cafe"])]%string.
Proof.
  assert (fits_int (length sample_nodes)) as HN by (vm_compute; discriminate).
  assert (fits_int (kv_total (node_tags sample_nodes))) as HK
    by (vm_compute; discriminate).
  split; [auto using quiet_host_never_interrupts|].
  destruct (node_flattener_rows quiet_host sample_nodes no_node_tables fresh_world
              quiet_host_never_interrupts HN HK)
    as (s' & w' & objects & keys & values & Hrun & Hv & _ & Hkv & _).
  exists s', w'. split; [exact Hrun|]. split; [exact Hv|].
  vm_compute in Hrun. injection Hrun as <- <-. reflexivity.
Defined.

(** ** C7: the polls of the node flattener *)

(** C7. When no interrupt is pending and the row totals fit an [int], the
    events of [get_osm_nodes] are, node after node, the poll made before the
    node followed by the stores of the node.  A poll is made before node
    [i] exactly when [i] is a multiple of 1000, node 0 included; the stores
    of a node contain no poll; so the call polls once for every started
    block of 1000 nodes. *)
Theorem node_flattener_polls h (nodes : Nodes) s w :
  never_interrupts h ->
  fits_int (length nodes) -> fits_int (kv_total (node_tags nodes)) ->
  exists s' w',
    get_osm_nodes nodes h (s, w) = (inr tt, (s', w')) /\
    trace w' = trace w ++ nodes_events "node_ids" "node_mat" "kv_mat" 0 0 nodes /\
    polls w' = polls w + (length nodes + 999) / 1000 /\
    forall pre (ni : osmid_t * Node.t) post, nodes = pre ++ ni :: post ->
      let i := length pre in
      let stores :=
        node_stores "node_ids" "node_mat" "kv_mat" i (kv_total (node_tags pre)) ni in
      (exists later,
         trace w' = trace w ++ nodes_events "node_ids" "node_mat" "kv_mat" 0 0 pre ++
                    poll_before i ++ stores ++ later) /\
      (i mod 1000 = 0 -> poll_before i = [EvPoll]) /\
      (i mod 1000 <> 0 -> poll_before i = []) /\
      EvPoll ∉ stores.
Proof.
  intros Hquiet HN HK. unfold fits_int in *.
  rewrite (get_osm_nodes_run h Hquiet nodes HN HK).
  eexists _, _. split; [reflexivity|]. cbn [adv trace polls].
  split; [reflexivity|]. split; [by rewrite polls_from_0|].
  intros pre ni post ->. cbv zeta. split; [|split; [|split]].
  - rewrite nodes_events_app. cbn [Nat.add]. eauto.
  - intros Hi. unfold poll_before. by rewrite Hi.
  - intros Hi. unfold poll_before. by destruct (Nat.eqb_spec (length pre mod 1000) 0).
  - apply poll_not_in_node_stores.
Qed.

Lemma node_flattener_polls_witness :
  (never_interrupts quiet_host /\ fits_int (length sample_nodes) /\
   fits_int (kv_total (node_tags sample_nodes))) /\
  exists s' w',
    get_osm_nodes sample_nodes quiet_host (no_node_tables, fresh_world) =
      (inr tt, (s', w')) /\
    polls w' = 1 /\
    trace w' =
      [EvPoll; EvStore "node_ids" 0 0; EvStore "node_mat" 0 0; EvStore "node_mat" 0 1;
       EvStore "node_ids" 1 0; EvStore "node_mat" 1 0; EvStore "node_mat" 1 1;
       EvStore "kv_mat" 0 0; EvStore "kv_mat" 0 1; EvStore "kv_mat" 0 2]%string.
Proof.
  assert (fits_int (length sample_nodes)) as HN by (vm_compute; discriminate).
  assert (fits_int (kv_total (node_tags sample_nodes))) as HK
    by (vm_compute; discriminate).
  split; [auto using quiet_host_never_interrupts|].
  destruct (node_flattener_polls quiet_host sample_nodes no_node_tables fresh_world
              quiet_host_never_interrupts HN HK)
    as (s' & w' & Hrun & Htrace & Hpolls & _).
  exists s', w'. split; [exact Hrun|]. split; [exact Hpolls|]. exact Htrace.
Defined.

(** ** C6: cancellation *)

(** C6. In each flattener, if the host answers any poll of the call with a
    pending interrupt, the call ends with the interrupt condition at that
    very poll (it is the last thing the call does) and the caller's data
    frames are as they were before the call: the tables are built and
    assigned only after the traversal. *)
Theorem cancellation_assigns_nothing h tr (ways : Ways) (nodes : Nodes)
    (rels : Relations) sw sn sr w k :
  pending h k = true ->
  (let out := get_osm_ways ways h (sw, w) in
   polls w <= k < polls (snd (snd out)) ->
   fst out = inl Interrupted /\ fst (snd out) = sw /\
   polls (snd (snd out)) = S k /\ last (trace (snd (snd out))) = Some EvPoll) /\
  (let out := get_osm_nodes nodes h (sn, w) in
   polls w <= k < polls (snd (snd out)) ->
   fst out = inl Interrupted /\ fst (snd out) = sn /\
   polls (snd (snd out)) = S k /\ last (trace (snd (snd out))) = Some EvPoll) /\
  (let out := get_osm_relations tr rels h (sr, w) in
   polls w <= k < polls (snd (snd out)) ->
   fst out = inl Interrupted /\ fst (snd out) = sr /\
   polls (snd (snd out)) = S k /\ last (trace (snd (snd out))) = Some EvPoll).
Proof.
  intros Hp. split; [|split]; cbv zeta; intros Hk.
  - apply (interrupted_before_assignment (ways_fill ways)); try done.
    + apply orderly_ways_fill.
    + intros [[[edge_mat ole_mat] count_w] [kv_mat count_k]]. silent_tables.
  - apply (interrupted_before_assignment (nodes_fill nodes)); try done.
    + apply orderly_nodes_fill.
    + intros [[[node_ids node_mat] i] [kv_mat keyj]]. silent_tables.
  - apply (interrupted_before_assignment (relations_fill tr rels)); try done.
    + apply orderly_relations_fill.
    + intros [[rel_mat i] [kv_mat keyj]]. silent_tables.
Qed.

Lemma cancellation_assigns_nothing_witness :
  (pending cancelling_host 1 = true /\
   polls fresh_world <= 1 <
     polls (snd (snd (get_osm_ways sample_ways cancelling_host
                        (no_way_tables, fresh_world))))) /\
  fst (get_osm_ways sample_ways cancelling_host (no_way_tables, fresh_world)) =
    inl Interrupted /\
  fst (snd (get_osm_ways sample_ways cancelling_host (no_way_tables, fresh_world))) =
    no_way_tables.
Proof.
  assert (pending cancelling_host 1 = true) as Hp by reflexivity.
  assert (polls fresh_world <= 1 <
          polls (snd (snd (get_osm_ways sample_ways cancelling_host
                             (no_way_tables, fresh_world))))) as Hk
    by (vm_compute; lia).
  split; [by split|].
  destruct (cancellation_assigns_nothing cancelling_host tracer_copy sample_ways
              sample_nodes sample_relations no_way_tables no_node_tables
              no_rel_tables fresh_world 1 Hp) as (Hways & _).
  destruct (Hways Hk) as (Hr & Hs & _). by split.
Defined.

(** ** The relation flattener, whatever the tracer returns *)

Lemma traced_total_members tr rels :
  kv_total (rel_members tr rels) = traced_total tr rels.
Proof.
  unfold kv_total, traced_total, rel_members. rewrite <- list_fmap_compose.
  f_equal. apply list_fmap_ext. intros _ r _. simpl. apply length_fmap.
Qed.

Lemma column_pmat_pad {A} (dflt : A) lbl n fs j f :
  Forall (fun f => length f <= n) fs -> fs !! j = Some f ->
  column (pmat dflt lbl n fs) j = pad dflt n f.
Proof.
  intros Hall Hj. unfold column. simpl.
  apply (column_concat_uniform n).
  - by apply Forall_pad.
  - by rewrite list_lookup_fmap, Hj.
Qed.

Section RelationsShort.
Context (tr : Relation.t -> osm_str_vec * list (string * string)).
Context (h : host) (Hquiet : never_interrupts h) (rels : Relations).
Context (HN : fits_int (ways_total rels)).
Context (HK : fits_int (kv_total (rel_tags rels))).
Context (Hle : traced_total tr rels <= ways_total rels).

Lemma relations_fill_short_run s w :
  relations_fill tr rels h (s, w) =
  (inr ((pmat EmptyString "rel_mat" (ways_total rels)
           [kv_objects (rel_members tr rels); kv_keys (rel_members tr rels);
            kv_values (rel_members tr rels)],
         traced_total tr rels),
        (pmat EmptyString "kv_mat" (kv_total (rel_tags rels))
           [kv_objects (rel_tags rels); kv_keys (rel_tags rels);
            kv_values (rel_tags rels)],
         kv_total (rel_tags rels))),
   (s, adv (length rels) 0
         (relations_events tr "rel_mat" "kv_mat" 0 0 rels) w)).
Proof.
  unfold fits_int in *.
  unfold relations_fill. rewrite relations_count_eq.
  unfold new_CharacterMatrix.
  erewrite bind_inr by (apply new_Matrix_run; unfold INT_MAX in *; lia).
  erewrite bind_inr by (apply new_Matrix_run; unfold INT_MAX in *; lia).
  rewrite !Nat2Z.id.
  change (replicate (Z.to_nat 3) []) with [@nil string; []; []].
  pose proof (traced_total_members tr rels) as Htot.
  pose proof (relations_loop_run tr h Hquiet "rel_mat" "kv_mat" (ways_total rels)
                (kv_total (rel_tags rels)) rels
                [] [] [] [] [] [] s w eq_refl eq_refl eq_refl eq_refl) as Hrun.
  cbn [length Nat.add app] in Hrun. rewrite Htot in Hrun.
  apply Hrun; lia.
Qed.

Lemma get_osm_relations_short_run s w :
  get_osm_relations tr rels h (s, w) =
  (inr tt,
   ({| rel_df :=
         {| df_columns :=
              [("object_"%string,
                CharacterColumn
                  (pad EmptyString (ways_total rels) (kv_objects (rel_members tr rels))));
               ("ref"%string,
                CharacterColumn
                  (pad EmptyString (ways_total rels) (kv_keys (rel_members tr rels))));
               ("role"%string,
                CharacterColumn
                  (pad EmptyString (ways_total rels)
                     (kv_values (rel_members tr rels))))] |};
       rel_kv_df := rel_kv_df (relations_tables tr rels) |},
    adv (length rels) 0 (relations_events tr "rel_mat" "kv_mat" 0 0 rels) w)).
Proof.
  unfold get_osm_relations. erewrite bind_inr by apply relations_fill_short_run.
  cbv beta iota.
  pose proof (traced_total_members tr rels) as Htot.
  pose proof (length_kv_objects (rel_members tr rels)) as L1.
  pose proof (length_kv_keys (rel_members tr rels)) as L2.
  pose proof (length_kv_values (rel_members tr rels)) as L3.
  pose proof (length_kv_objects (rel_tags rels)) as L4.
  pose proof (length_kv_keys (rel_tags rels)) as L5.
  pose proof (length_kv_values (rel_tags rels)) as L6.
  assert (Forall (fun f : list string => length f <= ways_total rels)
            [kv_objects (rel_members tr rels); kv_keys (rel_members tr rels);
             kv_values (rel_members tr rels)]) as Hall
    by (repeat constructor; lia).
  rewrite (column_pmat_pad _ _ _ _ 0 _ Hall eq_refl).
  rewrite (column_pmat_pad _ _ _ _ 1 _ Hall eq_refl).
  rewrite (column_pmat_pad _ _ _ _ 2 _ Hall eq_refl).
  rewrite !column3_0, !column3_1, !column3_2 by lia.
  unfold Named.
  erewrite bind_inr
    by (apply DataFrame_create_run; repeat constructor; simpl;
        rewrite !length_pad; lia).
  unfold assign at 1. unfold bind at 1. cbn [fst snd].
  erewrite bind_inr
    by (apply DataFrame_create_run; repeat constructor; simpl; lia).
  reflexivity.
Qed.
End RelationsShort.

Lemma store_inv {R A} (m : Matrix A) i j v h (σ : R * world) m' σ' :
  store m i j v h σ = (inr m', σ') ->
  i + nrow m * j < length (cells m) /\ same_shape m m'.
Proof.
  intros Hrun. split; [|by eapply store_shape].
  unfold store in Hrun.
  destruct (Nat.ltb_spec (i + nrow m * j) (length (cells m))); [done|discriminate].
Qed.

Section Failures.
Context {R : Type} (h : host) (Hquiet : never_interrupts h).

Lemma overrun_ret {A} (a : A) : fails_only_with OutOfBounds h (ret (R := R) a).
Proof. intros σ e σ' H. discriminate. Qed.

Lemma overrun_bind {A B} (m : M R A) (f : A -> M R B) :
  fails_only_with OutOfBounds h m ->
  (forall a, fails_only_with OutOfBounds h (f a)) ->
  fails_only_with OutOfBounds h (bind m f).
Proof.
  intros Hm Hf σ e σ' Hrun. unfold bind in Hrun.
  destruct (m h σ) as [[e1|a] σ1] eqn:E.
  - injection Hrun as <- _. exact (Hm _ _ _ E).
  - exact (Hf a _ _ _ Hrun).
Qed.

Lemma overrun_store {A} (m : Matrix A) i j v :
  fails_only_with OutOfBounds h (store (R := R) m i j v).
Proof.
  intros σ e σ' Hrun. unfold store in Hrun. destruct (_ <? _).
  - discriminate.
  - by injection Hrun as <- _.
Qed.

Lemma overrun_checkUserInterrupt :
  fails_only_with OutOfBounds h (checkUserInterrupt (R := R)).
Proof.
  intros [s w] e σ' Hrun. unfold checkUserInterrupt in Hrun.
  cbn [fst snd] in Hrun. rewrite Hquiet in Hrun. discriminate.
Qed.

Lemma overrun_for_each {X L} (body : X -> L -> M R L) (l : list X) :
  (forall x st, fails_only_with OutOfBounds h (body x st)) ->
  forall st, fails_only_with OutOfBounds h (for_each l body st).
Proof.
  intros Hbody. induction l as [|x l IH]; intros st; cbn [for_each].
  - apply overrun_ret.
  - apply overrun_bind; auto.
Qed.

Lemma overrun_store_key_val obj kv st :
  fails_only_with OutOfBounds h (store_key_val (R := R) obj kv st).
Proof.
  destruct st as [kv_mat k]. unfold store_key_val.
  repeat (apply overrun_bind; [apply overrun_store|intros]). apply overrun_ret.
Qed.
End Failures.

Section RelationsLong.
Context (tr : Relation.t -> osm_str_vec * list (string * string)).
Context (h : host).

(** A returning loop over the members has advanced the row counter by their
    number, inside the matrix. *)
Lemma members_loop_counter rel l : forall rel_mat i σ rel_mat' i' σ',
  length (cells rel_mat) = nrow rel_mat * 3 -> i <= nrow rel_mat ->
  for_each l (store_member rel) (rel_mat, i) h σ = (inr (rel_mat', i'), σ') ->
  i' = i + length l /\ i' <= nrow rel_mat /\ same_shape rel_mat rel_mat'.
Proof.
  induction l as [|r l IH]; intros rel_mat i σ rel_mat' i' σ' Hcells Hi Hrun.
  - injection Hrun as <- <- _. split; [simpl; lia|]. split; [done|].
    apply same_shape_refl.
  - cbn [for_each] in Hrun.
    apply bind_inr_inv in Hrun as ([m1 i1] & σ1 & Hstep & Hrun).
    pose proof (store_member_shape _ _ _ _ _ _ _ Hstep) as Hshape.
    cbn [fst] in Hshape.
    unfold store_member in Hstep.
    apply bind_inr_inv in Hstep as (ma & σa & Ha & Hstep).
    apply bind_inr_inv in Hstep as (mb & σb & Hb & Hstep).
    apply bind_inr_inv in Hstep as (mc & σc & Hc & Hstep).
    injection Hstep as -> <- _.
    apply store_inv in Ha as [_ (_ & Hna & _ & Hca)].
    apply store_inv in Hb as [_ (_ & Hnb & _ & Hcb)].
    apply store_inv in Hc as [Hlt _].
    destruct Hshape as (Hl1 & Hn1 & Hc1 & Hcells1).
    apply IH in Hrun as (-> & Hle & Hshape2); [| lia | lia].
    split; [simpl; lia|]. split; [lia|].
    eapply same_shape_trans; [|exact Hshape2]. by repeat split.
Qed.

Lemma relations_loop_counter rels : forall rel_mat i kv_st σ rel_mat' i' kv_st' σ',
  length (cells rel_mat) = nrow rel_mat * 3 -> i <= nrow rel_mat ->
  for_each rels (relations_body tr) ((rel_mat, i), kv_st) h σ =
    (inr ((rel_mat', i'), kv_st'), σ') ->
  i' = i + traced_total tr rels /\ i' <= nrow rel_mat.
Proof.
  induction rels as [|r rels IH];
    intros rel_mat i kv_st σ rel_mat' i' kv_st' σ' Hcells Hi Hrun.
  - injection Hrun as <- <- _ _. change (traced_total tr []) with 0. lia.
  - cbn [for_each] in Hrun.
    apply bind_inr_inv in Hrun as ([[rel_mat1 i1] kv_st1] & σ1 & Hbody & Hrun).
    unfold relations_body in Hbody.
    apply bind_inr_inv in Hbody as ([] & σ0 & _ & Hbody).
    change (traced_total tr (r :: rels))
      with (length (fst (tr r)) + traced_total tr rels).
    destruct (tr r) as [relation_ways relation_kv]. cbn [fst].
    apply bind_inr_inv in Hbody as ([rel_mat2 i2] & σ2 & Hmem & Hbody).
    apply bind_inr_inv in Hbody as (kv_st2 & σ3 & _ & Hbody).
    injection Hbody as <- <- _ _.
    apply members_loop_counter in Hmem as (-> & Hle & (_ & Hn & _ & Hc)); [|done|done].
    apply IH in Hrun as [-> Hle2]; [|lia|lia]. lia.
Qed.
End RelationsLong.

(** With more pairs returned than ways listed, the fill pass runs off the
    member matrix. *)
Lemma relations_fill_overruns tr (rels : Relations) h s w :
  never_interrupts h ->
  fits_int (ways_total rels) -> fits_int (kv_total (rel_tags rels)) ->
  ways_total rels < traced_total tr rels ->
  exists w', relations_fill tr rels h (s, w) = (inl OutOfBounds, (s, w')).
Proof.
  intros Hquiet HN HK Hlt. unfold fits_int in *.
  pose proof (orderly_relations_fill tr rels h s w) as Hord. cbv zeta in Hord.
  destruct (relations_fill tr rels h (s, w)) as [r [s1 w1]] eqn:Hfill.
  cbn [fst snd] in Hord. destruct Hord as (-> & _).
  exists w1. do 2 f_equal.
  unfold relations_fill in Hfill. rewrite relations_count_eq in Hfill.
  unfold new_CharacterMatrix in Hfill.
  erewrite bind_inr in Hfill by (apply new_Matrix_run; unfold INT_MAX in *; lia).
  erewrite bind_inr in Hfill by (apply new_Matrix_run; unfold INT_MAX in *; lia).
  rewrite !Nat2Z.id in Hfill.
  destruct r as [e|[[rel_mat i] kv_st]].
  - f_equal. revert Hfill. apply overrun_for_each.
    intros itr [rel_st kv_st]. unfold relations_body.
    apply overrun_bind; [by apply overrun_checkUserInterrupt|intros _].
    destruct (tr itr) as [relation_ways relation_kv].
    apply overrun_bind.
    { apply overrun_for_each. intros x [rel_mat i]. unfold store_member.
      repeat (apply overrun_bind; [apply overrun_store|intros]).
      apply overrun_ret. }
    intros. apply overrun_bind; [|intros; apply overrun_ret].
    apply overrun_for_each. intros. apply overrun_store_key_val.
  - apply relations_loop_counter in Hfill as [-> Hle].
    + cbn [nrow pmat] in Hle. lia.
    + unfold pmat. cbn [cells nrow].
      rewrite (length_concat_uniform (ways_total rels)).
      * rewrite length_fmap, length_replicate. simpl. lia.
      * apply Forall_pad. apply Forall_replicate. simpl. lia.
    + lia.
Qed.

(** ** C2: the rows of the member table *)

(** C2, the failing input.  For a relation that lists one way and a tracer
    that returns no pair for it, [get_osm_relations] returns a member table
    of one row, while the total length of the tracer's pair lists is 0. *)
Lemma relation_rows_counterexample :
  exists s' w',
    get_osm_relations tracer_none sample_relations quiet_host
      (no_rel_tables, fresh_world) = (inr tt, (s', w')) /\
    df_nrow (rel_df s') = 1 /\
    traced_total tracer_none sample_relations = 0 /\
    df_nrow (rel_df s') <> traced_total tracer_none sample_relations.
Proof. eexists _, _. vm_compute. repeat split; discriminate. Qed.

(** C2.  [get_osm_relations] sizes the member table by the ways the
    relations list, while it fills it with the pairs the tracer returns.
    When the row totals fit an [int]: whenever the call returns, the table
    has as many rows as the relations list ways; this is the total length
    of the tracer's pair lists, what the specification states, when the two
    totals agree, and then, no interrupt pending, the call does return and
    the table holds one row per pair; it is not when they differ. *)
Theorem relation_rows_counted tr (rels : Relations) h s w :
  fits_int (ways_total rels) -> fits_int (kv_total (rel_tags rels)) ->
  (forall s' w',
     get_osm_relations tr rels h (s, w) = (inr tt, (s', w')) ->
     df_nrow (rel_df s') = ways_total rels) /\
  (never_interrupts h -> traced_total tr rels = ways_total rels ->
   exists s' w',
     get_osm_relations tr rels h (s, w) = (inr tt, (s', w')) /\
     df_nrow (rel_df s') = traced_total tr rels /\
     rel_df s' = rel_df (relations_tables tr rels)) /\
  (forall s' w',
     get_osm_relations tr rels h (s, w) = (inr tt, (s', w')) ->
     traced_total tr rels <> ways_total rels ->
     df_nrow (rel_df s') <> traced_total tr rels).
Proof.
  intros HN HK.
  assert (forall s' w',
            get_osm_relations tr rels h (s, w) = (inr tt, (s', w')) ->
            df_nrow (rel_df s') = ways_total rels) as Hrows.
  { intros s' w' Hrun. unfold fits_int in *.
    by destruct (get_osm_relations_returns tr h rels HN HK _ _ _ Hrun). }
  split; [exact Hrows|]. split.
  - intros Hquiet Htot.
    rewrite (get_osm_relations_short_run tr h Hquiet rels HN HK) by lia.
    eexists _, _. split; [reflexivity|]. cbn [rel_df].
    pose proof (traced_total_members tr rels) as Hmem.
    pose proof (length_kv_objects (rel_members tr rels)) as L1.
    pose proof (length_kv_keys (rel_members tr rels)) as L2.
    pose proof (length_kv_values (rel_members tr rels)) as L3.
    rewrite !pad_full by lia. split; [|reflexivity].
    unfold df_nrow. cbn [df_columns column_length]. lia.
  - intros s' w' Hrun Hne. rewrite (Hrows s' w' Hrun). congruence.
Qed.

Lemma relation_rows_counted_witness :
  (fits_int (ways_total sample_relations) /\
   fits_int (kv_total (rel_tags sample_relations)) /\
   never_interrupts quiet_host /\
   traced_total tracer_copy sample_relations = ways_total sample_relations) /\
  exists s' w',
    get_osm_relations tracer_copy sample_relations quiet_host
      (no_rel_tables, fresh_world) = (inr tt, (s', w')) /\
    df_nrow (rel_df s') = 1 /\
    traced_total tracer_copy sample_relations = 1.
Proof.
  assert (fits_int (ways_total sample_relations)) as HN by (vm_compute; discriminate).
  assert (fits_int (kv_total (rel_tags sample_relations))) as HK
    by (vm_compute; discriminate).
  assert (traced_total tracer_copy sample_relations = ways_total sample_relations)
    as Hlen by reflexivity.
  split; [auto using quiet_host_never_interrupts|].
  destruct (relation_rows_counted tracer_copy sample_relations quiet_host
              no_rel_tables fresh_world HN HK) as (_ & Hrun & _).
  destruct (Hrun quiet_host_never_interrupts Hlen) as (s' & w' & Hs & Hrows & _).
  exists s', w'. split; [exact Hs|]. split; [exact Hrows|reflexivity].
Defined.

(** ** C3: the counts of the first loops *)

(** C3, the failing inputs.  The member matrix of [get_osm_relations] is
    allocated for the ways the relations list and filled with the pairs the
    tracer returns.  For a relation that lists one way, a tracer that
    returns two pairs makes the fill pass store at row 1 of the one-row
    matrix and end with a store past its storage, and a tracer that returns
    none leaves row 0 unwritten. *)
Lemma fill_pass_counterexample :
  (ways_total sample_relations = 1 /\
   exists s' w',
     relations_fill tracer_two sample_relations quiet_host
       (no_rel_tables, fresh_world) = (inl OutOfBounds, (s', w')) /\
     EvStore "rel_mat" 1 0 ∈ trace w') /\
  (exists rel_mat kv_st s' w',
     relations_fill tracer_none sample_relations quiet_host
       (no_rel_tables, fresh_world) = (inr ((rel_mat, 0), kv_st), (s', w')) /\
     nrow rel_mat = 1 /\ EvStore "rel_mat" 0 0 ∉ trace w').
Proof.
  split.
  - split; [reflexivity|]. eexists _, _. vm_compute. split; [reflexivity|].
    apply list_elem_of_In. simpl. tauto.
  - eexists _, _, _, _. vm_compute. split; [reflexivity|]. split; [reflexivity|].
    intros Hin. apply list_elem_of_In in Hin. simpl in Hin.
    repeat (destruct Hin as [Hin|Hin]; [discriminate|]). done.
Qed.

Ltac exact_fill_with elem_lemma :=
  unfold exact_fill; cbn [pmat label nrow ncol length];
  split; [reflexivity|]; split; [reflexivity|];
  let i := fresh "i" in let j := fresh "j" in
  intros i j; rewrite elem_lemma; split.

(** C3.  When no interrupt is pending, the draws are uniform and the row
    totals fit an [int]: the fill passes of [get_osm_ways] and of
    [get_osm_nodes] return, and for each of their matrices the number of
    rows written is the number the first loop counted and the number of
    rows allocated; the stores hit every cell of the matrix and nothing
    outside of it.  In [get_osm_relations] the first loop counts the member
    rows from the ways the relations list, and the fill pass writes one per
    pair the tracer returns.  With at most as many pairs as counted the
    pass returns, the key-value matrix is filled exactly, and the member
    matrix has its first rows written, one per pair: all of its rows, as
    the specification states, only if the two totals agree.  With more
    pairs the pass ends with a store past the storage. *)
Theorem fill_pass_exact h tr (ways : Ways) (nodes : Nodes) (rels : Relations)
    sw sn sr w :
  never_interrupts h -> uniform_source h ->
  fits_int (edge_total ways) -> fits_int (kv_total (way_tags ways)) ->
  fits_int (length nodes) -> fits_int (kv_total (node_tags nodes)) ->
  fits_int (ways_total rels) -> fits_int (kv_total (rel_tags rels)) ->
  (exists edge_mat object_link_edge_mat count_w kv_mat count_k w' evs,
     ways_fill ways h (sw, w) =
       (inr ((edge_mat, object_link_edge_mat, count_w), (kv_mat, count_k)),
        (sw, w')) /\
     trace w' = trace w ++ evs /\
     exact_fill evs edge_mat count_w (fst (ways_count ways)) /\
     exact_fill evs object_link_edge_mat count_w (fst (ways_count ways)) /\
     exact_fill evs kv_mat count_k (snd (ways_count ways))) /\
  (exists node_ids node_mat i kv_mat keyj w' evs,
     nodes_fill nodes h (sn, w) =
       (inr ((node_ids, node_mat, i), (kv_mat, keyj)), (sn, w')) /\
     trace w' = trace w ++ evs /\
     exact_fill evs node_ids i (Z.of_nat (length nodes)) /\
     exact_fill evs node_mat i (Z.of_nat (length nodes)) /\
     exact_fill evs kv_mat keyj (nodes_count nodes)) /\
  (traced_total tr rels <= ways_total rels ->
   exists rel_mat i_rel_mat kv_mat i_kv_mat w' evs,
     relations_fill tr rels h (sr, w) =
       (inr ((rel_mat, i_rel_mat), (kv_mat, i_kv_mat)), (sr, w')) /\
     trace w' = trace w ++ evs /\
     exact_fill evs kv_mat i_kv_mat (fst (relations_count rels)) /\
     Z.of_nat (nrow rel_mat) = snd (relations_count rels) /\
     i_rel_mat = traced_total tr rels /\
     fills evs (label rel_mat) i_rel_mat (ncol rel_mat) /\
     (traced_total tr rels = ways_total rels ->
      exact_fill evs rel_mat i_rel_mat (snd (relations_count rels)))) /\
  (ways_total rels < traced_total tr rels ->
   exists w', relations_fill tr rels h (sr, w) = (inl OutOfBounds, (sr, w'))).
Proof.
  intros Hquiet Hunif HE HKw HN HKn HM HKr.
  split; [|split; [|split]].
  - unfold fits_int in *.
    rewrite (ways_fill_run h Hquiet Hunif ways HE HKw), ways_count_small by done.
    eexists _, _, _, _, _, _, _. split; [reflexivity|]. split; [reflexivity|].
    cbn [fst snd]. split; [|split]; exact_fill_with elem_ways_events.
    + intros [(Hi & [(_ & Hj)|(Hne & _)])|(Hne & _)];
        [lia|discriminate|discriminate].
    + intros [Hi Hj]. left. split; [lia|]. by left.
    + intros [(Hi & [(Hne & _)|(_ & Hj)])|(Hne & _)];
        [discriminate|lia|discriminate].
    + intros [Hi Hj]. left. split; [lia|]. by right.
    + intros [(Hi & [(Hne & _)|(Hne & _)])|(_ & Hi & Hj)];
        [discriminate|discriminate|lia].
    + intros [Hi Hj]. right. repeat split; lia.
  - unfold fits_int in *.
    rewrite (nodes_fill_run h Hquiet nodes HN HKn).
    unfold nodes_count. rewrite nodes_count_from by lia. rewrite Z.add_0_l.
    eexists _, _, _, _, _, _, _. split; [reflexivity|]. split; [reflexivity|].
    split; [|split]; exact_fill_with elem_nodes_events.
    + intros [(Hi & [(_ & Hj)|(Hne & _)])|(Hne & _)];
        [lia|discriminate|discriminate].
    + intros [Hi Hj]. left. split; [lia|]. by left.
    + intros [(Hi & [(Hne & _)|(_ & Hj)])|(Hne & _)];
        [discriminate|lia|discriminate].
    + intros [Hi Hj]. left. split; [lia|]. by right.
    + intros [(Hi & [(Hne & _)|(Hne & _)])|(_ & Hi & Hj)];
        [discriminate|discriminate|lia].
    + intros [Hi Hj]. right. repeat split; lia.
  - intros Hle.
    rewrite (relations_fill_short_run tr h Hquiet rels HM HKr Hle),
      relations_count_eq.
    pose proof (traced_total_members tr rels) as Htot.
    eexists _, _, _, _, _, _. split; [reflexivity|]. split; [reflexivity|].
    cbn [fst snd]. split; [|split; [|split; [|split]]].
    + exact_fill_with elem_relations_events.
      * intros [(Hne & _)|(_ & Hi & Hj)]; [discriminate|lia].
      * intros [Hi Hj]. right. repeat split; lia.
    + reflexivity.
    + reflexivity.
    + intros i j. cbn [pmat label ncol length]. rewrite elem_relations_events.
      rewrite Htot. split.
      * intros [(_ & Hi & Hj)|(Hne & _)]; [lia|discriminate].
      * intros [Hi Hj]. left. repeat split; lia.
    + intros Heq. unfold exact_fill. cbn [pmat label nrow ncol length].
      split; [by rewrite Heq|]. split; [done|].
      intros i j. rewrite elem_relations_events, Htot. split.
      * intros [(_ & Hi & Hj)|(Hne & _)]; [lia|discriminate].
      * intros [Hi Hj]. left. repeat split; lia.
  - apply relations_fill_overruns; done.
Qed.

Lemma fill_pass_exact_witness :
  (never_interrupts quiet_host /\ uniform_source quiet_host /\
   fits_int (edge_total sample_ways) /\ fits_int (kv_total (way_tags sample_ways)) /\
   fits_int (length sample_nodes) /\ fits_int (kv_total (node_tags sample_nodes)) /\
   fits_int (ways_total sample_relations) /\
   fits_int (kv_total (rel_tags sample_relations))) /\
  exists edge_mat object_link_edge_mat kv_mat w',
    ways_fill sample_ways quiet_host (no_way_tables, fresh_world) =
      (inr ((edge_mat, object_link_edge_mat, 2), (kv_mat, 1)),
       (no_way_tables, w')) /\
    ways_count sample_ways = (2%Z, 1%Z) /\
    nrow edge_mat = 2 /\ nrow object_link_edge_mat = 2 /\ nrow kv_mat = 1.
Proof.
  assert (fits_int (edge_total sample_ways)) as H1 by (vm_compute; discriminate).
  assert (fits_int (kv_total (way_tags sample_ways))) as H2
    by (vm_compute; discriminate).
  assert (fits_int (length sample_nodes)) as H3 by (vm_compute; discriminate).
  assert (fits_int (kv_total (node_tags sample_nodes))) as H4
    by (vm_compute; discriminate).
  assert (fits_int (ways_total sample_relations)) as H5 by (vm_compute; discriminate).
  assert (fits_int (kv_total (rel_tags sample_relations))) as H6
    by (vm_compute; discriminate).
  split; [auto 10 using quiet_host_never_interrupts, quiet_host_uniform|].
  destruct (fill_pass_exact quiet_host tracer_copy sample_ways sample_nodes
              sample_relations no_way_tables no_node_tables no_rel_tables
              fresh_world quiet_host_never_interrupts quiet_host_uniform
              H1 H2 H3 H4 H5 H6)
    as ((edge_mat & ole_mat & count_w & kv_mat & count_k & w' & evs & Hrun & _
         & (Hc1 & Hn1 & _) & (_ & Hn2 & _) & (Hc2 & Hn3 & _)) & _).
  assert (ways_count sample_ways = (2%Z, 1%Z)) as Hcount by reflexivity.
  rewrite Hcount in Hc1, Hc2. cbn [fst snd] in Hc1, Hc2.
  assert (count_w = 2) as -> by lia. assert (count_k = 1) as -> by lia.
  exists edge_mat, ole_mat, kv_mat, w'. by repeat split.
Defined.

(** ** C8 and C9: the list the entry point returns *)

Lemma rcpp_osmdata_sc_returns parse st h σ ret σ' :
  rcpp_osmdata_sc parse st h σ = (inr ret, σ') ->
  exists vertex edge oXe obj_node obj_way obj_rel,
    ret = {| elements := [vertex; edge; oXe; obj_node; obj_way; obj_rel];
             names := table_names |}.
Proof.
  unfold rcpp_osmdata_sc. intros Hrun.
  apply bind_inr_inv in Hrun as (vertex & σ1 & _ & Hrun).
  apply bind_inr_inv in Hrun as (edge & σ2 & _ & Hrun).
  apply bind_inr_inv in Hrun as (oXe & σ3 & _ & Hrun).
  apply bind_inr_inv in Hrun as (obj_node & σ4 & _ & Hrun).
  apply bind_inr_inv in Hrun as (obj_way & σ5 & _ & Hrun).
  apply bind_inr_inv in Hrun as (obj_rel & σ6 & _ & Hrun).
  injection Hrun as <- _.
  by exists vertex, edge, oXe, obj_node, obj_way, obj_rel.
Qed.

(** The list returned when the accessors of each table hand out columns
    of one length: no column is recycled. *)
Lemma rcpp_osmdata_sc_tables parse st h (σ : unit * world) :
  xml_consistent (parse st) ->
  rcpp_osmdata_sc parse st h σ =
    (inr {| elements :=
              [{| df_columns :=
                    [("x", NumericColumn (XmlDataSC.vx (parse st)));
                     ("y", NumericColumn (XmlDataSC.vy (parse st)));
                     ("vertex_", CharacterColumn (XmlDataSC.vert_id (parse st)))] |};
               {| df_columns :=
                    [(".vx0", CharacterColumn (XmlDataSC.vx0 (parse st)));
                     (".vx1", CharacterColumn (XmlDataSC.vx1 (parse st)));
                     ("edge_", CharacterColumn (XmlDataSC.edge (parse st)))] |};
               {| df_columns :=
                    [("edge_", CharacterColumn (XmlDataSC.edge (parse st)));
                     ("object_", CharacterColumn (XmlDataSC.object (parse st)))] |};
               {| df_columns :=
                    [("object_", CharacterColumn (XmlDataSC.node_id (parse st)));
                     ("key", CharacterColumn (XmlDataSC.node_key (parse st)));
                     ("val", CharacterColumn (XmlDataSC.node_val (parse st)))] |};
               {| df_columns :=
                    [("object_", CharacterColumn (XmlDataSC.way_id (parse st)));
                     ("key", CharacterColumn (XmlDataSC.way_key (parse st)));
                     ("val", CharacterColumn (XmlDataSC.way_val (parse st)))] |};
               {| df_columns :=
                    [("object_", CharacterColumn (XmlDataSC.rel_id (parse st)));
                     ("key", CharacterColumn (XmlDataSC.rel_key (parse st)));
                     ("val", CharacterColumn (XmlDataSC.rel_val (parse st)))] |}]%string;
            names := table_names |}, σ).
Proof.
  intros ((V1 & V2) & (E1 & E2) & O1 & (N1 & N2) & (W1 & W2) & (R1 & R2)).
  unfold rcpp_osmdata_sc, Named.
  do 6 (erewrite bind_inr
          by (apply DataFrame_create_run; repeat constructor; simpl; lia)).
  reflexivity.
Qed.

Lemma rcpp_osmdata_sc_run parse st h (σ : unit * world) :
  xml_consistent (parse st) ->
  exists ret, rcpp_osmdata_sc parse st h σ = (inr ret, σ) /\
    length (elements ret) = 6 /\ names ret = table_names.
Proof.
  intros Hc. rewrite rcpp_osmdata_sc_tables by done.
  eexists. split; [reflexivity|]. by split.
Qed.

Lemma sample_parse_consistent st : xml_consistent (sample_parse st).
Proof. by repeat split. Qed.

(** C8. Whenever [rcpp_osmdata_sc] returns, it returns a list of exactly
    six tables named, in order, vertex, edge, object_link_edge, obj_node,
    obj_way, obj_rel; it does return for every input string on which the
    parser hands out, for each table, columns of one length. *)
Theorem entry_point_six_tables parse st h (σ : unit * world) :
  (forall ret σ', rcpp_osmdata_sc parse st h σ = (inr ret, σ') ->
     length (elements ret) = 6 /\
     names ret = ["vertex"; "edge"; "object_link_edge";
                  "obj_node"; "obj_way"; "obj_rel"]%string) /\
  (xml_consistent (parse st) ->
   exists ret, rcpp_osmdata_sc parse st h σ = (inr ret, σ) /\
     length (elements ret) = 6 /\
     names ret = ["vertex"; "edge"; "object_link_edge";
                  "obj_node"; "obj_way"; "obj_rel"]%string).
Proof.
  split.
  - intros ret σ' Hrun.
    apply rcpp_osmdata_sc_returns in Hrun
      as (vertex & edge & oXe & obj_node & obj_way & obj_rel & ->).
    by split.
  - apply rcpp_osmdata_sc_run.
Qed.

Lemma entry_point_six_tables_witness :
  xml_consistent (sample_parse "<osm/>") /\
  exists ret,
    rcpp_osmdata_sc sample_parse "<osm/>" quiet_host (tt, fresh_world) =
      (inr ret, (tt, fresh_world)) /\
    length (elements ret) = 6 /\
    names ret = ["vertex"; "edge"; "object_link_edge";
                 "obj_node"; "obj_way"; "obj_rel"]%string.
Proof.
  split; [apply sample_parse_consistent|].
  exact (proj2 (entry_point_six_tables sample_parse "<osm/>" quiet_host
                  (tt, fresh_world)) (sample_parse_consistent "<osm/>")).
Defined.

(** C9. On every input string on which the parser hands out, for each
    table, columns of one length, [rcpp_osmdata_sc] returns a list whose
    second table is the edge table and whose third is the linkage table;
    their [edge_] columns are one and the same sequence, the one the
    parser's accessor [edge ()] hands out, so the two tables have the same
    number of rows and the same identifier in every row. *)
Theorem entry_point_edge_ids_shared parse st h (σ : unit * world) :
  xml_consistent (parse st) ->
  exists ret edge oXe ids,
    rcpp_osmdata_sc parse st h σ = (inr ret, σ) /\
    elements ret !! 1 = Some edge /\ names ret !! 1 = Some "edge"%string /\
    elements ret !! 2 = Some oXe /\
    names ret !! 2 = Some "object_link_edge"%string /\
    df_column "edge_" edge = Some (CharacterColumn ids) /\
    df_column "edge_" oXe = Some (CharacterColumn ids) /\
    ids = XmlDataSC.edge (parse st) /\
    df_nrow edge = length ids /\ df_nrow oXe = length ids.
Proof.
  intros Hc. rewrite rcpp_osmdata_sc_tables by done.
  destruct Hc as (_ & (_ & E2) & _).
  eexists _, _, _, _. split; [reflexivity|].
  do 7 (split; [reflexivity|]). split; [|reflexivity].
  unfold df_nrow. cbn [df_columns column_length]. by rewrite E2.
Qed.

Lemma entry_point_edge_ids_shared_witness :
  xml_consistent (sample_parse "<osm/>") /\
  exists ret edge oXe,
    rcpp_osmdata_sc sample_parse "<osm/>" quiet_host (tt, fresh_world) =
      (inr ret, (tt, fresh_world)) /\
    elements ret !! 1 = Some edge /\ elements ret !! 2 = Some oXe /\
    df_column "edge_" edge = Some (CharacterColumn ["a1B2c3D4e5"%string]) /\
    df_column "edge_" oXe = Some (CharacterColumn ["a1B2c3D4e5"%string]) /\
    df_nrow edge = 1 /\ df_nrow oXe = 1.
Proof.
  split; [apply sample_parse_consistent|].
  destruct (entry_point_edge_ids_shared sample_parse "<osm/>" quiet_host
              (tt, fresh_world) (sample_parse_consistent "<osm/>"))
    as (ret & edge & oXe & ids & Hrun & H1 & _ & H2 & _ & H3 & H4 & -> & H5 & H6).
  exists ret, edge, oXe. by repeat split.
Defined.

(** ** C10: the tracer's tags *)

(** C10. The pairs of tags the tracer returns are read into no output:
    two tracers that return the same members and any tags make
    [get_osm_relations] end in the same way with the same tables; and
    whatever two tracers return, if the call returns with both, the two
    key-value tables are the same, the one built from the relations' own
    tags. *)
Theorem relation_tags_untraced tr1 tr2 (rels : Relations) h s w :
  fits_int (ways_total rels) -> fits_int (kv_total (rel_tags rels)) ->
  ((forall r, fst (tr1 r) = fst (tr2 r)) ->
   get_osm_relations tr1 rels h (s, w) = get_osm_relations tr2 rels h (s, w)) /\
  (forall s1 w1 s2 w2,
     get_osm_relations tr1 rels h (s, w) = (inr tt, (s1, w1)) ->
     get_osm_relations tr2 rels h (s, w) = (inr tt, (s2, w2)) ->
     rel_kv_df s1 = rel_kv_df s2 /\
     df_columns (rel_kv_df s1) =
       [("object_", CharacterColumn (kv_objects (rel_tags rels)));
        ("key", CharacterColumn (kv_keys (rel_tags rels)));
        ("value", CharacterColumn (kv_values (rel_tags rels)))]%string).
Proof.
  intros HN HK. unfold fits_int in *. split.
  - apply get_osm_relations_tracer_agree.
  - intros s1 w1 s2 w2 H1 H2.
    destruct (get_osm_relations_returns tr1 h rels HN HK _ _ _ H1) as [_ ->].
    destruct (get_osm_relations_returns tr2 h rels HN HK _ _ _ H2) as [_ ->].
    by split.
Qed.

Lemma relation_tags_untraced_witness :
  (fits_int (ways_total sample_relations) /\
   fits_int (kv_total (rel_tags sample_relations)) /\
   (forall r, fst (tracer_copy r) = fst (tracer_retagged r)) /\
   (snd ∘ tracer_copy <$> sample_relations) <>
     (snd ∘ tracer_retagged <$> sample_relations)) /\
  get_osm_relations tracer_copy sample_relations quiet_host
    (no_rel_tables, fresh_world) =
  get_osm_relations tracer_retagged sample_relations quiet_host
    (no_rel_tables, fresh_world).
Proof.
  assert (fits_int (ways_total sample_relations)) as HN by (vm_compute; discriminate).
  assert (fits_int (kv_total (rel_tags sample_relations))) as HK
    by (vm_compute; discriminate).
  assert (forall r, fst (tracer_copy r) = fst (tracer_retagged r)) as Hagree
    by reflexivity.
  split; [repeat split; try done; discriminate|].
  exact (proj1 (relation_tags_untraced tracer_copy tracer_retagged sample_relations
                  quiet_host no_rel_tables fresh_world HN HK) Hagree).
Defined.

(** * Further properties of the code *)

(** ** Empty input *)

(** X5. On empty containers each flattener returns its tables, with their
    columns and no row, and leaves the host alone: it makes no poll, so it
    returns even when an interrupt is pending, and no draw. *)
Theorem empty_input_tables h tr (sw : way_refs) (sn : node_refs) (sr : rel_refs) w :
  get_osm_ways [] h (sw, w) =
    (inr tt,
     ({| edge := {| df_columns := [(".vx0", CharacterColumn []);
                                   (".vx1", CharacterColumn []);
                                   ("edge_", CharacterColumn [])]%string |};
         object_link_edge :=
           {| df_columns := [("edge_", CharacterColumn []);
                             ("object_", CharacterColumn [])]%string |};
         way_kv_df :=
           {| df_columns := [("object_", CharacterColumn []);
                             ("key", CharacterColumn []);
                             ("value", CharacterColumn [])]%string |} |}, w)) /\
  get_osm_nodes [] h (sn, w) =
    (inr tt,
     ({| node_df := {| df_columns := [("x_", NumericColumn []);
                                      ("y_", NumericColumn []);
                                      ("vertex_", CharacterColumn [])]%string |};
         node_kv_df :=
           {| df_columns := [("object_", CharacterColumn []);
                             ("key", CharacterColumn []);
                             ("value", CharacterColumn [])]%string |} |}, w)) /\
  get_osm_relations tr [] h (sr, w) =
    (inr tt,
     ({| rel_df := {| df_columns := [("object_", CharacterColumn []);
                                     ("ref", CharacterColumn []);
                                     ("role", CharacterColumn [])]%string |};
         rel_kv_df :=
           {| df_columns := [("object_", CharacterColumn []);
                             ("key", CharacterColumn []);
                             ("value", CharacterColumn [])]%string |} |}, w)).
Proof. repeat split. Qed.

(** ** The counters of the first loops *)

Lemma wrap_int_range z : (- 2 ^ 31 <= wrap_int z < 2 ^ 31)%Z.
Proof.
  unfold wrap_int.
  pose proof (Z.mod_pos_bound (z + 2 ^ 31) (2 ^ 32) eq_refl). lia.
Qed.

Lemma wrap_int_add_l a b : wrap_int (wrap_int a + b) = wrap_int (a + b).
Proof.
  unfold wrap_int.
  replace ((a + 2 ^ 31) mod 2 ^ 32 - 2 ^ 31 + b + 2 ^ 31)%Z
    with ((a + 2 ^ 31) mod 2 ^ 32 + b)%Z by lia.
  rewrite Zplus_mod_idemp_l. do 2 f_equal. lia.
Qed.

Lemma wrap_int_idem z : wrap_int (wrap_int z) = wrap_int z.
Proof.
  transitivity (wrap_int (wrap_int z + 0)); [f_equal; lia|].
  rewrite wrap_int_add_l. f_equal. lia.
Qed.

Lemma ways_count_wrap_from ways : forall a b : Z,
  fold_left (fun '(nedges, nkv) (wi : osmid_t * OneWay.t) =>
               let n := Z.of_nat (length (OneWay.nodes (snd wi))) in
               ((if (0 <? n)%Z then wrap_int (nedges + (n - 1)) else nedges),
                wrap_int (nkv + Z.of_nat (length (OneWay.key_val (snd wi))))))
            ways (wrap_int a, wrap_int b) =
    (wrap_int (a + Z.of_nat (edge_total ways)),
     wrap_int (b + Z.of_nat (kv_total (way_tags ways)))).
Proof.
  induction ways as [|wi ways IH]; intros a b.
  - cbn [fold_left]. change (edge_total []) with 0.
    change (kv_total (way_tags [])) with 0. f_equal; f_equal; lia.
  - rewrite edge_total_cons, way_tags_cons, kv_total_cons.
    cbn [fst snd fold_left].
    set (n := length (OneWay.nodes (snd wi))).
    set (k := length (OneWay.key_val (snd wi))). cbv zeta.
    assert ((if (0 <? Z.of_nat n)%Z
             then wrap_int (wrap_int a + (Z.of_nat n - 1)) else wrap_int a)
            = wrap_int (a + Z.of_nat (n - 1))) as ->.
    { destruct (Z.ltb_spec 0 (Z.of_nat n)).
      - rewrite wrap_int_add_l. f_equal. lia.
      - f_equal. lia. }
    rewrite wrap_int_add_l, IH. f_equal; f_equal; lia.
Qed.

Lemma nodes_count_wrap_from nodes : forall a : Z,
  fold_left (fun nkeys (ni : osmid_t * Node.t) =>
               wrap_int (nkeys + Z.of_nat (length (Node.key_val (snd ni)))))
            nodes (wrap_int a) =
    wrap_int (a + Z.of_nat (kv_total (node_tags nodes))).
Proof.
  induction nodes as [|ni nodes IH]; intros a.
  - cbn [fold_left]. change (kv_total (node_tags [])) with 0. f_equal. lia.
  - rewrite node_tags_cons, kv_total_cons. cbn [fst snd fold_left].
    rewrite wrap_int_add_l, IH. f_equal. lia.
Qed.

Lemma ways_count_wrap ways :
  ways_count ways =
    (wrap_int (Z.of_nat (edge_total ways)),
     wrap_int (Z.of_nat (kv_total (way_tags ways)))).
Proof.
  unfold ways_count. change (0%Z, 0%Z) with (wrap_int 0, wrap_int 0).
  by rewrite ways_count_wrap_from.
Qed.

(** X14. The counters of the first loops are [int]s: for every input the
    counts of [get_osm_ways] and of [get_osm_nodes] are the true totals
    (edges; tags) brought into the range of [int] by a multiple of 2^32,
    hence the totals themselves as long as these fit. *)
Theorem prepass_counts_modular (ways : Ways) (nodes : Nodes) :
  ways_count ways =
    (wrap_int (Z.of_nat (edge_total ways)),
     wrap_int (Z.of_nat (kv_total (way_tags ways)))) /\
  nodes_count nodes = wrap_int (Z.of_nat (kv_total (node_tags nodes))) /\
  (forall z, (- 2 ^ 31 <= wrap_int z < 2 ^ 31)%Z /\
             ((wrap_int z - z) mod 2 ^ 32 = 0)%Z /\
             ((0 <= z <= INT_MAX)%Z -> wrap_int z = z)).
Proof.
  split; [|split].
  - apply ways_count_wrap.
  - unfold nodes_count. change 0%Z with (wrap_int 0) at 1.
    by rewrite nodes_count_wrap_from.
  - intros z. split; [apply wrap_int_range|]. split; [|apply wrap_int_small].
    unfold wrap_int.
    pose proof (Z.div_mod (z + 2 ^ 31) (2 ^ 32) ltac:(done)) as Hdm.
    replace ((z + 2 ^ 31) mod 2 ^ 32 - 2 ^ 31 - z)%Z
      with (- ((z + 2 ^ 31) / 2 ^ 32) * 2 ^ 32)%Z by lia.
    apply Z.mod_mul. done.
Qed.

(** X15. When the ways have more edges than an [int] holds (and fewer than
    2^32), the count of the first loop is negative and [get_osm_ways] ends
    with R's error on the allocation of the edge matrix, before any poll,
    draw or store; the caller's data frames are as they were. *)
Theorem too_many_edges_refused h (ways : Ways) s w :
  (INT_MAX < Z.of_nat (edge_total ways) < 2 ^ 32)%Z ->
  get_osm_ways ways h (s, w) = (inl NegativeExtent, (s, w)).
Proof.
  intros Hbig. unfold get_osm_ways, ways_fill. rewrite ways_count_wrap.
  unfold new_CharacterMatrix, new_Matrix, Dimension. cbn [fst snd].
  rewrite wrap_int_idem.
  assert (wrap_int (Z.of_nat (edge_total ways)) < 0)%Z as Hneg.
  { unfold wrap_int, INT_MAX in *.
    set (t := Z.of_nat (edge_total ways)) in *. clearbody t.
    replace (t + 2 ^ 31)%Z with ((t - 2 ^ 31) + 1 * 2 ^ 32)%Z by lia.
    rewrite Z.mod_add by done. rewrite Z.mod_small by lia. lia. }
  apply Z.ltb_lt in Hneg. rewrite Hneg. reflexivity.
Qed.

Lemma too_many_edges_refused_witness :
  (INT_MAX < Z.of_nat (edge_total long_way) < 2 ^ 32)%Z /\
  get_osm_ways long_way quiet_host (no_way_tables, fresh_world) =
    (inl NegativeExtent, (no_way_tables, fresh_world)).
Proof.
  assert (INT_MAX < Z.of_nat (edge_total long_way) < 2 ^ 32)%Z as Hbig.
  { unfold long_way. rewrite edge_total_cons. cbn [snd OneWay.nodes].
    rewrite length_replicate. change (edge_total []) with 0.
    rewrite Nat.add_0_r, Nat2Z.inj_sub, Z2Nat.id; unfold INT_MAX.
    - lia.
    - lia.
    - apply Nat2Z.inj_le. rewrite Z2Nat.id; lia. }
  split; [exact Hbig|].
  exact (too_many_edges_refused quiet_host long_way no_way_tables fresh_world Hbig).
Defined.

(** ** The identifier generator *)

Lemma list_ascii_of_string_of_list_ascii l :
  list_ascii_of_string (string_of_list_ascii l) = l.
Proof. induction l as [|c l IH]; simpl; congruence. Qed.

(** X6. For any length [len] and a source of draws of [0, 1), [random_id]
    returns a string of exactly [len] characters after exactly [len] draws
    and nothing else; its [j]-th character is the symbol selected by the
    [j]-th of these draws, a digit or a letter.  For length 0 it returns the
    empty string without a draw. *)
Theorem random_id_draws {R} h len (s : R) w :
  uniform_source h ->
  exists id,
    random_id len h (s, w) = (inr id, (s, adv 0 len (replicate len EvDraw) w)) /\
    String.length id = len /\
    (forall j, j < len ->
       exists c, list_ascii_of_string id !! j = Some c /\
                 c = char_of_draw (unif_rand h (draws w + j)) /\
                 alphanumeric c) /\
    (len = 0 -> id = EmptyString).
Proof.
  intros Hunif. eexists. split; [by apply random_id_run|].
  rewrite list_ascii_of_string_of_list_ascii.
  destruct (chars_of_draws_alphanumeric h Hunif (draws w) len) as [Hl Ha].
  split; [by rewrite length_string_of_list_ascii|]. split.
  - intros j Hj. unfold chars_of_draws. rewrite list_lookup_fmap.
    rewrite lookup_seq_lt by done. simpl. eexists. split; [reflexivity|].
    split; [done|].
    by destruct (char_of_draw_spec _ (Hunif (draws w + j))) as (i & _ & _ & _ & Hc).
  - by intros ->.
Qed.

Lemma random_id_draws_witness :
  uniform_source quiet_host /\
  exists id,
    random_id 3 quiet_host (tt, fresh_world) =
      (inr id, (tt, adv 0 3 (replicate 3 EvDraw) fresh_world)) /\
    String.length id = 3.
Proof.
  split; [apply quiet_host_uniform|].
  destruct (random_id_draws quiet_host 3 tt fresh_world quiet_host_uniform)
    as (id & Hrun & Hlen & _).
  exists id. by split.
Defined.

Lemma draw_for_index i :
  i < 62 ->
  unit_interval (draw_for i) /\
  to_size_t (floor (mul (draw_for i) (of_Z max_index))) = Some (Z.of_nat i).
Proof.
  intros Hi.
  assert (forallb
            (fun i =>
               valid_binary prec emax (draw_for i) && leb zero (draw_for i) &&
               ltb (draw_for i) one &&
               match to_size_t (floor (mul (draw_for i) (of_Z max_index))) with
               | Some j => (j =? Z.of_nat i)%Z
               | None => false
               end) (seq 0 62) = true) as Hall by (vm_compute; reflexivity).
  rewrite forallb_forall in Hall. specialize (Hall i).
  rewrite !andb_true_iff in Hall.
  destruct Hall as (((Hv & H0) & H1) & Hidx); [apply in_seq; lia|].
  split; [by repeat split|].
  destruct (to_size_t _) as [j|]; [|discriminate].
  apply Z.eqb_eq in Hidx. by subst.
Qed.

Lemma constant_host_uniform u : unit_interval u -> uniform_source (constant_host u).
Proof. by intros Hu k. Qed.

(** X7. No symbol of the alphabet is out of reach: for each of the 62
    positions there is a double of [0, 1), about (i + 1/2) / 62, on which
    [randchar] computes this very index and returns the digit or letter at
    this position of [charset]. *)
Theorem every_symbol_drawn {R} i (s : R) w :
  i < 62 ->
  unit_interval (draw_for i) /\
  exists c, charset !! i = Some c /\ alphanumeric c /\
    randchar (constant_host (draw_for i)) (s, w) =
      (inr c, (s, adv 0 1 [EvDraw] w)).
Proof.
  intros Hi. destruct (draw_for_index i Hi) as [Hu Hidx]. split; [done|].
  destruct (charset_alphanumeric i Hi) as (c & Hc & Ha).
  exists c. split; [done|]. split; [done|].
  rewrite (randchar_run _ (constant_host_uniform _ Hu)). cbn [unif_rand constant_host].
  unfold char_of_draw. by rewrite Hidx, Nat2Z.id, Hc.
Qed.

Lemma every_symbol_drawn_witness :
  61 < 62 /\
  exists c, charset !! 61 = Some c /\
    randchar (constant_host (draw_for 61)) (tt, fresh_world) =
      (inr c, (tt, adv 0 1 [EvDraw] fresh_world)) /\
    c = "z"%char.
Proof.
  split; [lia|].
  destruct (every_symbol_drawn 61 tt fresh_world ltac:(lia)) as (_ & c & Hc & _ & Hrun).
  exists c. split; [done|]. split; [done|].
  vm_compute in Hc. congruence.
Defined.

(** X8. The bound on the draws is strict: on the draw 1.0 [randchar]
    computes the index 62, one past the last symbol, and returns the NUL
    that ends [charset], which is no digit and no letter. *)
Theorem draw_of_one_gives_nul {R} h (s : R) w :
  unif_rand h (draws w) = one ->
  to_size_t (floor (mul one (of_Z max_index))) = Some 62%Z /\
  randchar h (s, w) = (inr Ascii.zero, (s, adv 0 1 [EvDraw] w)) /\
  ~ alphanumeric Ascii.zero.
Proof.
  intros Hone.
  assert (to_size_t (floor (mul one (of_Z max_index))) = Some 62%Z) as Hidx
    by (vm_compute; reflexivity).
  split; [done|]. split.
  - unfold randchar, bind, runif1. cbn [fst snd]. rewrite Hone, Hidx.
    change (charset !! Z.to_nat 62) with (Some Ascii.zero).
    unfold ret, adv. by rewrite Nat.add_0_r, Nat.add_1_r.
  - unfold alphanumeric. change (nat_of_ascii Ascii.zero) with 0. cbv zeta. lia.
Qed.

Lemma draw_of_one_gives_nul_witness :
  unif_rand (constant_host one) (draws fresh_world) = one /\
  randchar (constant_host one) (tt, fresh_world) =
    (inr Ascii.zero, (tt, adv 0 1 [EvDraw] fresh_world)).
Proof.
  split; [reflexivity|].
  exact (proj1 (proj2 (draw_of_one_gives_nul (constant_host one) tt fresh_world
                         eq_refl))).
Defined.

Lemma ids_from_constant h u d n :
  (forall k, unif_rand h k = u) ->
  ids_from h d n = replicate n (repeated_id (char_of_draw u)).
Proof.
  intros Hu. unfold ids_from.
  rewrite (const_fmap _ _ (repeated_id (char_of_draw u))); [by rewrite length_seq|].
  intros _ i _. unfold id_of_draws, repeated_id, chars_of_draws. f_equal.
  rewrite (const_fmap _ _ (char_of_draw u)); [by rewrite length_seq|].
  intros _ j _. by rewrite Hu.
Qed.

(** X9. Identifiers are not checked against each other: with a source that
    serves the same draw of [0, 1) again and again, [get_osm_ways] returns
    as usual and every edge, of whatever way, carries one and the same
    identifier, ten times the symbol of that draw, in the edge table and in
    the linkage table. *)
Theorem repeated_draws_collide h u (ways : Ways) s w :
  never_interrupts h -> (forall k, unif_rand h k = u) -> unit_interval u ->
  fits_int (edge_total ways) -> fits_int (kv_total (way_tags ways)) ->
  exists s' w',
    get_osm_ways ways h (s, w) = (inr tt, (s', w')) /\
    df_column "edge_" (edge s') =
      Some (CharacterColumn
              (replicate (edge_total ways) (repeated_id (char_of_draw u)))) /\
    df_column "edge_" (object_link_edge s') =
      Some (CharacterColumn
              (replicate (edge_total ways) (repeated_id (char_of_draw u)))) /\
    alphanumeric (char_of_draw u).
Proof.
  intros Hquiet Hu Hunit HE HK.
  assert (uniform_source h) as Hunif by (intros k; by rewrite Hu).
  do 2 eexists. split; [by apply get_osm_ways_run|].
  cbn [ways_tables edge object_link_edge].
  rewrite (ids_from_constant h u) by done.
  split; [reflexivity|]. split; [reflexivity|].
  by destruct (char_of_draw_spec u Hunit) as (i & _ & _ & _ & Ha).
Qed.

Lemma repeated_draws_collide_witness :
  (never_interrupts (constant_host (sample_draw 0)) /\
   (forall k, unif_rand (constant_host (sample_draw 0)) k = sample_draw 0) /\
   unit_interval (sample_draw 0) /\
   fits_int (edge_total sample_ways) /\
   fits_int (kv_total (way_tags sample_ways))) /\
  exists s' w',
    get_osm_ways sample_ways (constant_host (sample_draw 0))
      (no_way_tables, fresh_world) = (inr tt, (s', w')) /\
    df_column "edge_" (edge s') =
      Some (CharacterColumn ["VVVVVVVVVV"; "VVVVVVVVVV"]%string).
Proof.
  assert (never_interrupts (constant_host (sample_draw 0))) as Hq by (by intros k).
  assert (forall k, unif_rand (constant_host (sample_draw 0)) k = sample_draw 0)
    as Hu by done.
  assert (fits_int (edge_total sample_ways)) as HE by (vm_compute; discriminate).
  assert (fits_int (kv_total (way_tags sample_ways))) as HK
    by (vm_compute; discriminate).
  split; [by repeat split; try apply sample_draw_unit|].
  destruct (repeated_draws_collide (constant_host (sample_draw 0)) (sample_draw 0)
              sample_ways no_way_tables fresh_world Hq Hu (sample_draw_unit 0) HE HK)
    as (s' & w' & Hrun & He & _).
  exists s', w'. split; [done|]. rewrite He. reflexivity.
Defined.

(** ** The way flattener: tags and polls *)

(** X1. When no interrupt is pending, the draws are uniform and the row
    totals fit an [int], the key-value table of [get_osm_ways] has the
    columns [object_], [key], [value] and one row per tag of a way.  The
    rows of a way follow those of the ways before it, carry the decimal
    string of the way's id and list the way's tags in their order. *)
Theorem way_flattener_tags h (ways : Ways) s w :
  never_interrupts h -> uniform_source h ->
  fits_int (edge_total ways) -> fits_int (kv_total (way_tags ways)) ->
  exists s' w' objects keys values,
    get_osm_ways ways h (s, w) = (inr tt, (s', w')) /\
    df_columns (way_kv_df s') =
      [("object_"%string, CharacterColumn objects);
       ("key"%string, CharacterColumn keys);
       ("value"%string, CharacterColumn values)] /\
    df_nrow (way_kv_df s') = kv_total (way_tags ways) /\
    forall pre (wi : osmid_t * OneWay.t) post, ways = pre ++ wi :: post ->
      let tags := OneWay.key_val (snd wi) in
      let o := kv_total (way_tags pre) in
      let n := length tags in
      rows_of o n objects = replicate n (to_string (fst wi)) /\
      rows_of o n keys = fst <$> tags /\
      rows_of o n values = snd <$> tags.
Proof.
  intros Hquiet Hunif HE HK. unfold fits_int in *.
  rewrite (get_osm_ways_run h Hquiet Hunif ways HE HK).
  eexists _, _, _, _, _. split; [reflexivity|]. cbn [ways_tables way_kv_df].
  split; [reflexivity|]. unfold df_nrow. cbn [df_columns column_length].
  split; [apply length_kv_objects|].
  intros pre wi post ->. cbv zeta.
  unfold way_tags. rewrite fmap_app, fmap_cons.
  apply (kv_block _ (fst wi, OneWay.key_val (snd wi))).
Qed.

Lemma way_flattener_tags_witness :
  (never_interrupts quiet_host /\ uniform_source quiet_host /\
   fits_int (edge_total sample_ways) /\
   fits_int (kv_total (way_tags sample_ways))) /\
  exists s' w',
    get_osm_ways sample_ways quiet_host (no_way_tables, fresh_world) =
      (inr tt, (s', w')) /\
    df_columns (way_kv_df s') =
      [("object_", CharacterColumn ["7"]); ("key", CharacterColumn ["highway"]);
       ("value", CharacterColumn ["residential"])]%string.
Proof.
  assert (fits_int (edge_total sample_ways)) as HE by (vm_compute; discriminate).
  assert (fits_int (kv_total (way_tags sample_ways))) as HK
    by (vm_compute; discriminate).
  split; [auto using quiet_host_never_interrupts, quiet_host_uniform|].
  destruct (way_flattener_tags quiet_host sample_ways no_way_tables fresh_world
              quiet_host_never_interrupts quiet_host_uniform HE HK)
    as (s' & w' & objects & keys & values & Hrun & _).
  exists s', w'. split; [exact Hrun|].
  vm_compute in Hrun. injection Hrun as <- <-. reflexivity.
Defined.

Lemma poll_not_in_edges_events le lo c n : EvPoll ∉ edges_events le lo c n.
Proof.
  revert c. induction n as [|n IH]; intros c.
  - apply not_elem_of_nil.
  - change (edges_events le lo c (S n))
      with (edge_events le lo c ++ edges_events le lo (S c) n).
    rewrite elem_of_app. intros [H|H]; [|by apply IH in H].
    unfold edge_events in H. rewrite !elem_of_app, !elem_of_cons, !elem_of_nil in H.
    destruct H as [[H|[H|[]]]|[H|[H|[H|[H|[]]]]]]; try discriminate.
    by apply elem_of_replicate_inv in H.
Qed.

Lemma ways_events_app le lo lk pre (wi : osmid_t * OneWay.t) post : forall c k,
  ways_events le lo lk c k (pre ++ wi :: post) =
    ways_events le lo lk c k pre ++
    [EvPoll] ++
    edges_events le lo (c + edge_total pre) (length (OneWay.nodes (snd wi)) - 1) ++
    rows_events lk (k + kv_total (way_tags pre)) (length (OneWay.key_val (snd wi))) ++
    ways_events le lo lk
      (c + edge_total pre + (length (OneWay.nodes (snd wi)) - 1))
      (k + kv_total (way_tags pre) + length (OneWay.key_val (snd wi))) post.
Proof.
  induction pre as [|x pre IH]; intros c k.
  - change (edge_total []) with 0. change (kv_total (way_tags [])) with 0.
    by rewrite !Nat.add_0_r.
  - cbn [app ways_events]. rewrite IH, edge_total_cons, way_tags_cons, kv_total_cons.
    cbn [fst snd]. rewrite <- !app_assoc. by rewrite !Nat.add_assoc.
Qed.

(** X2. When no interrupt is pending, the draws are uniform and the row
    totals fit an [int], [get_osm_ways] polls for an interrupt exactly once
    per way, ways without nodes or tags included: the poll of a way comes
    after everything done for the ways before it and before the stores and
    draws of its edges, which come before the stores of its tags; no other
    poll is made. *)
Theorem way_flattener_polls h (ways : Ways) s w :
  never_interrupts h -> uniform_source h ->
  fits_int (edge_total ways) -> fits_int (kv_total (way_tags ways)) ->
  exists s' w',
    get_osm_ways ways h (s, w) = (inr tt, (s', w')) /\
    polls w' = polls w + length ways /\
    forall pre (wi : osmid_t * OneWay.t) post, ways = pre ++ wi :: post ->
      let edges :=
        edges_events "edge_mat" "object_link_edge_mat" (edge_total pre)
          (length (OneWay.nodes (snd wi)) - 1) in
      let tags :=
        rows_events "kv_mat" (kv_total (way_tags pre))
          (length (OneWay.key_val (snd wi))) in
      (exists later,
         trace w' =
           trace w ++
           ways_events "edge_mat" "object_link_edge_mat" "kv_mat" 0 0 pre ++
           [EvPoll] ++ edges ++ tags ++ later) /\
      EvPoll ∉ edges ++ tags.
Proof.
  intros Hquiet Hunif HE HK. unfold fits_int in *.
  rewrite (get_osm_ways_run h Hquiet Hunif ways HE HK).
  eexists _, _. split; [reflexivity|]. cbn [adv trace polls].
  split; [reflexivity|].
  intros pre wi post ->. cbv zeta. split.
  - rewrite ways_events_app. cbn [Nat.add]. eauto.
  - rewrite elem_of_app. intros [H|H].
    + by apply poll_not_in_edges_events in H.
    + by apply poll_not_in_rows_events in H.
Qed.

Lemma way_flattener_polls_witness :
  (never_interrupts quiet_host /\ uniform_source quiet_host /\
   fits_int (edge_total sample_ways) /\
   fits_int (kv_total (way_tags sample_ways))) /\
  exists s' w',
    get_osm_ways sample_ways quiet_host (no_way_tables, fresh_world) =
      (inr tt, (s', w')) /\
    polls w' = 3.
Proof.
  assert (fits_int (edge_total sample_ways)) as HE by (vm_compute; discriminate).
  assert (fits_int (kv_total (way_tags sample_ways))) as HK
    by (vm_compute; discriminate).
  split; [auto using quiet_host_never_interrupts, quiet_host_uniform|].
  destruct (way_flattener_polls quiet_host sample_ways no_way_tables fresh_world
              quiet_host_never_interrupts quiet_host_uniform HE HK)
    as (s' & w' & Hrun & Hpolls & _).
  exists s', w'. split; [exact Hrun|]. exact Hpolls.
Defined.

(** ** The relation flattener and what the tracer returns *)


(** X3. When no interrupt is pending, the row totals fit an [int] and the
    tracer returns in all at most as many pairs as the relations list ways,
    [get_osm_relations] returns after one poll per relation.  The member
    table has one row per listed way: its first rows are the returned
    pairs, relation after relation, each with the relation's id, the
    member's id and the role; the rows left over hold the empty string in
    all three columns. *)
Theorem short_tracer_blank_rows tr (rels : Relations) h s w :
  never_interrupts h ->
  fits_int (ways_total rels) -> fits_int (kv_total (rel_tags rels)) ->
  traced_total tr rels <= ways_total rels ->
  exists s' w',
    get_osm_relations tr rels h (s, w) = (inr tt, (s', w')) /\
    (let blank :=
       replicate (ways_total rels - traced_total tr rels) EmptyString in
     df_columns (rel_df s') =
       [("object_"%string,
         CharacterColumn (kv_objects (rel_members tr rels) ++ blank));
        ("ref"%string, CharacterColumn (kv_keys (rel_members tr rels) ++ blank));
        ("role"%string,
         CharacterColumn (kv_values (rel_members tr rels) ++ blank))]) /\
    df_nrow (rel_df s') = ways_total rels /\
    length (kv_objects (rel_members tr rels)) = traced_total tr rels /\
    polls w' = polls w + length rels.
Proof.
  intros Hquiet HN HK Hle.
  rewrite (get_osm_relations_short_run tr h Hquiet rels HN HK Hle).
  eexists _, _. split; [reflexivity|]. cbn [rel_df adv polls df_columns].
  pose proof (traced_total_members tr rels) as Htot.
  pose proof (length_kv_objects (rel_members tr rels)) as L1.
  pose proof (length_kv_keys (rel_members tr rels)) as L2.
  pose proof (length_kv_values (rel_members tr rels)) as L3.
  split; [|split; [|split]].
  - cbv zeta. unfold pad. by rewrite L1, L2, L3, Htot.
  - unfold df_nrow. cbn [df_columns column_length]. rewrite length_pad; lia.
  - lia.
  - reflexivity.
Qed.

Lemma short_tracer_blank_rows_witness :
  (never_interrupts quiet_host /\
   fits_int (ways_total sample_relations) /\
   fits_int (kv_total (rel_tags sample_relations)) /\
   traced_total tracer_none sample_relations <= ways_total sample_relations) /\
  exists s' w',
    get_osm_relations tracer_none sample_relations quiet_host
      (no_rel_tables, fresh_world) = (inr tt, (s', w')) /\
    df_columns (rel_df s') =
      [("object_"%string, CharacterColumn [EmptyString]);
       ("ref"%string, CharacterColumn [EmptyString]);
       ("role"%string, CharacterColumn [EmptyString])].
Proof.
  assert (fits_int (ways_total sample_relations)) as HN by (vm_compute; discriminate).
  assert (fits_int (kv_total (rel_tags sample_relations))) as HK
    by (vm_compute; discriminate).
  assert (traced_total tracer_none sample_relations <= ways_total sample_relations)
    as Hle by (vm_compute; lia).
  split; [auto using quiet_host_never_interrupts|].
  destruct (short_tracer_blank_rows tracer_none sample_relations quiet_host
              no_rel_tables fresh_world quiet_host_never_interrupts HN HK Hle)
    as (s' & w' & Hrun & Hcols & _).
  exists s', w'. split; [exact Hrun|]. exact Hcols.
Defined.


(** X4. When no interrupt is pending, the row totals fit an [int] and the
    tracer returns in all more pairs than the relations list ways,
    [get_osm_relations] does not return: the fill pass runs off the member
    matrix, the call ends with a store outside of the storage, and the
    caller's data frames are as they were. *)
Theorem long_tracer_overruns tr (rels : Relations) h s w :
  never_interrupts h ->
  fits_int (ways_total rels) -> fits_int (kv_total (rel_tags rels)) ->
  ways_total rels < traced_total tr rels ->
  exists w', get_osm_relations tr rels h (s, w) = (inl OutOfBounds, (s, w')).
Proof.
  intros Hquiet HN HK Hlt.
  destruct (relations_fill_overruns tr rels h s w Hquiet HN HK Hlt) as [w1 Hfill].
  exists w1. unfold get_osm_relations. by erewrite bind_inl.
Qed.

Lemma long_tracer_overruns_witness :
  (never_interrupts quiet_host /\
   fits_int (ways_total sample_relations) /\
   fits_int (kv_total (rel_tags sample_relations)) /\
   ways_total sample_relations < traced_total tracer_two sample_relations) /\
  exists w',
    get_osm_relations tracer_two sample_relations quiet_host
      (no_rel_tables, fresh_world) = (inl OutOfBounds, (no_rel_tables, w')).
Proof.
  assert (fits_int (ways_total sample_relations)) as HN by (vm_compute; discriminate).
  assert (fits_int (kv_total (rel_tags sample_relations))) as HK
    by (vm_compute; discriminate).
  assert (ways_total sample_relations < traced_total tracer_two sample_relations)
    as Hlt by (vm_compute; lia).
  split; [auto using quiet_host_never_interrupts|].
  exact (long_tracer_overruns tracer_two sample_relations quiet_host
           no_rel_tables fresh_world quiet_host_never_interrupts HN HK Hlt).
Defined.

(** ** The random source and the host *)

Section Drawless.
Context {R : Type}.

Lemma drawless_ret {A} (a : A) : drawless (ret (R := R) a).
Proof. by intros h s w. Qed.

Lemma drawless_throw {A} e : drawless (throw (R := R) (A := A) e).
Proof. by intros h s w. Qed.

Lemma drawless_assign f : drawless (assign (R := R) f).
Proof. by intros h s w. Qed.

Lemma drawless_emit ev : drawless (emit (R := R) ev).
Proof. by intros h s w. Qed.

Lemma drawless_checkUserInterrupt : drawless (checkUserInterrupt (R := R)).
Proof. by intros h s w. Qed.

Lemma drawless_bind {A B} (m : M R A) (f : A -> M R B) :
  drawless m -> (forall a, drawless (f a)) -> drawless (bind m f).
Proof.
  intros Hm Hf h s w. specialize (Hm h s w). unfold bind.
  destruct (m h (s, w)) as [[e|a] [s1 w1]]; cbn [fst snd] in *; [done|].
  by rewrite Hf.
Qed.

Lemma drawless_for_each {X L} (body : X -> L -> M R L) (l : list X) :
  (forall x st, drawless (body x st)) -> forall st, drawless (for_each l body st).
Proof.
  intros Hbody. induction l as [|x l IH]; intros st; cbn [for_each].
  - apply drawless_ret.
  - apply drawless_bind; auto.
Qed.

Lemma drawless_new_Matrix {A} (dflt : A) lbl d :
  drawless (new_Matrix (R := R) dflt lbl d).
Proof.
  unfold new_Matrix. destruct (_ || _); [apply drawless_throw|apply drawless_ret].
Qed.

Lemma drawless_store {A} (m : Matrix A) i j v : drawless (store (R := R) m i j v).
Proof.
  unfold store. destruct (_ <? _); [|apply drawless_throw].
  apply drawless_bind; [apply drawless_emit|intros; apply drawless_ret].
Qed.

Lemma drawless_store_key_val obj kv st :
  drawless (store_key_val (R := R) obj kv st).
Proof.
  destruct st as [kv_mat k]. unfold store_key_val.
  repeat (apply drawless_bind; [apply drawless_store|intros]). apply drawless_ret.
Qed.

Lemma drawless_DataFrame_create cols : drawless (DataFrame_create (R := R) cols).
Proof.
  intros h s w. unfold DataFrame_create. by destruct (recycle_columns _ cols).
Qed.

Lemma blind_ret {A} (a : A) : source_blind (ret (R := R) a).
Proof. by intros h1 h2 σ _. Qed.

Lemma blind_throw {A} e : source_blind (throw (R := R) (A := A) e).
Proof. by intros h1 h2 σ _. Qed.

Lemma blind_assign f : source_blind (assign (R := R) f).
Proof. by intros h1 h2 σ _. Qed.

Lemma blind_emit ev : source_blind (emit (R := R) ev).
Proof. by intros h1 h2 σ _. Qed.

Lemma blind_checkUserInterrupt : source_blind (checkUserInterrupt (R := R)).
Proof. intros h1 h2 σ Hp. unfold checkUserInterrupt. by rewrite Hp. Qed.

Lemma blind_bind {A B} (m : M R A) (f : A -> M R B) :
  source_blind m -> (forall a, source_blind (f a)) -> source_blind (bind m f).
Proof.
  intros Hm Hf h1 h2 σ Hp. unfold bind. rewrite (Hm h1 h2 σ Hp).
  destruct (m h2 σ) as [[e|a] σ1]; [done|]. by apply Hf.
Qed.

Lemma blind_for_each {X L} (body : X -> L -> M R L) (l : list X) :
  (forall x st, source_blind (body x st)) ->
  forall st, source_blind (for_each l body st).
Proof.
  intros Hbody. induction l as [|x l IH]; intros st; cbn [for_each].
  - apply blind_ret.
  - apply blind_bind; auto.
Qed.

Lemma blind_new_Matrix {A} (dflt : A) lbl d :
  source_blind (new_Matrix (R := R) dflt lbl d).
Proof.
  unfold new_Matrix. destruct (_ || _); [apply blind_throw|apply blind_ret].
Qed.

Lemma blind_store {A} (m : Matrix A) i j v : source_blind (store (R := R) m i j v).
Proof.
  unfold store. destruct (_ <? _); [|apply blind_throw].
  apply blind_bind; [apply blind_emit|intros; apply blind_ret].
Qed.

Lemma blind_store_key_val obj kv st :
  source_blind (store_key_val (R := R) obj kv st).
Proof.
  destruct st as [kv_mat k]. unfold store_key_val.
  repeat (apply blind_bind; [apply blind_store|intros]). apply blind_ret.
Qed.

Lemma blind_DataFrame_create cols : source_blind (DataFrame_create (R := R) cols).
Proof.
  intros h1 h2 σ _. unfold DataFrame_create. by destruct (recycle_columns _ cols).
Qed.
End Drawless.

Ltac drawless_tables :=
  repeat first
    [ apply drawless_bind; [|intros]
    | apply drawless_DataFrame_create
    | apply drawless_assign
    | apply drawless_ret ].

Ltac blind_tables :=
  repeat first
    [ apply blind_bind; [|intros]
    | apply blind_DataFrame_create
    | apply blind_assign
    | apply blind_ret ].

Lemma drawless_get_osm_nodes nodes : drawless (get_osm_nodes nodes).
Proof.
  unfold get_osm_nodes. apply drawless_bind.
  2:{ intros [[[node_ids node_mat] i] [kv_mat k]]. drawless_tables. }
  unfold nodes_fill.
  apply drawless_bind; [apply drawless_ret|intros].
  do 2 (apply drawless_bind; [apply drawless_new_Matrix|intros]).
  apply drawless_for_each. intros ni [[[node_ids node_mat] i] kv_st].
  unfold nodes_body. apply drawless_bind.
  { destruct (_ =? _); [apply drawless_checkUserInterrupt|apply drawless_ret]. }
  intros _. do 3 (apply drawless_bind; [apply drawless_store|intros]).
  apply drawless_bind; [|intros; apply drawless_ret].
  apply drawless_for_each. intros. apply drawless_store_key_val.
Qed.

Lemma blind_get_osm_nodes nodes : source_blind (get_osm_nodes nodes).
Proof.
  unfold get_osm_nodes. apply blind_bind.
  2:{ intros [[[node_ids node_mat] i] [kv_mat k]]. blind_tables. }
  unfold nodes_fill.
  apply blind_bind; [apply blind_ret|intros].
  do 2 (apply blind_bind; [apply blind_new_Matrix|intros]).
  apply blind_for_each. intros ni [[[node_ids node_mat] i] kv_st].
  unfold nodes_body. apply blind_bind.
  { destruct (_ =? _); [apply blind_checkUserInterrupt|apply blind_ret]. }
  intros _. do 3 (apply blind_bind; [apply blind_store|intros]).
  apply blind_bind; [|intros; apply blind_ret].
  apply blind_for_each. intros. apply blind_store_key_val.
Qed.

(** X10. The node flattener does not use the random source: whatever the
    host, the input and the outcome (return, interrupt or failure),
    [get_osm_nodes] leaves the source at the draw it was at, and two hosts
    that answer the polls alike give the same run and the same tables,
    whatever their random sources serve. *)
Theorem node_flattener_ignores_source h1 h2 (nodes : Nodes) (s : node_refs) w :
  (forall k, pending h1 k = pending h2 k) ->
  get_osm_nodes nodes h1 (s, w) = get_osm_nodes nodes h2 (s, w) /\
  draws (snd (snd (get_osm_nodes nodes h1 (s, w)))) = draws w.
Proof.
  intros Hp. split.
  - by apply blind_get_osm_nodes.
  - apply drawless_get_osm_nodes.
Qed.

Lemma node_flattener_ignores_source_witness :
  (forall k, pending quiet_host k = pending (constant_host one) k) /\
  unif_rand quiet_host 0 <> unif_rand (constant_host one) 0 /\
  get_osm_nodes sample_nodes quiet_host (no_node_tables, fresh_world) =
    get_osm_nodes sample_nodes (constant_host one) (no_node_tables, fresh_world).
Proof.
  assert (forall k, pending quiet_host k = pending (constant_host one) k) as Hp
    by done.
  split; [exact Hp|]. split; [discriminate|].
  exact (proj1 (node_flattener_ignores_source quiet_host (constant_host one)
                  sample_nodes no_node_tables fresh_world Hp)).
Defined.

(** ** Where an interrupt ends a traversal *)

Section PollLocal.
Context {R : Type}.

Lemma poll_local_pure {A} (m : M R A) :
  (forall h1 h2 σ, m h1 σ = m h2 σ) ->
  (forall h s w, polls (snd (snd (m h (s, w)))) = polls w) ->
  poll_local m.
Proof.
  intros Hsame Hpolls h1 h2 s w _. cbv zeta. rewrite Hpolls.
  split; [done|]. intros _. apply Hsame.
Qed.

Lemma poll_local_ret {A} (a : A) : poll_local (ret (R := R) a).
Proof. by apply poll_local_pure. Qed.

Lemma poll_local_throw {A} e : poll_local (throw (R := R) (A := A) e).
Proof. by apply poll_local_pure. Qed.

Lemma poll_local_emit ev : poll_local (emit (R := R) ev).
Proof. by apply poll_local_pure. Qed.

Lemma poll_local_runif1 : poll_local (runif1 (R := R)).
Proof.
  intros h1 h2 s w Hu. unfold runif1. cbn [fst snd polls].
  split; [done|]. intros _. by rewrite Hu.
Qed.

Lemma poll_local_checkUserInterrupt : poll_local (checkUserInterrupt (R := R)).
Proof.
  intros h1 h2 s w _. unfold checkUserInterrupt. cbn [fst snd polls].
  split; [lia|]. intros Hp. rewrite (Hp (polls w)) by lia. reflexivity.
Qed.

Lemma poll_local_bind {A B} (m : M R A) (f : A -> M R B) :
  poll_local m -> (forall a, poll_local (f a)) -> poll_local (bind m f).
Proof.
  intros Hm Hf h1 h2 s w Hu. specialize (Hm h1 h2 s w Hu). cbv zeta in *.
  unfold bind.
  destruct (m h1 (s, w)) as [[e|a] [s1 w1]] eqn:E1; cbn [fst snd] in *.
  - destruct Hm as [Hle Hm]. split; [done|]. intros Hp. by rewrite Hm.
  - destruct Hm as [Hle Hm]. specialize (Hf a h1 h2 s1 w1 Hu). cbv zeta in Hf.
    destruct Hf as [Hle2 Hf]. split; [lia|]. intros Hp.
    rewrite Hm by (intros k Hk; apply Hp; lia).
    apply Hf. intros k Hk. apply Hp. lia.
Qed.

Lemma poll_local_for_each {X L} (body : X -> L -> M R L) (l : list X) :
  (forall x st, poll_local (body x st)) -> forall st, poll_local (for_each l body st).
Proof.
  intros Hbody. induction l as [|x l IH]; intros st; cbn [for_each].
  - apply poll_local_ret.
  - apply poll_local_bind; auto.
Qed.

Lemma poll_local_store {A} (m : Matrix A) i j v :
  poll_local (store (R := R) m i j v).
Proof.
  unfold store. destruct (_ <? _); [|apply poll_local_throw].
  apply poll_local_bind; [apply poll_local_emit|intros; apply poll_local_ret].
Qed.

Lemma poll_local_store_key_val obj kv st :
  poll_local (store_key_val (R := R) obj kv st).
Proof.
  destruct st as [kv_mat k]. unfold store_key_val.
  repeat (apply poll_local_bind; [apply poll_local_store|intros]).
  apply poll_local_ret.
Qed.

Lemma poll_local_random_id len : poll_local (random_id (R := R) len).
Proof.
  unfold random_id. apply poll_local_bind; [|intros; apply poll_local_ret].
  induction len as [|len IH]; cbn [generate_n]; [apply poll_local_ret|].
  apply poll_local_bind;
    [|intros; apply poll_local_bind; [done|intros; apply poll_local_ret]].
  unfold randchar. apply poll_local_bind; [apply poll_local_runif1|intros u].
  destruct (to_size_t _) as [i|]; [|apply poll_local_throw].
  destruct (charset !! _); [apply poll_local_ret|apply poll_local_throw].
Qed.

(** A run that meets no pending interrupt is the run with the interrupts
    withdrawn. *)
Lemma quieted_run {A} (m : M R A) h s w :
  poll_local m ->
  (forall k, polls w <= k < polls (snd (snd (m (quieted h) (s, w)))) ->
             pending h k = false) ->
  m h (s, w) = m (quieted h) (s, w).
Proof.
  intros Hm Hp. destruct (Hm (quieted h) h s w eq_refl) as [_ Hrun].
  apply Hrun. intros k Hk. by rewrite Hp.
Qed.

Lemma for_each_app {X L} (body : X -> L -> M R L) (l1 l2 : list X) :
  forall st h σ,
    for_each (l1 ++ l2) body st h σ =
    bind (for_each l1 body st) (for_each l2 body) h σ.
Proof.
  induction l1 as [|x l1 IH]; intros st h σ; [reflexivity|].
  cbn [app for_each]. unfold bind in *.
  destruct (body x st h σ) as [[e|st1] σ1]; [reflexivity|]. apply IH.
Qed.
End PollLocal.

Lemma quieted_never_interrupts h : never_interrupts (quieted h).
Proof. by intros k. Qed.

Lemma quieted_uniform h : uniform_source h -> uniform_source (quieted h).
Proof. intros Hu k. apply Hu. Qed.

Lemma poll_local_ways_body wi st : poll_local (ways_body wi st).
Proof.
  destruct st as [edge_st kv_st]. unfold ways_body.
  apply poll_local_bind; [apply poll_local_checkUserInterrupt|intros _].
  apply poll_local_bind.
  { generalize edge_st. generalize (OneWay.nodes (snd wi)) as nodes.
    induction nodes as [|a [|b rest] IH]; intros st; try apply poll_local_ret.
    change (way_edges (fst wi) (a :: b :: rest) st)
      with (bind (store_edge (fst wi) a b st) (way_edges (fst wi) (b :: rest))).
    apply poll_local_bind; [|done]. destruct st as [[edge_mat ole_mat] count_w].
    unfold store_edge.
    do 2 (apply poll_local_bind; [apply poll_local_store|intros]).
    apply poll_local_bind; [apply poll_local_random_id|intros].
    repeat (apply poll_local_bind; [apply poll_local_store|intros]).
    apply poll_local_ret. }
  intros. apply poll_local_bind; [|intros; apply poll_local_ret].
  apply poll_local_for_each. intros. apply poll_local_store_key_val.
Qed.

Lemma poll_local_nodes_body ni st : poll_local (nodes_body ni st).
Proof.
  destruct st as [[[node_ids node_mat] i] kv_st]. unfold nodes_body.
  apply poll_local_bind.
  { destruct (_ =? _); [apply poll_local_checkUserInterrupt|apply poll_local_ret]. }
  intros _. do 3 (apply poll_local_bind; [apply poll_local_store|intros]).
  apply poll_local_bind; [|intros; apply poll_local_ret].
  apply poll_local_for_each. intros. apply poll_local_store_key_val.
Qed.

(** X11. If the polls of the first ways of the mapping find no interrupt
    and the poll of the next way finds one, [get_osm_ways] ends there with
    the interrupt condition: it has polled once for each way so far,
    stored the rows of the ways before and drawn ten numbers for each of
    their edges, done nothing yet for the way itself, and the caller's data
    frames are as they were.  The draws made stay used up. *)
Theorem way_flattener_interrupted h pre (wi : osmid_t * OneWay.t) post s w :
  uniform_source h ->
  fits_int (edge_total (pre ++ wi :: post)) ->
  fits_int (kv_total (way_tags (pre ++ wi :: post))) ->
  (forall k, polls w <= k < polls w + length pre -> pending h k = false) ->
  pending h (polls w + length pre) = true ->
  get_osm_ways (pre ++ wi :: post) h (s, w) =
    (inl Interrupted,
     (s, adv (S (length pre)) (length_ids * edge_total pre)
           (ways_events "edge_mat" "object_link_edge_mat" "kv_mat" 0 0 pre ++ [EvPoll])
           w)).
Proof.
  intros Hunif HE HK Hpre Hwi. unfold fits_int in *.
  set (ways := pre ++ wi :: post) in *.
  assert (edge_total pre <= edge_total ways /\
          kv_total (way_tags pre) <= kv_total (way_tags ways)) as [Le Lk].
  { subst ways. unfold edge_total, kv_total, way_tags.
    rewrite !fmap_app, !sum_list_append. lia. }
  unfold get_osm_ways. erewrite bind_inl; [reflexivity|].
  unfold ways_fill. rewrite ways_count_small by done.
  unfold new_CharacterMatrix.
  erewrite bind_inr by (apply new_Matrix_run; unfold INT_MAX in *; lia).
  erewrite bind_inr by (apply new_Matrix_run; unfold INT_MAX in *; lia).
  erewrite bind_inr by (apply new_Matrix_run; unfold INT_MAX in *; lia).
  rewrite !Nat2Z.id.
  change (replicate (Z.to_nat 3) []) with [@nil string; []; []].
  change (replicate (Z.to_nat 2) []) with [@nil string; []].
  subst ways. rewrite for_each_app.
  pose proof (ways_loop_run (quieted h) (quieted_never_interrupts h)
                (quieted_uniform h Hunif) "edge_mat" "object_link_edge_mat" "kv_mat"
                (edge_total (pre ++ wi :: post))
                (kv_total (way_tags (pre ++ wi :: post))) pre
                [] [] [] [] [] [] [] [] s w
                eq_refl eq_refl eq_refl eq_refl eq_refl eq_refl Le Lk) as Hrun.
  cbn [length Nat.add app] in Hrun.
  erewrite bind_inr.
  2:{ rewrite quieted_run; [exact Hrun| |].
      - apply poll_local_for_each. intros. apply poll_local_ways_body.
      - rewrite Hrun. cbn [fst snd adv polls]. exact Hpre. }
  cbn [for_each]. erewrite bind_inl; [reflexivity|].
  unfold ways_body. erewrite bind_inl; [reflexivity|].
  unfold checkUserInterrupt. cbn [fst snd adv polls draws trace].
  rewrite Hwi. unfold adv. do 3 f_equal.
  - lia.
  - by rewrite <- app_assoc.
Qed.

Lemma way_flattener_interrupted_witness :
  (uniform_source cancelling_host /\
   fits_int (edge_total sample_ways) /\
   fits_int (kv_total (way_tags sample_ways)) /\
   pending cancelling_host 0 = false /\ pending cancelling_host 1 = true) /\
  exists w',
    get_osm_ways sample_ways cancelling_host (no_way_tables, fresh_world) =
      (inl Interrupted, (no_way_tables, w')) /\
    polls w' = 2 /\ draws w' = 20.
Proof.
  assert (fits_int (edge_total sample_ways)) as HE by (vm_compute; discriminate).
  assert (fits_int (kv_total (way_tags sample_ways))) as HK
    by (vm_compute; discriminate).
  assert (uniform_source cancelling_host) as Hu by (intros k; apply sample_draw_unit).
  split;
    [split; [exact Hu|split; [exact HE|split; [exact HK|split; reflexivity]]]|].
  eexists. split.
  - refine (way_flattener_interrupted cancelling_host
              [(7%Z, {| OneWay.key_val := [("highway", "residential")]%string;
                        OneWay.nodes := [1; 2; 3]%Z |})]
              (8%Z, {| OneWay.key_val := []; OneWay.nodes := [4]%Z |})
              [(9%Z, {| OneWay.key_val := []; OneWay.nodes := [] |})]
              no_way_tables fresh_world Hu HE HK _ eq_refl).
    intros k Hk. cbn [polls fresh_world length Nat.add] in Hk.
    assert (k = 0) as -> by lia. reflexivity.
  - split; reflexivity.
Defined.

(** X12. An interrupt is noticed by [get_osm_nodes] only at a node whose
    index is a multiple of 1000: if the first [j] polls find no interrupt
    and the next one does, the call ends with the interrupt condition in
    front of node [1000 * j], after it has stored the rows of all the
    [1000 * j] nodes before; the caller's data frames are as they were. *)
Theorem node_flattener_interrupted h j pre (ni : osmid_t * Node.t) post s w :
  length pre = 1000 * j ->
  fits_int (length (pre ++ ni :: post)) ->
  fits_int (kv_total (node_tags (pre ++ ni :: post))) ->
  (forall k, polls w <= k < polls w + j -> pending h k = false) ->
  pending h (polls w + j) = true ->
  get_osm_nodes (pre ++ ni :: post) h (s, w) =
    (inl Interrupted,
     (s, adv (S j) 0
           (nodes_events "node_ids" "node_mat" "kv_mat" 0 0 pre ++ [EvPoll]) w)).
Proof.
  intros Hlen HN HK Hpre Hni. unfold fits_int in *.
  set (nodes := pre ++ ni :: post) in *.
  assert (length pre <= length nodes /\
          kv_total (node_tags pre) <= kv_total (node_tags nodes)) as [Ln Lk].
  { subst nodes. unfold kv_total, node_tags.
    rewrite !fmap_app, !sum_list_append, length_app. lia. }
  assert (polls_from 0 (length pre) = j) as Hpolls.
  { rewrite polls_from_0, Hlen.
    replace (1000 * j + 999) with (999 + j * 1000) by lia.
    rewrite Nat.div_add by lia. reflexivity. }
  unfold get_osm_nodes. erewrite bind_inl; [reflexivity|].
  unfold nodes_fill, nodes_count. rewrite nodes_count_from by lia.
  erewrite bind_inr by apply new_CharacterVector_run.
  unfold new_NumericMatrix, new_CharacterMatrix.
  erewrite bind_inr by (apply new_Matrix_run; unfold INT_MAX in *; lia).
  erewrite bind_inr by (apply new_Matrix_run; unfold INT_MAX in *; lia).
  rewrite Z.add_0_l, !Nat2Z.id.
  change (replicate (Z.to_nat 3) []) with [@nil string; []; []].
  change (replicate (Z.to_nat 2) []) with [@nil double; []].
  subst nodes. rewrite for_each_app.
  pose proof (nodes_loop_run (quieted h) (quieted_never_interrupts h)
                "node_ids" "node_mat" "kv_mat"
                (length (pre ++ ni :: post))
                (kv_total (node_tags (pre ++ ni :: post))) pre
                [] [] [] [] [] [] s w
                eq_refl eq_refl eq_refl eq_refl Ln Lk) as Hrun.
  cbn [length Nat.add app] in Hrun. rewrite Hpolls in Hrun.
  erewrite bind_inr.
  2:{ rewrite quieted_run; [exact Hrun| |].
      - apply poll_local_for_each. intros. apply poll_local_nodes_body.
      - rewrite Hrun. cbn [fst snd adv polls]. exact Hpre. }
  cbn [for_each]. erewrite bind_inl; [reflexivity|].
  unfold nodes_body. erewrite bind_inl; [reflexivity|].
  rewrite Hlen. replace (1000 * j) with (j * 1000) by lia.
  rewrite Nat.Div0.mod_mul. cbn [Nat.eqb].
  unfold checkUserInterrupt. cbn [fst snd adv polls draws trace].
  rewrite Hni. unfold adv. do 3 f_equal.
  - lia.
  - by rewrite <- app_assoc.
Qed.

Lemma node_flattener_interrupted_witness :
  (length thousand_nodes = 1000 * 1 /\
   fits_int (length (thousand_nodes ++ sample_nodes)) /\
   fits_int (kv_total (node_tags (thousand_nodes ++ sample_nodes))) /\
   pending cancelling_host 0 = false /\ pending cancelling_host 1 = true) /\
  exists w',
    get_osm_nodes (thousand_nodes ++ sample_nodes) cancelling_host
      (no_node_tables, fresh_world) = (inl Interrupted, (no_node_tables, w')) /\
    polls w' = 2 /\ length (trace w') = 3002.
Proof.
  assert (length thousand_nodes = 1000 * 1) as Hlen by reflexivity.
  assert (fits_int (length (thousand_nodes ++ sample_nodes))) as HN
    by (vm_compute; discriminate).
  assert (fits_int (kv_total (node_tags (thousand_nodes ++ sample_nodes)))) as HK
    by (vm_compute; discriminate).
  split;
    [split; [exact Hlen|split; [exact HN|split; [exact HK|split; reflexivity]]]|].
  eexists. split.
  - refine (node_flattener_interrupted cancelling_host 1 thousand_nodes
              (5%Z, {| Node.lat := of_Z 2; Node.lon := of_Z 1; Node.key_val := [] |})
              [(6%Z, {| Node.lat := of_Z 4; Node.lon := of_Z 3;
                        Node.key_val := [("amenity", "cafe")]%string |})]
              no_node_tables fresh_world Hlen HN HK _ eq_refl).
    intros k Hk. cbn [polls fresh_world Nat.add] in Hk.
    assert (k = 0) as -> by lia. reflexivity.
  - split; [reflexivity|]. vm_compute. reflexivity.
Defined.

(** ** The tables of the entry point *)

(** X13. On every input string on which the parser hands out, for each
    table, columns of one length, [rcpp_osmdata_sc] returns, and each of
    its six tables is made of the columns of the parser's accessors, under
    these names and in this order: vertex has [x], [y], [vertex_]; edge has
    [.vx0], [.vx1], [edge_]; object_link_edge has [edge_], [object_];
    obj_node, obj_way and obj_rel have [object_], [key], [val].  (The
    flatteners name the coordinates [x_], [y_] and the values [value].) *)
Theorem entry_point_columns parse st h (σ : unit * world) :
  xml_consistent (parse st) ->
  exists ret,
    rcpp_osmdata_sc parse st h σ = (inr ret, σ) /\
    combine (names ret) (df_columns <$> elements ret) =
      [("vertex", [("x", NumericColumn (XmlDataSC.vx (parse st)));
                   ("y", NumericColumn (XmlDataSC.vy (parse st)));
                   ("vertex_", CharacterColumn (XmlDataSC.vert_id (parse st)))]);
       ("edge", [(".vx0", CharacterColumn (XmlDataSC.vx0 (parse st)));
                 (".vx1", CharacterColumn (XmlDataSC.vx1 (parse st)));
                 ("edge_", CharacterColumn (XmlDataSC.edge (parse st)))]);
       ("object_link_edge",
        [("edge_", CharacterColumn (XmlDataSC.edge (parse st)));
         ("object_", CharacterColumn (XmlDataSC.object (parse st)))]);
       ("obj_node", [("object_", CharacterColumn (XmlDataSC.node_id (parse st)));
                     ("key", CharacterColumn (XmlDataSC.node_key (parse st)));
                     ("val", CharacterColumn (XmlDataSC.node_val (parse st)))]);
       ("obj_way", [("object_", CharacterColumn (XmlDataSC.way_id (parse st)));
                    ("key", CharacterColumn (XmlDataSC.way_key (parse st)));
                    ("val", CharacterColumn (XmlDataSC.way_val (parse st)))]);
       ("obj_rel", [("object_", CharacterColumn (XmlDataSC.rel_id (parse st)));
                    ("key", CharacterColumn (XmlDataSC.rel_key (parse st)));
                    ("val", CharacterColumn (XmlDataSC.rel_val (parse st)))])]%string.
Proof.
  intros Hc. rewrite rcpp_osmdata_sc_tables by done.
  eexists. split; reflexivity.
Qed.

Lemma entry_point_columns_witness :
  xml_consistent (sample_parse "<osm/>") /\
  exists ret,
    rcpp_osmdata_sc sample_parse "<osm/>" quiet_host (tt, fresh_world) =
      (inr ret, (tt, fresh_world)) /\
    (combine (names ret) (df_columns <$> elements ret)) !! 3 =
      Some ("obj_node", [("object_", CharacterColumn ["6"]);
                         ("key", CharacterColumn ["amenity"]);
                         ("val", CharacterColumn ["cafe"])])%string.
Proof.
  split; [apply sample_parse_consistent|].
  destruct (entry_point_columns sample_parse "<osm/>" quiet_host (tt, fresh_world)
              (sample_parse_consistent "<osm/>")) as (ret & Hrun & Hcols).
  exists ret. split; [exact Hrun|]. by rewrite Hcols.
Defined.

(** ** One call after another *)

(** X16. Nothing of a call of [get_osm_ways] carries over to the next one
    but the position of the random source: a second call, on any ways,
    overwrites the caller's three data frames with the tables of its own
    input, and builds its identifiers from the draws that follow the ten
    per edge the first call has used. *)
Theorem way_flattener_twice h (ways1 ways2 : Ways) s w :
  never_interrupts h -> uniform_source h ->
  fits_int (edge_total ways1) -> fits_int (kv_total (way_tags ways1)) ->
  fits_int (edge_total ways2) -> fits_int (kv_total (way_tags ways2)) ->
  exists s' w',
    (let* _ := get_osm_ways ways1 in get_osm_ways ways2) h (s, w) =
      (inr tt, (s', w')) /\
    s' = ways_tables h ways2 (draws w + length_ids * edge_total ways1) /\
    df_column "edge_" (edge s') =
      Some (CharacterColumn
              (ids_from h (draws w + length_ids * edge_total ways1)
                 (edge_total ways2))) /\
    polls w' = polls w + length ways1 + length ways2 /\
    draws w' = draws w + length_ids * edge_total ways1 + length_ids * edge_total ways2.
Proof.
  intros Hquiet Hunif HE1 HK1 HE2 HK2. unfold fits_int in *.
  erewrite bind_inr by (by apply get_osm_ways_run).
  rewrite (get_osm_ways_run h Hquiet Hunif ways2 HE2 HK2).
  eexists _, _. split; [reflexivity|]. cbn [adv draws polls].
  split; [reflexivity|]. split; [reflexivity|]. split; reflexivity.
Qed.

Lemma way_flattener_twice_witness :
  (never_interrupts quiet_host /\ uniform_source quiet_host /\
   fits_int (edge_total sample_ways) /\
   fits_int (kv_total (way_tags sample_ways))) /\
  exists s' w',
    (let* _ := get_osm_ways sample_ways in get_osm_ways sample_ways) quiet_host
      (no_way_tables, fresh_world) = (inr tt, (s', w')) /\
    df_column "edge_" (edge s') =
      Some (CharacterColumn (ids_from quiet_host 20 2)) /\
    draws w' = 40.
Proof.
  assert (fits_int (edge_total sample_ways)) as HE by (vm_compute; discriminate).
  assert (fits_int (kv_total (way_tags sample_ways))) as HK
    by (vm_compute; discriminate).
  split; [auto using quiet_host_never_interrupts, quiet_host_uniform|].
  destruct (way_flattener_twice quiet_host sample_ways sample_ways no_way_tables
              fresh_world quiet_host_never_interrupts quiet_host_uniform
              HE HK HE HK)
    as (s' & w' & Hrun & _ & Hids & _ & Hdraws).
  exists s', w'. split; [exact Hrun|]. split; [exact Hids|exact Hdraws].
Defined.
